(** * The local agent of [adws/adw_modules/local_agent.py]

    A shallow embedding of the tool executors, the tool-call extractor,
    the conversation loop and the transcript recorder, together with the
    properties of them that the design document states.

    Python values are modelled as follows.
    - [str] is a list of Unicode code points ([text]).
    - Values decoded from JSON are the type [json]; a [dict] is an
      association list in insertion order with unique keys.
    - A call that may raise returns a [result]; an [except] clause is a
      match on it.
    - Everything outside the interpreter (files, the shell, the Ollama
      server, CPython's float arithmetic and error messages) is an oracle
      gathered in the class [Host]; the effects the agent causes are
      written to a trace.
    - What the module prints to the terminal is left out. *)

From Stdlib Require Import ZArith NArith Lia Bool Ascii String Arith List.
Import ListNotations.

Set Implicit Arguments.
Unset Strict Implicit.

(* ================================================================== *)
(** * Python strings *)

Abbreviation char := N (only parsing).
Abbreviation text := (list N) (only parsing).

Definition ch (a : ascii) : char := N_of_ascii a.

Fixpoint T (s : string) : text :=
  match s with
  | EmptyString => []
  | String a r => ch a :: T r
  end.
Arguments T s%_string : simpl never.
Arguments ch a%_char : simpl never.

Definition char_eqb (a b : char) : bool := N.eqb a b.

Fixpoint text_eqb (a b : text) : bool :=
  match a, b with
  | [], [] => true
  | x :: a', y :: b' => char_eqb x y && text_eqb a' b'
  | _, _ => false
  end.

(** [str.startswith] *)
Fixpoint starts_with (p s : text) : bool :=
  match p, s with
  | [], _ => true
  | x :: p', y :: s' => char_eqb x y && starts_with p' s'
  | _ :: _, [] => false
  end.

(** [str.endswith] *)
Definition ends_with (p s : text) : bool :=
  starts_with (rev p) (rev s).

(** [sub in s] *)
Fixpoint str_in (sub s : text) : bool :=
  starts_with sub s ||
  match s with
  | [] => false
  | _ :: s' => str_in sub s'
  end.

(** [s.count(sub)] for a non-empty [sub]: occurrences are counted from the
    left and do not overlap.  [skip] is the number of characters still
    covered by the occurrence found last. *)
Fixpoint count_scan (sub s : text) (skip : nat) : nat :=
  match s with
  | [] => 0
  | _ :: s' =>
      match skip with
      | S k => count_scan sub s' k
      | O => if starts_with sub s
             then S (count_scan sub s' (length sub - 1))
             else count_scan sub s' 0
      end
  end.

(** [s.count(sub)]; the empty string occurs between any two characters
    and at both ends. *)
Definition str_count (s sub : text) : nat :=
  match sub with
  | [] => S (length s)
  | _ :: _ => count_scan sub s 0
  end.

Fixpoint replace_scan (sub new s : text) (skip : nat) : text :=
  match s with
  | [] => []
  | c :: s' =>
      match skip with
      | S k => replace_scan sub new s' k
      | O => if starts_with sub s
             then new ++ replace_scan sub new s' (length sub - 1)
             else c :: replace_scan sub new s' 0
      end
  end.

(** [s.replace(old, new)] *)
Definition str_replace (s old new : text) : text :=
  match old with
  | [] => new ++ flat_map (fun c => c :: new) s
  | _ :: _ => replace_scan old new s 0
  end.

(** [sep.join(parts)] *)
Fixpoint str_join (sep : text) (parts : list text) : text :=
  match parts with
  | [] => []
  | [p] => p
  | p :: rest => p ++ sep ++ str_join sep rest
  end.

(** [str.isspace] on one code point; this is also the class [\s] of a
    [str] pattern. *)
Definition is_space (c : char) : bool :=
  ((9 <=? c) && (c <=? 13) || (28 <=? c) && (c <=? 32) ||
   (c =? 133) || (c =? 160) || (c =? 5760) ||
   (8192 <=? c) && (c <=? 8202) || (c =? 8232) || (c =? 8233) ||
   (c =? 8239) || (c =? 8287) || (c =? 12288))%N.

Fixpoint lstrip (s : text) : text :=
  match s with
  | c :: s' => if is_space c then lstrip s' else s
  | [] => []
  end.

Definition rstrip (s : text) : text := rev (lstrip (rev s)).

(** [s.strip()] *)
Definition str_strip (s : text) : text := rstrip (lstrip s).

(** Decimal digits of a number, least significant first; [fuel] bounds
    the number of digits. *)
Fixpoint digits_rev (fuel : nat) (n : N) : text :=
  match fuel with
  | O => []
  | S f => ((48 + n mod 10)%N : char) ::
           (if (n <? 10)%N then [] else digits_rev f (n / 10)%N)
  end.

Definition str_of_N (n : N) : text :=
  rev (digits_rev (S (N.to_nat (N.log2 n))) n).

(** [str(n)] for a non-negative count *)
Definition str_of_nat (n : nat) : text := str_of_N (N.of_nat n).

(** [str(z)] for an [int] *)
Definition str_of_Z (z : Z) : text :=
  match z with
  | Z0 => T "0"
  | Zpos p => str_of_N (Npos p)
  | Zneg p => ch "-" :: str_of_N (Npos p)
  end.

(* ================================================================== *)
(** * Regular expressions

    The patterns of the module use literals, character classes, [?] on a
    character, greedy and lazy repetition of a character class and at most
    one group.  A pattern is a list of such items; [re_exec] is the
    backtracking matcher of [re], anchored at the start of its input. *)

Inductive item : Type :=
| One (p : char -> bool)          (* a character of the class *)
| Opt (p : char -> bool)          (* x?  *)
| Star (p : char -> bool)         (* x*  *)
| Lazy (p : char -> bool)         (* x*? *)
| GOpen                           (* (   *)
| GClose.                         (* )   *)

Definition regex := list item.

Record groups : Type := mkGroups { g_open : option text; g_close : option text }.

Definition no_groups : groups := mkGroups None None.

(** The result is the input left after the match and the positions of
    the group, each given as the input that was left there. *)
Fixpoint re_exec (r : regex) (s : text) (g : groups) {struct r}
  : option (text * groups) :=
  match r with
  | [] => Some (s, g)
  | One p :: r' =>
      match s with
      | c :: s' => if p c then re_exec r' s' g else None
      | [] => None
      end
  | Opt p :: r' =>
      match s with
      | c :: s' =>
          if p c then
            match re_exec r' s' g with
            | Some m => Some m
            | None => re_exec r' s g
            end
          else re_exec r' s g
      | [] => re_exec r' s g
      end
  | Star p :: r' =>
      (fix star (s : text) : option (text * groups) :=
         match s with
         | c :: s' =>
             if p c then
               match star s' with
               | Some m => Some m
               | None => re_exec r' s g
               end
             else re_exec r' s g
         | [] => re_exec r' s g
         end) s
  | Lazy p :: r' =>
      (fix lazy (s : text) : option (text * groups) :=
         match re_exec r' s g with
         | Some m => Some m
         | None =>
             match s with
             | c :: s' => if p c then lazy s' else None
             | [] => None
             end
         end) s
  | GOpen :: r' => re_exec r' s (mkGroups (Some s) (g_close g))
  | GClose :: r' => re_exec r' s (mkGroups (g_open g) (Some s))
  end.

(** The text between two positions of the same input. *)
Definition between (from to : text) : text :=
  firstn (length from - length to) from.

(** What [findall] reports for a match: the group when the pattern has
    one, the whole match otherwise. *)
Definition reported (s rest : text) (g : groups) : text :=
  match g_open g, g_close g with
  | Some a, Some b => between a b
  | _, _ => between s rest
  end.

(** [re.search(r, s) is not None] *)
Fixpoint re_search (r : regex) (s : text) : bool :=
  match re_exec r s no_groups with
  | Some _ => true
  | None =>
      match s with
      | [] => false
      | _ :: s' => re_search r s'
      end
  end.

(** [re.findall(r, s)]: matches are sought from the left and do not
    overlap; after an empty match the search moves on by one character.
    [skip] is the number of characters still covered by the last match. *)
Fixpoint findall_scan (r : regex) (s : text) (skip : nat) : list text :=
  match skip with
  | S k =>
      match s with
      | [] => []
      | _ :: s' => findall_scan r s' k
      end
  | O =>
      match re_exec r s no_groups with
      | Some (rest, g) =>
          reported s rest g ::
          match s with
          | [] => []
          | _ :: s' => findall_scan r s' (length s - length rest - 1)
          end
      | None =>
          match s with
          | [] => []
          | _ :: s' => findall_scan r s' 0
          end
      end
  end.

Definition re_findall (r : regex) (s : text) : list text := findall_scan r s 0.

(** Pattern syntax *)
Definition lit (s : text) : regex := map (fun c => One (char_eqb c)) s.
Definition any_char : char -> bool := fun _ => true.       (* . with DOTALL *)
Definition not_brace (c : char) : bool :=                  (* [^{}] *)
  negb (char_eqb c (ch "{")) && negb (char_eqb c (ch "}")).
Definition not_quote (c : char) : bool :=                  (* not a double quote *)
  negb (char_eqb c 34%N).
Definition plus (p : char -> bool) : regex := [One p; Star p].

(* ================================================================== *)
(** * Python values, exceptions and the host *)

(** A value decoded by [json.loads].  A [float] is kept as the literal it
    was read from; what CPython computes from it is left to the host. *)
Unset Elimination Schemes.
Inductive json : Type :=
| JNull
| JBool (b : bool)
| JInt (z : Z)
| JFloat (lit : text)
| JStr (s : text)
| JArr (l : list json)
| JObj (d : list (text * json)).
Set Elimination Schemes.

Inductive exn_class : Type :=
| FileNotFoundError
| TimeoutExpired
| ConnectionError
| KeyError
| TypeError
| AttributeError
| ValueError
| RecursionError
| OtherException.

(** An exception: its class and [str(e)]. *)
Record exn : Type := mkExn { exn_cls : exn_class; exn_str : text }.

Inductive result (A : Type) : Type :=
| Returned (a : A)
| Raised (e : exn).
Arguments Returned {A} a.
Arguments Raised {A} e.

(** [subprocess.CompletedProcess] *)
Record completed : Type :=
  mkCompleted { proc_stdout : text; proc_stderr : text; returncode : Z }.

(** [requests.Response]: the status code, the body and what [.json()]
    gives for it. *)
Record response : Type :=
  mkResponse { status_code : Z; resp_text : text; resp_json : result json }.

(** The world outside the interpreter.  [OS] is the state of the machine
    (files, processes, the model server); each oracle is a total function
    of it, so a call that fails returns the exception it raises.  The
    remaining fields are what CPython computes on floats, the [repr] of
    containers and the messages of its type errors. *)
Class Host : Type := {
  OS : Type;
  get_project_root : text;
  OLLAMA_HOST : text;
  OLLAMA_MODEL : text;
  MODEL_MAP : list (text * text);
  (* open(path, "r").read() *)
  os_read : OS -> text -> result text;
  (* open(path, "w"); f.write(content) *)
  os_write : OS -> text -> text -> OS * option exn;
  (* os.makedirs(path, exist_ok=True) *)
  os_makedirs : OS -> text -> OS * option exn;
  (* glob.glob(pattern, recursive=True) *)
  os_glob : OS -> text -> result (list text);
  (* os.path.relpath(path, start) *)
  os_relpath : OS -> text -> text -> result text;
  (* subprocess.run(command, shell=True, ..., timeout=120, cwd=cwd) *)
  os_shell : OS -> text -> text -> OS * result completed;
  (* subprocess.run(argv, ...) *)
  os_spawn : OS -> list text -> OS * result completed;
  (* requests.post(url, json=payload, timeout=300) *)
  http_post : OS -> text -> json -> OS * result response;
  (* requests.get(url, timeout=5) *)
  http_get : OS -> text -> OS * result response;
  (* floats *)
  float_eqb : text -> text -> bool;
  float_eq_int : text -> Z -> bool;
  float_is_zero : text -> bool;
  float_repr : text -> text;      (* repr(x) *)
  float_json : text -> text;      (* json.dumps(x) *)
  float_eqb_refl : forall l, float_eqb l l = true;
  (* repr() of a list or a dict *)
  container_repr : json -> text;
  (* str(e) of the TypeError or AttributeError an operation raises on a
     value it does not accept; the operation is named by the first text *)
  wrong_type : text -> json -> text;
  (* str.isalnum() on a code point above the ASCII range *)
  unicode_isalnum : char -> bool;
  (* sys.get_int_max_str_digits() *)
  int_max_str_digits : nat;
  (* the number of containers, one inside the other, that the interpreter
     lets the decoder enter before its recursion guard raises *)
  decoder_depth : nat
}.

(** An effect the agent causes outside the interpreter. *)
Inductive event : Type :=
| EvPost (url : text) (payload : json)      (* a request to the chat endpoint *)
| EvShell (command : text)                  (* a shell process *)
| EvSpawn (argv : list text)                (* any other process *)
| EvWrite (path : text) (content : text)    (* a file opened for writing *)
| EvMakedirs (path : text).

Record World `{Host} : Type := mkWorld { os : OS; trace : list event }.

Definition emit `{Host} (w : World) (o : OS) (e : event) : World :=
  mkWorld o (trace w ++ [e]).
Arguments emit : simpl never.

(** ** Dictionaries *)

Fixpoint dict_get (d : list (text * json)) (k : text) : option json :=
  match d with
  | [] => None
  | (k', v) :: d' => if text_eqb k k' then Some v else dict_get d' k
  end.

(** [d[k] = v]: a key that is present keeps its place. *)
Fixpoint dict_set (d : list (text * json)) (k : text) (v : json)
  : list (text * json) :=
  match d with
  | [] => [(k, v)]
  | (k', v') :: d' =>
      if text_eqb k k' then (k', v) :: d' else (k', v') :: dict_set d' k v
  end.

(** ** Equality ([==]) *)

Inductive number : Type := NumInt (z : Z) | NumFloat (lit : text).

Definition as_number (v : json) : option number :=
  match v with
  | JBool b => Some (NumInt (if b then 1 else 0))
  | JInt z => Some (NumInt z)
  | JFloat l => Some (NumFloat l)
  | _ => None
  end.

Definition number_eqb `{Host} (a b : number) : bool :=
  match a, b with
  | NumInt x, NumInt y => Z.eqb x y
  | NumFloat x, NumFloat y => float_eqb x y
  | NumFloat x, NumInt y => float_eq_int x y
  | NumInt x, NumFloat y => float_eq_int y x
  end.

Fixpoint py_eq `{Host} (a b : json) {struct a} : bool :=
  match a with
  | JNull => match b with JNull => true | _ => false end
  | JBool _ | JInt _ | JFloat _ =>
      match as_number a, as_number b with
      | Some x, Some y => number_eqb x y
      | _, _ => false
      end
  | JStr x => match b with JStr y => text_eqb x y | _ => false end
  | JArr l =>
      match b with
      | JArr m =>
          (fix all2 (l : list json) (m : list json) : bool :=
             match l, m with
             | [], [] => true
             | x :: l', y :: m' => py_eq x y && all2 l' m'
             | _, _ => false
             end) l m
      | _ => false
      end
  | JObj d =>
      match b with
      | JObj e =>
          Nat.eqb (length d) (length e) &&
          (fix sub (d : list (text * json)) : bool :=
             match d with
             | [] => true
             | (k, v) :: d' =>
                 match dict_get e k with
                 | Some v' => py_eq v v'
                 | None => false
                 end && sub d'
             end) d
      | _ => false
      end
  end.

(** [x in l] for a list [l] *)
Definition py_in `{Host} (x : json) (l : list json) : bool :=
  existsb (fun y => py_eq y x) l.

(** Truth value of a value, as [or] and [if] test it. *)
Definition truthy `{Host} (v : json) : bool :=
  match v with
  | JNull => false
  | JBool b => b
  | JInt z => negb (Z.eqb z 0)
  | JFloat l => negb (float_is_zero l)
  | JStr s => match s with [] => false | _ => true end
  | JArr l => match l with [] => false | _ => true end
  | JObj d => match d with [] => false | _ => true end
  end.

(** [str(v)], as an f-string inserts it. *)
Definition py_str `{Host} (v : json) : text :=
  match v with
  | JNull => T "None"
  | JBool true => T "True"
  | JBool false => T "False"
  | JInt z => str_of_Z z
  | JFloat l => float_repr l
  | JStr s => s
  | JArr _ | JObj _ => container_repr v
  end.

(** [v.get(k, default)]: only a dict has the method. *)
Definition py_get `{Host} (v : json) (k : text) (default : json) : result json :=
  match v with
  | JObj d =>
      Returned (match dict_get d k with Some x => x | None => default end)
  | _ => Raised (mkExn AttributeError (wrong_type (T "get") v))
  end.

(** [v[k]] for a string [k]: a dict without the key raises [KeyError],
    whose text is the [repr] of the key; any other value raises
    [TypeError]. *)
Definition py_getitem `{Host} (v : json) (k : text) : result json :=
  match v with
  | JObj d =>
      match dict_get d k with
      | Some x => Returned x
      | None => Raised (mkExn KeyError (T "'" ++ k ++ T "'"))
      end
  | _ => Raised (mkExn TypeError (wrong_type (T "getitem") v))
  end.

(** [k in v] for a string [k] *)
Definition py_contains `{Host} (v : json) (k : text) : result bool :=
  match v with
  | JObj d => Returned (match dict_get d k with Some _ => true | None => false end)
  | JArr l => Returned (py_in (JStr k) l)
  | JStr s => Returned (str_in k s)
  | _ => Raised (mkExn TypeError (wrong_type (T "in") v))
  end.

(* ================================================================== *)
(** * [json.loads] and [json.dumps] *)

Definition is_json_ws (c : char) : bool :=
  ((c =? 32) || (c =? 9) || (c =? 10) || (c =? 13))%N.

Fixpoint skip_ws (s : text) : text :=
  match s with
  | c :: s' => if is_json_ws c then skip_ws s' else s
  | [] => []
  end.

Definition is_digit (c : char) : bool := ((48 <=? c) && (c <=? 57))%N.

Definition hex_value (c : char) : option N :=
  (if (48 <=? c) && (c <=? 57) then Some (c - 48)
   else if (97 <=? c) && (c <=? 102) then Some (c - 87)
   else if (65 <=? c) && (c <=? 70) then Some (c - 55)
   else None)%N.

Definition hex4 (a b c d : char) : option N :=
  match hex_value a, hex_value b, hex_value c, hex_value d with
  | Some x, Some y, Some z, Some w => Some (((x * 16 + y) * 16 + z) * 16 + w)%N
  | _, _, _, _ => None
  end.

Definition is_high_surrogate (u : N) : bool := ((55296 <=? u) && (u <=? 56319))%N.
Definition is_low_surrogate (u : N) : bool := ((56320 <=? u) && (u <=? 57343))%N.

(** The low surrogate that follows, if the input goes on with one. *)
Definition low_surrogate_ahead (s : text) : option (N * text) :=
  match s with
  | 92%N :: 117%N :: a :: b :: c :: d :: r =>
      match hex4 a b c d with
      | Some u => if is_low_surrogate u then Some (u, r) else None
      | None => None
      end
  | _ => None
  end.

(** The body of a string after its opening quote (strict mode): the
    decoded text and the input after the closing quote. *)
Fixpoint scan_string (s : text) (acc : text) {struct s} : option (text * text) :=
  match s with
  | [] => None
  | c :: s1 =>
      if (c =? 34)%N then Some (rev acc, s1)
      else if (c =? 92)%N then
        match s1 with
        | [] => None
        | e :: s2 =>
            if (e =? 34)%N then scan_string s2 (34%N :: acc)
            else if (e =? 92)%N then scan_string s2 (92%N :: acc)
            else if (e =? 47)%N then scan_string s2 (47%N :: acc)
            else if (e =? 98)%N then scan_string s2 (8%N :: acc)
            else if (e =? 102)%N then scan_string s2 (12%N :: acc)
            else if (e =? 110)%N then scan_string s2 (10%N :: acc)
            else if (e =? 114)%N then scan_string s2 (13%N :: acc)
            else if (e =? 116)%N then scan_string s2 (9%N :: acc)
            else if (e =? 117)%N then
              match s2 with
              | h1 :: h2 :: h3 :: h4 :: s3 =>
                  match hex4 h1 h2 h3 h4 with
                  | None => None
                  | Some u =>
                      match s3 with
                      | 92%N :: 117%N :: l1 :: l2 :: l3 :: l4 :: s4 =>
                          match (if is_high_surrogate u
                                 then low_surrogate_ahead s3 else None) with
                          | Some (lo, _) =>
                              scan_string s4
                                ((65536 + (u - 55296) * 1024 + (lo - 56320))%N :: acc)
                          | None => scan_string s3 (u :: acc)
                          end
                      | _ => scan_string s3 (u :: acc)
                      end
                  end
              | _ => None
              end
            else None
        end
      else if (c <? 32)%N then None
      else scan_string s1 (c :: acc)
  end.

Fixpoint take_digits (s : text) : text * text :=
  match s with
  | c :: s' =>
      if is_digit c then let (d, r) := take_digits s' in (c :: d, r)
      else ([], s)
  | [] => ([], [])
  end.

Definition digits_value (d : text) : Z :=
  fold_left (fun acc c => (acc * 10 + Z.of_N (c - 48))%Z) d 0%Z.

(** The integer part of a number literal: an optional minus sign, then
    a zero or a digit string that does not start with zero. *)
Definition scan_int (s : text) : option (bool * text * text) :=
  let (neg, s1) := match s with
                   | 45%N :: r => (true, r)
                   | _ => (false, s)
                   end in
  match s1 with
  | c :: r =>
      if (c =? 48)%N then Some (neg, [c], r)
      else if is_digit c then
        let (d, r') := take_digits r in Some (neg, c :: d, r')
      else None
  | [] => None
  end.

(** The fraction that follows, if any: a dot and at least one digit. *)
Definition scan_frac (s : text) : text * text :=
  match s with
  | 46%N :: r =>
      match take_digits r with
      | ([], _) => ([], s)
      | (d, r') => (46%N :: d, r')
      end
  | _ => ([], s)
  end.

(** The exponent that follows, if any: [e] or [E], an optional sign and
    at least one digit. *)
Definition scan_exp (s : text) : text * text :=
  match s with
  | e :: r =>
      if (e =? 101)%N || (e =? 69)%N then
        let (sign, r1) := match r with
                          | c :: r' => if (c =? 45)%N || (c =? 43)%N
                                       then ([c], r') else ([], r)
                          | [] => ([], r)
                          end in
        match take_digits r1 with
        | ([], _) => ([], s)
        | (d, r2) => (e :: sign ++ d, r2)
        end
      else ([], s)
  | [] => ([], s)
  end.

(** What the decoder makes of an input: a value was read, the input is
    not JSON ([JSONDecodeError]), or the decoder gave up with another
    exception. *)
Inductive scanned (A : Type) : Type :=
| Scanned (a : A)
| Malformed
| Failed (e : exn).
Arguments Scanned {A} a.
Arguments Malformed {A}.
Arguments Failed {A} e.

Section Decoder.
Context `{Host}.

(** [int(s)] on a string of digits: above the limit on the number of
    digits the conversion raises [ValueError].  A limit of 0 switches
    the test off, and strings of up to 640 digits are never tested. *)
Definition over_int_limit (digits : text) : bool :=
  (640 <? length digits) && (0 <? int_max_str_digits) &&
  (int_max_str_digits <? length digits).

Definition int_limit_error (digits : text) : exn :=
  mkExn ValueError
    (T "Exceeds the limit (" ++ str_of_nat int_max_str_digits ++
     T " digits) for integer string conversion: value has " ++
     str_of_nat (length digits) ++
     T " digits; use sys.set_int_max_str_digits() to increase the limit").

(** What the recursion guard of the decoder raises at a container it
    may not enter. *)
Definition recursion_error (container : text) : exn :=
  mkExn RecursionError
    (T "maximum recursion depth exceeded while decoding a JSON " ++ container ++
     T " from a unicode string").

Definition scan_number (s : text) : scanned (json * text) :=
  match scan_int s with
  | None => Malformed
  | Some (neg, d, r) =>
      let (frac, r1) := scan_frac r in
      let (ex, r2) := scan_exp r1 in
      match frac, ex with
      | [], [] =>
          if over_int_limit d then Failed (int_limit_error d)
          else Scanned (JInt (if neg then - digits_value d else digits_value d)%Z, r)
      | _, _ =>
          Scanned (JFloat ((if neg then [45%N] else []) ++ d ++ frac ++ ex), r2)
      end
  end.

(** A fixed word at the head of the input. *)
Definition scan_word (w : text) (v : json) (s : text) : scanned (json * text) :=
  if starts_with w s then Scanned (v, skipn (length w) s) else Malformed.

(** One value at the head of the input.  A container and the list of
    what it holds take one unit of fuel each and use up a character
    before the next value is read, so fuel above twice the length of the
    input is never exhausted.  [depth] is the number of containers that
    may still be entered. *)
Fixpoint scan_value (fuel depth : nat) (s : text) {struct fuel}
  : scanned (json * text) :=
  match fuel with
  | O => Malformed
  | S f =>
      match s with
      | [] => Malformed
      | c :: s' =>
          if (c =? 34)%N then
            match scan_string s' [] with
            | Some (str, r) => Scanned (JStr str, r)
            | None => Malformed
            end
          else if (c =? 123)%N then
            match depth with
            | O => Failed (recursion_error (T "object"))
            | S depth' =>
                match skip_ws s' with
                | 125%N :: r => Scanned (JObj [], r)
                | s1 => scan_members f depth' s1 []
                end
            end
          else if (c =? 91)%N then
            match depth with
            | O => Failed (recursion_error (T "array"))
            | S depth' =>
                match skip_ws s' with
                | 93%N :: r => Scanned (JArr [], r)
                | s1 => scan_elements f depth' s1 []
                end
            end
          else if (c =? 110)%N then scan_word (T "null") JNull s
          else if (c =? 116)%N then scan_word (T "true") (JBool true) s
          else if (c =? 102)%N then scan_word (T "false") (JBool false) s
          else
            match scan_number s with
            | Scanned m => Scanned m
            | Failed e => Failed e
            | Malformed =>
                if (c =? 78)%N then scan_word (T "NaN") (JFloat (T "NaN")) s
                else if (c =? 73)%N
                then scan_word (T "Infinity") (JFloat (T "Infinity")) s
                else if (c =? 45)%N
                then scan_word (T "-Infinity") (JFloat (T "-Infinity")) s
                else Malformed
            end
      end
  end

(** The members of an object, from the first key on. *)
with scan_members (fuel depth : nat) (s : text) (acc : list (text * json))
       {struct fuel} : scanned (json * text) :=
  match fuel with
  | O => Malformed
  | S f =>
      match s with
      | 34%N :: s' =>
          match scan_string s' [] with
          | None => Malformed
          | Some (k, r) =>
              match skip_ws r with
              | 58%N :: r1 =>
                  match scan_value f depth (skip_ws r1) with
                  | Malformed => Malformed
                  | Failed e => Failed e
                  | Scanned (v, r2) =>
                      match skip_ws r2 with
                      | 125%N :: r3 => Scanned (JObj (dict_set acc k v), r3)
                      | 44%N :: r3 =>
                          scan_members f depth (skip_ws r3) (dict_set acc k v)
                      | _ => Malformed
                      end
                  end
              | _ => Malformed
              end
          end
      | _ => Malformed
      end
  end

(** The elements of an array, from the first one on. *)
with scan_elements (fuel depth : nat) (s : text) (acc : list json)
       {struct fuel} : scanned (json * text) :=
  match fuel with
  | O => Malformed
  | S f =>
      match scan_value f depth s with
      | Malformed => Malformed
      | Failed e => Failed e
      | Scanned (v, r) =>
          match skip_ws r with
          | 93%N :: r1 => Scanned (JArr (rev (v :: acc)), r1)
          | 44%N :: r1 => scan_elements f depth (skip_ws r1) (v :: acc)
          | _ => Malformed
          end
      end
  end.

(** [json.loads(s)].  [Malformed] stands for [JSONDecodeError]; the other
    exceptions are the [ValueError] of an integer literal with too many
    digits and the [RecursionError] of containers nested too deep. *)
Definition json_loads (s : text) : scanned json :=
  let s1 := skip_ws s in
  match scan_value (S (2 * length s1)) decoder_depth s1 with
  | Scanned (v, r) => match skip_ws r with [] => Scanned v | _ => Malformed end
  | Malformed => Malformed
  | Failed e => Failed e
  end.

End Decoder.

Definition hex_digit (n : N) : char := (if n <? 10 then 48 + n else 87 + n)%N.

(** The escape [\uxxxx] of a 16-bit unit. *)
Definition u_escape (u : N) : text :=
  [92%N; 117%N; hex_digit (u / 4096 mod 16); hex_digit (u / 256 mod 16);
   hex_digit (u / 16 mod 16); hex_digit (u mod 16)].

(** One character of a string under [ensure_ascii]. *)
Definition escape_char (c : char) : text :=
  (if c =? 34 then [92; 34]
   else if c =? 92 then [92; 92]
   else if c =? 10 then [92; 110]
   else if c =? 13 then [92; 114]
   else if c =? 9 then [92; 116]
   else if c =? 8 then [92; 98]
   else if c =? 12 then [92; 102]
   else if (32 <=? c) && (c <=? 126) then [c]
   else if c <? 65536 then u_escape c
   else u_escape (55296 + (c - 65536) / 1024) ++
        u_escape (56320 + (c - 65536) mod 1024))%N.

Definition dq : text := [34%N].

Definition json_string (s : text) : text := dq ++ flat_map escape_char s ++ dq.

(** [json.dumps(v)] with the default separators. *)
Fixpoint json_dumps `{Host} (v : json) : text :=
  match v with
  | JNull => T "null"
  | JBool true => T "true"
  | JBool false => T "false"
  | JInt z => str_of_Z z
  | JFloat l => float_json l
  | JStr s => json_string s
  | JArr l =>
      T "[" ++
      (fix items (l : list json) : text :=
         match l with
         | [] => []
         | [x] => json_dumps x
         | x :: l' => json_dumps x ++ T ", " ++ items l'
         end) l ++ T "]"
  | JObj d =>
      T "{" ++
      (fix items (d : list (text * json)) : text :=
         match d with
         | [] => []
         | [(k, x)] => json_string k ++ T ": " ++ json_dumps x
         | (k, x) :: d' => json_string k ++ T ": " ++ json_dumps x ++ T ", " ++ items d'
         end) d ++ T "}"
  end.

(** A line break followed by the indentation of a nesting level. *)
Definition newline_indent (level : nat) : text :=
  10%N :: repeat 32%N (2 * level).

(** [json.dumps(v, indent=2)] for a value at nesting depth [level]. *)
Fixpoint json_dumps_indent `{Host} (level : nat) (v : json) : text :=
  match v with
  | JArr [] => T "[]"
  | JArr l =>
      T "[" ++ newline_indent (S level) ++
      (fix items (l : list json) : text :=
         match l with
         | [] => []
         | [x] => json_dumps_indent (S level) x
         | x :: l' => json_dumps_indent (S level) x ++ T "," ++
                      newline_indent (S level) ++ items l'
         end) l ++ newline_indent level ++ T "]"
  | JObj [] => T "{}"
  | JObj d =>
      T "{" ++ newline_indent (S level) ++
      (fix items (d : list (text * json)) : text :=
         match d with
         | [] => []
         | [(k, x)] => json_string k ++ T ": " ++ json_dumps_indent (S level) x
         | (k, x) :: d' => json_string k ++ T ": " ++ json_dumps_indent (S level) x ++
                           T "," ++ newline_indent (S level) ++ items d'
         end) d ++ newline_indent level ++ T "}"
  | _ => json_dumps v
  end.

(* ================================================================== *)
(** * Paths ([posixpath]) *)

Definition slash : char := ch "/".

Definition isabs (p : text) : bool := starts_with [slash] p.

(** [os.path.join(a, b)] *)
Definition path_join (a b : text) : text :=
  if starts_with [slash] b then b
  else match a with
       | [] => b
       | _ => if ends_with [slash] a then a ++ b else a ++ slash :: b
       end.

Fixpoint drop_while (p : char -> bool) (s : text) : text :=
  match s with
  | c :: s' => if p c then drop_while p s' else s
  | [] => []
  end.

(** [os.path.dirname(p)] *)
Definition dirname (p : text) : text :=
  let head := rev (drop_while (fun c => negb (char_eqb c slash)) (rev p)) in
  if forallb (char_eqb slash) head then head
  else rev (drop_while (char_eqb slash) (rev head)).

(** [s.split(c)] for a one-character separator *)
Fixpoint split_on (c : char) (s : text) : list text :=
  match s with
  | [] => [[]]
  | x :: s' =>
      if char_eqb x c then [] :: split_on c s'
      else match split_on c s' with
           | p :: r => (x :: p) :: r
           | [] => [[x]]
           end
  end.

(* ================================================================== *)
(** * Tool executors *)

Section Tools.
Context `{Host}.

Definition nl : text := [10%N].

Definition is_class (c : exn_class) (e : exn) : bool :=
  match c, exn_cls e with
  | FileNotFoundError, FileNotFoundError => true
  | TimeoutExpired, TimeoutExpired => true
  | ConnectionError, ConnectionError => true
  | _, _ => false
  end.

(** The first lines of the file tools: a relative path is taken from the
    project root.  [os.path.isabs] rejects what is not a string. *)
Definition resolve (path : json) : result text :=
  match path with
  | JStr p => Returned (if isabs p then p else path_join get_project_root p)
  | _ => Raised (mkExn TypeError (wrong_type (T "isabs") path))
  end.

Definition tool_read_file (w : World) (path : json) : text :=
  match resolve path with
  | Raised e => T "Error reading file: " ++ exn_str e
  | Returned p =>
      match os_read (os w) p with
      | Returned content =>
          T "File contents of " ++ p ++ T ":" ++ nl ++ T "```" ++ nl ++
          content ++ nl ++ T "```"
      | Raised e =>
          if is_class FileNotFoundError e
          then T "Error: File not found: " ++ p
          else T "Error reading file: " ++ exn_str e
      end
  end.

Definition tool_write_file (w : World) (path content : json) : text * World :=
  match resolve path with
  | Raised e => (T "Error writing file: " ++ exn_str e, w)
  | Returned p =>
      let (o1, r1) := os_makedirs (os w) (dirname p) in
      let w1 := emit w o1 (EvMakedirs (dirname p)) in
      match r1 with
      | Some e => (T "Error writing file: " ++ exn_str e, w1)
      | None =>
          (* the file is opened, and so emptied, before [f.write] looks at
             its argument *)
          let c := match content with JStr c => c | _ => [] end in
          let (o2, r2) := os_write (os w1) p c in
          let w2 := emit w1 o2 (EvWrite p c) in
          match r2 with
          | Some e => (T "Error writing file: " ++ exn_str e, w2)
          | None =>
              match content with
              | JStr _ => (T "Successfully wrote to " ++ p, w2)
              | _ => (T "Error writing file: " ++ wrong_type (T "write") content, w2)
              end
          end
      end
  end.

Definition tool_edit_file (w : World) (path old_string new_string : json)
  : text * World :=
  match resolve path with
  | Raised e => (T "Error editing file: " ++ exn_str e, w)
  | Returned p =>
      match os_read (os w) p with
      | Raised e =>
          (if is_class FileNotFoundError e
           then T "Error: File not found: " ++ p
           else T "Error editing file: " ++ exn_str e, w)
      | Returned content =>
          match old_string with
          | JStr old =>
              if negb (str_in old content) then
                (T "Error: String not found in " ++ p, w)
              else
                (* Check for uniqueness *)
                let count := str_count content old in
                if 1 <? count then
                  (T "Error: String appears " ++ str_of_nat count ++ T " times in " ++
                   p ++ T ". Provide more context for unique match.", w)
                else
                  match new_string with
                  | JStr new =>
                      let new_content := str_replace content old new in
                      let (o1, r1) := os_write (os w) p new_content in
                      let w1 := emit w o1 (EvWrite p new_content) in
                      match r1 with
                      | None => (T "Successfully edited " ++ p, w1)
                      | Some e =>
                          (if is_class FileNotFoundError e
                           then T "Error: File not found: " ++ p
                           else T "Error editing file: " ++ exn_str e, w1)
                      end
                  | _ =>
                      (T "Error editing file: " ++
                       wrong_type (T "replace") new_string, w)
                  end
          | _ => (T "Error editing file: " ++ wrong_type (T "in") old_string, w)
          end
      end
  end.

Definition sp : item := Star is_space.

(** The deny-list of [tool_bash], in the order of the source. *)
Definition dangerous_patterns : list regex :=
  [ lit (T "rm") ++ plus is_space ++ lit (T "-rf") ++ plus is_space ++ lit (T "/");
    lit (T "rm") ++ plus is_space ++ lit (T "-rf") ++ plus is_space ++ lit (T "*");
    lit (T ">") ++ [sp] ++ lit (T "/dev/sd");
    lit (T "mkfs.");
    lit (T "dd") ++ plus is_space ++ lit (T "if=") ].

Definition is_dangerous (command : text) : bool :=
  existsb (fun pattern => re_search pattern command) dangerous_patterns.

(** The text [tool_bash] builds from a finished process. *)
Definition bash_output (r : completed) : text :=
  let output :=
    (match proc_stdout r with
     | [] => []
     | _ => T "stdout:" ++ nl ++ proc_stdout r ++ nl
     end) ++
    (match proc_stderr r with
     | [] => []
     | _ => T "stderr:" ++ nl ++ proc_stderr r ++ nl
     end) ++
    (if Z.eqb (returncode r) 0 then []
     else T "Exit code: " ++ str_of_Z (returncode r)) in
  match output with
  | [] => T "Command completed successfully (no output)"
  | _ => output
  end.

(** The check against the deny-list stands before the [try]: what
    [re.search] raises on a command that is not a string leaves the
    function. *)
Definition tool_bash (w : World) (command : json) : result text * World :=
  match command with
  | JStr c =>
      if is_dangerous c then
        (Returned (T "Error: Command blocked for safety: " ++ c), w)
      else
        let (o1, r) := os_shell (os w) c get_project_root in
        let w1 := emit w o1 (EvShell c) in
        match r with
        | Returned done => (Returned (bash_output done), w1)
        | Raised e =>
            (Returned (if is_class TimeoutExpired e
                       then T "Error: Command timed out after 120 seconds"
                       else T "Error executing command: " ++ exn_str e), w1)
        end
  | _ => (Raised (mkExn TypeError (wrong_type (T "search") command)), w)
  end.

(** [path or get_project_root()], then made absolute. *)
Definition search_root (path : json) : result text :=
  resolve (if truthy path then path else JStr get_project_root).

(** [[os.path.relpath(m, project_root) for m in matches]] *)
Fixpoint relative_to_root (o : OS) (matches : list text) : result (list text) :=
  match matches with
  | [] => Returned []
  | m :: rest =>
      match os_relpath o m get_project_root with
      | Raised e => Raised e
      | Returned r =>
          match relative_to_root o rest with
          | Raised e => Raised e
          | Returned rs => Returned (r :: rs)
          end
      end
  end.

Definition tool_glob_search (w : World) (pattern path : json) : text :=
  let failed (e : exn) := T "Error in glob search: " ++ exn_str e in
  match search_root path with
  | Raised e => failed e
  | Returned search_path =>
      match pattern with
      | JStr pat =>
          match os_glob (os w) (path_join search_path pat) with
          | Raised e => failed e
          | Returned matches =>
              match relative_to_root (os w) matches with
              | Raised e => failed e
              | Returned relative_matches =>
                  match relative_matches with
                  | [] => T "No files found matching pattern: " ++ pat
                  | _ =>
                      T "Found " ++ str_of_nat (length relative_matches) ++
                      T " files:" ++ nl ++ str_join nl (firstn 50 relative_matches)
                  end
              end
          end
      | _ => failed (mkExn TypeError (wrong_type (T "join") pattern))
      end
  end.

Definition tool_grep_search (w : World) (pattern path file_pattern : json)
  : text * World :=
  let failed (e : exn) := T "Error in grep search: " ++ exn_str e in
  match search_root path with
  | Raised e => (failed e, w)
  | Returned search_path =>
      match (if truthy file_pattern then file_pattern else JStr (T "*")) with
      | JStr fp =>
          match pattern with
          | JStr pat =>
              let cmd := [T "grep"; T "-rn"; T "--include=" ++ fp; pat; search_path] in
              let (o1, r) := os_spawn (os w) cmd in
              let w1 := emit w o1 (EvSpawn cmd) in
              match r with
              | Returned done =>
                  match proc_stdout done with
                  | [] => (T "No matches found for pattern: " ++ pat, w1)
                  | out =>
                      let lines := split_on 10%N (str_strip out) in
                      (T "Found " ++ str_of_nat (length lines) ++ T " matches:" ++
                       nl ++ str_join nl (firstn 30 lines), w1)
                  end
              | Raised e =>
                  (if is_class TimeoutExpired e
                   then T "Error: Search timed out" else failed e, w1)
              end
          | _ => (failed (mkExn TypeError (wrong_type (T "argv") pattern)), w)
          end
      | other => (failed (mkExn TypeError (wrong_type (T "concat") other)), w)
      end
  end.

(** ** Dispatch *)

Definition tool_names : list text :=
  [T "read_file"; T "write_file"; T "edit_file"; T "bash";
   T "glob_search"; T "grep_search"].

Definition registered (name : text) : bool :=
  existsb (text_eqb name) tool_names.

(** Sequencing of calls that may raise, as Python evaluates the arguments
    of a call from left to right. *)
Definition bind {A B : Type} (r : result A) (k : A -> result B * World) (w : World)
  : result B * World :=
  match r with
  | Returned a => k a
  | Raised e => (Raised e, w)
  end.

(** [execute_tool(name, arguments)].  The table of the source maps each
    name to a lambda; the lambda reads its required arguments with
    [args[...]] and the optional ones with [args.get(...)]. *)
Definition execute_tool (w : World) (name arguments : json) : result text * World :=
  match name with
  | JArr _ | JObj _ =>
      (* [name not in tool_functions] hashes the name *)
      (Raised (mkExn TypeError (wrong_type (T "hash") name)), w)
  | JStr n =>
      if negb (registered n) then
        (Returned (T "Error: Unknown tool '" ++ n ++ T "'"), w)
      else if text_eqb n (T "read_file") then
        bind (py_getitem arguments (T "path")) (fun path =>
          (Returned (tool_read_file w path), w)) w
      else if text_eqb n (T "write_file") then
        bind (py_getitem arguments (T "path")) (fun path =>
        bind (py_getitem arguments (T "content")) (fun content =>
          let (t, w') := tool_write_file w path content in (Returned t, w')) w) w
      else if text_eqb n (T "edit_file") then
        bind (py_getitem arguments (T "path")) (fun path =>
        bind (py_getitem arguments (T "old_string")) (fun old_string =>
        bind (py_getitem arguments (T "new_string")) (fun new_string =>
          let (t, w') := tool_edit_file w path old_string new_string in
          (Returned t, w')) w) w) w
      else if text_eqb n (T "bash") then
        bind (py_getitem arguments (T "command")) (fun command =>
          tool_bash w command) w
      else if text_eqb n (T "glob_search") then
        bind (py_getitem arguments (T "pattern")) (fun pattern =>
        bind (py_get arguments (T "path") JNull) (fun path =>
          (Returned (tool_glob_search w pattern path), w)) w) w
      else
        bind (py_getitem arguments (T "pattern")) (fun pattern =>
        bind (py_get arguments (T "path") JNull) (fun path =>
        bind (py_get arguments (T "file_pattern") JNull) (fun file_pattern =>
          let (t, w') := tool_grep_search w pattern path file_pattern in
          (Returned t, w')) w) w) w
  | _ => (Returned (T "Error: Unknown tool '" ++ py_str name ++ T "'"), w)
  end.

End Tools.

(* ================================================================== *)
(** * Tool-call extractor *)

Section Extractor.
Context `{Host}.

Definition newline (c : char) : bool := char_eqb c 10%N.

(** The pattern of a fenced tool block: three backquotes and the word
    tool, white space, an optional line break, the group (as short as
    possible, across lines), an optional line break, three backquotes. *)
Definition tool_block_pattern : regex :=
  lit (T "```tool") ++ [sp; Opt newline; GOpen; Lazy any_char; GClose; Opt newline] ++
  lit (T "```").

(** The pattern of a tag pair. *)
Definition tag_pattern : regex :=
  lit (T "<tool_call>") ++ [sp; GOpen; Lazy any_char; GClose; sp] ++
  lit (T "</tool_call>").

(** The pattern of a bare object: a name key with a non-empty string,
    a comma, later an arguments key with an object, and no other brace. *)
Definition json_pattern : regex :=
  lit (T "{") ++ [Star not_brace] ++ lit (dq ++ T "name" ++ dq) ++ [sp] ++
  lit (T ":") ++ [sp] ++ lit dq ++ plus not_quote ++ lit dq ++ [sp] ++
  lit (T ",") ++ [Star not_brace] ++ lit (dq ++ T "arguments" ++ dq) ++ [sp] ++
  lit (T ":") ++ [sp] ++ lit (T "{") ++ [Star not_brace] ++ lit (T "}") ++
  [Star not_brace] ++ lit (T "}").

(** The loop of patterns 1 and 2: a match that does not decode is
    skipped.  Only [JSONDecodeError] is caught; another exception of
    [json.loads] leaves the loop and the function. *)
Fixpoint append_decoded (tool_calls : list json) (matches : list text)
  : result (list json) :=
  match matches with
  | [] => Returned tool_calls
  | m :: rest =>
      match json_loads (str_strip m) with
      | Scanned data => append_decoded (tool_calls ++ [data]) rest
      | Malformed => append_decoded tool_calls rest
      | Failed e => Raised e
      end
  end.

Definition has_key (data : json) (k : text) : bool :=
  match data with
  | JObj d => match dict_get d k with Some _ => true | None => false end
  | _ => false
  end.

(** The loop of pattern 3.  A match begins with a brace, so what decodes
    is a dict (lemma [json_loads_object]) and the key tests are tests on a
    dict; a call already in the list is not added again. *)
Fixpoint append_new (tool_calls : list json) (matches : list text)
  : result (list json) :=
  match matches with
  | [] => Returned tool_calls
  | m :: rest =>
      match json_loads m with
      | Scanned data =>
          if has_key data (T "name") && has_key data (T "arguments") then
            if negb (py_in data tool_calls)
            then append_new (tool_calls ++ [data]) rest
            else append_new tool_calls rest
          else append_new tool_calls rest
      | Malformed => append_new tool_calls rest
      | Failed e => Raised e
      end
  end.

(** [parse_tool_calls_from_text(text)]; what it raises is what
    [json.loads] raised. *)
Definition parse_tool_calls_from_text (txt : text) : result (list json) :=
  let tool_calls := [] in
  (* Pattern 1 *)
  match append_decoded tool_calls (re_findall tool_block_pattern txt) with
  | Raised e => Raised e
  | Returned tool_calls =>
      (* Pattern 2 *)
      match append_decoded tool_calls (re_findall tag_pattern txt) with
      | Raised e => Raised e
      | Returned tool_calls =>
          (* Pattern 3 *)
          append_new tool_calls (re_findall json_pattern txt)
      end
  end.

End Extractor.

(* ================================================================== *)
(** * Conversation loop *)

Section Loop.
Context `{Host}.

(** A quoted word of the system prompt. *)
Definition Q (s : text) : text := dq ++ s ++ dq.

Definition system_prompt : text :=
  str_join nl
    [ T "You are a helpful AI coding assistant. You have access to tools to help you complete tasks.";
      [];
      T "## Available Tools";
      [];
      T "1. **read_file** - Read file contents";
      T "   Arguments: {" ++ Q (T "path") ++ T ": " ++ Q (T "file/path") ++ T "}";
      [];
      T "2. **write_file** - Write content to a file";
      T "   Arguments: {" ++ Q (T "path") ++ T ": " ++ Q (T "file/path") ++ T ", " ++
        Q (T "content") ++ T ": " ++ Q (T "file content") ++ T "}";
      [];
      T "3. **edit_file** - Replace a specific string in a file";
      T "   Arguments: {" ++ Q (T "path") ++ T ": " ++ Q (T "file/path") ++ T ", " ++
        Q (T "old_string") ++ T ": " ++ Q (T "text to find") ++ T ", " ++
        Q (T "new_string") ++ T ": " ++ Q (T "replacement text") ++ T "}";
      [];
      T "4. **bash** - Execute shell commands";
      T "   Arguments: {" ++ Q (T "command") ++ T ": " ++ Q (T "shell command") ++ T "}";
      [];
      T "5. **glob_search** - Find files matching patterns";
      T "   Arguments: {" ++ Q (T "pattern") ++ T ": " ++ Q (T "**/*.py") ++ T ", " ++
        Q (T "path") ++ T ": " ++ Q (T "optional/directory") ++ T "}";
      [];
      T "6. **grep_search** - Search for patterns in files";
      T "   Arguments: {" ++ Q (T "pattern") ++ T ": " ++ Q (T "regex pattern") ++ T ", " ++
        Q (T "path") ++ T ": " ++ Q (T "optional/directory") ++ T ", " ++
        Q (T "file_pattern") ++ T ": " ++ Q (T "*.py") ++ T "}";
      [];
      T "## How to Call Tools";
      [];
      T "To use a tool, include a tool call block in your response:";
      [];
      T "```tool";
      T "{" ++ Q (T "name") ++ T ": " ++ Q (T "tool_name") ++ T ", " ++
        Q (T "arguments") ++ T ": {" ++ Q (T "arg1") ++ T ": " ++ Q (T "value1") ++ T "}}";
      T "```";
      [];
      T "Example:";
      T "```tool";
      T "{" ++ Q (T "name") ++ T ": " ++ Q (T "read_file") ++ T ", " ++
        Q (T "arguments") ++ T ": {" ++ Q (T "path") ++ T ": " ++ Q (T "README.md") ++ T "}}";
      T "```";
      [];
      T "## Important Rules";
      [];
      T "1. Call ONE tool at a time and wait for the result before calling another";
      T "2. After receiving tool results, analyze them and decide next steps";
      T "3. When your task is complete, provide a clear final answer WITHOUT any tool blocks";
      T "4. Think step by step about what you need to do";
      [];
      T "Begin by analyzing the task and determining what information you need." ].

(** A message of the history sent to the model. *)
Definition message (role content : text) : json :=
  JObj [(T "role", JStr role); (T "content", JStr content)].

(** The message recorded for the result of one tool call. *)
Definition tool_message (tool_name : json) (tool_result : text) : json :=
  JObj [(T "role", JStr (T "tool")); (T "name", tool_name);
        (T "content", JStr tool_result)].

Definition chat_url : text := OLLAMA_HOST ++ T "/api/chat".

(** [chat_with_ollama(messages, model)]: one request to the chat
    endpoint.  The request is written to the trace whatever comes of
    it. *)
Definition chat_with_ollama (w : World) (messages : list json) (model : text)
  : result json * World :=
  let payload := JObj [(T "model", JStr model); (T "messages", JArr messages);
                       (T "stream", JBool false)] in
  let (o1, r) := http_post (os w) chat_url payload in
  let w1 := emit w o1 (EvPost chat_url payload) in
  match r with
  | Raised e => (Raised e, w1)
  | Returned resp =>
      if negb (Z.eqb (status_code resp) 200) then
        (Raised (mkExn OtherException
                   (T "Ollama API error: " ++ str_of_Z (status_code resp) ++ T " - " ++
                    resp_text resp)), w1)
      else (resp_json resp, w1)
  end.

(** The inner loop of a turn: the calls are dispatched in the order they
    were extracted; an exception of [execute_tool] ends the run. *)
Fixpoint dispatch_all (tool_calls : list json) (tool_results : list text)
         (all_messages : list json) (w : World)
  : result (list text * list json) * World :=
  match tool_calls with
  | [] => (Returned (tool_results, all_messages), w)
  | tool_call :: rest =>
      match py_get tool_call (T "name") (JStr []) with
      | Raised e => (Raised e, w)
      | Returned tool_name =>
          match py_get tool_call (T "arguments") (JObj []) with
          | Raised e => (Raised e, w)
          | Returned tool_args =>
              let (r, w1) := execute_tool w tool_name tool_args in
              match r with
              | Raised e => (Raised e, w1)
              | Returned tool_result =>
                  dispatch_all rest
                    (tool_results ++
                     [T "**" ++ py_str tool_name ++ T "** result:" ++ nl ++ tool_result])
                    (all_messages ++ [tool_message tool_name tool_result]) w1
              end
          end
      end
  end.

Definition results_message (tool_results : list text) : json :=
  message (T "user")
    (T "Tool results:" ++ nl ++ nl ++ str_join (nl ++ nl) tool_results ++ nl ++ nl ++
     T "Continue with your task. If complete, provide your final answer without tool blocks.").

(** How a run ended.  The source returns the same pair in all three
    cases; the tag names the exit that was taken and is dropped by
    [run_agent_loop]. *)
Inductive terminal : Type :=
| Done          (* a turn without tool calls: [break] *)
| Truncated     (* the [for] loop ran out *)
| Fatal.        (* [chat_with_ollama] raised *)

(** The [for] loop with [n] iterations left. *)
Fixpoint agent_loop (n : nat) (model : text) (messages all_messages : list json)
         (w : World) : result (terminal * text * list json) * World :=
  match n with
  | O => (Returned (Truncated, [], all_messages), w)
  | S n' =>
      let (r, w1) := chat_with_ollama w messages model in
      match r with
      | Raised e =>
          (Returned (Fatal, T "Error in agent loop: " ++ exn_str e, all_messages), w1)
      | Returned resp =>
          match py_get resp (T "message") (JObj []) with
          | Raised e => (Raised e, w1)
          | Returned msg =>
              match py_get msg (T "content") (JStr []) with
              | Raised e => (Raised e, w1)
              | Returned content =>
                  let all_messages := all_messages ++ [msg] in
                  match content with
                  | JStr c =>
                      match parse_tool_calls_from_text c with
                      | Raised e => (Raised e, w1)
                      | Returned [] => (Returned (Done, c, all_messages), w1)
                      | Returned tool_calls =>
                          let messages := messages ++ [message (T "assistant") c] in
                          let (r2, w2) := dispatch_all tool_calls [] all_messages w1 in
                          match r2 with
                          | Raised e => (Raised e, w2)
                          | Returned (tool_results, all_messages) =>
                              agent_loop n' model
                                (messages ++ [results_message tool_results])
                                all_messages w2
                          end
                      end
                  | _ =>
                      (* [re.findall] on what is not a string *)
                      (Raised (mkExn TypeError (wrong_type (T "findall") content)), w1)
                  end
              end
          end
      end
  end.

Definition initial_messages (prompt : text) : list json :=
  [message (T "system") system_prompt; message (T "user") prompt].

(** The run with the tag of its exit. *)
Definition run_tagged (w : World) (prompt model : text) (max_iterations : Z)
  : result (terminal * text * list json) * World :=
  agent_loop (Z.to_nat max_iterations) model (initial_messages prompt) [] w.

(** [run_agent_loop(prompt, model, max_iterations)]: the final response
    and the recorded messages. *)
Definition run_agent_loop (w : World) (prompt model : text) (max_iterations : Z)
  : result (text * list json) * World :=
  let (r, w') := run_tagged w prompt model max_iterations in
  (match r with
   | Returned (_, final_response, all_messages) => Returned (final_response, all_messages)
   | Raised e => Raised e
   end, w').

End Loop.

(* ================================================================== *)
(** * Transcript recorder and entry point *)

Section Recorder.
Context `{Host}.

(** The line-delimited form: [json.dumps(msg)] and a line break for each
    message. *)
Definition jsonl_text (messages : list json) : text :=
  flat_map (fun msg => json_dumps msg ++ nl) messages.

(** The structured form: [json.dump(messages, f, indent=2)]. *)
Definition json_text (messages : list json) : text :=
  json_dumps_indent 0 (JArr messages).

Definition json_file_of (output_file : text) : text :=
  str_replace output_file (T ".jsonl") (T ".json").

(** [save_output(messages, output_file)]; nothing is caught here. *)
Definition save_output (w : World) (messages : list json) (output_file : text)
  : result unit * World :=
  let output_dir := dirname output_file in
  let (r0, w0) :=
    match output_dir with
    | [] => (None, w)
    | _ => let (o, r) := os_makedirs (os w) output_dir in
           (r, emit w o (EvMakedirs output_dir))
    end in
  match r0 with
  | Some e => (Raised e, w0)
  | None =>
      (* Save as JSONL *)
      let (o1, r1) := os_write (os w0) output_file (jsonl_text messages) in
      let w1 := emit w0 o1 (EvWrite output_file (jsonl_text messages)) in
      match r1 with
      | Some e => (Raised e, w1)
      | None =>
          (* Save as JSON *)
          let json_file := json_file_of output_file in
          let (o2, r2) := os_write (os w1) json_file (json_text messages) in
          let w2 := emit w1 o2 (EvWrite json_file (json_text messages)) in
          match r2 with
          | Some e => (Raised e, w2)
          | None => (Returned tt, w2)
          end
      end
  end.

(** The fields of [AgentPromptRequest] that the module reads. *)
Record AgentPromptRequest : Type := mkRequest {
  prompt : text;
  adw_id : text;
  agent_name : text;
  model : text;
  output_file : text
}.

Record AgentPromptResponse : Type := mkPromptResponse {
  output : text;
  success : bool;
  session_id : option text
}.

Definition tags_url : text := OLLAMA_HOST ++ T "/api/tags".

Definition check_ollama_installed (w : World) : option text * World :=
  let (o1, r) := http_get (os w) tags_url in
  let w1 := mkWorld o1 (trace w) in
  match r with
  | Returned resp =>
      if negb (Z.eqb (status_code resp) 200)
      then (Some (T "Error: Ollama is not responding at " ++ OLLAMA_HOST), w1)
      else (None, w1)
  | Raised e =>
      (Some (if is_class ConnectionError e
             then T "Error: Cannot connect to Ollama at " ++ OLLAMA_HOST ++
                  T ". Is Ollama running?"
             else T "Error checking Ollama: " ++ exn_str e), w1)
  end.

(** What a [for] loop over a decoded value visits. *)
Definition py_iter (v : json) : result (list json) :=
  match v with
  | JArr l => Returned l
  | JObj d => Returned (map (fun kv => JStr (fst kv)) d)
  | JStr s => Returned (map (fun c => JStr [c]) s)
  | _ => Raised (mkExn TypeError (wrong_type (T "iter") v))
  end.

(** [s.split(":")[0]] *)
Definition before_colon (s : text) : text := hd [] (split_on (ch ":") s).

(** The list comprehension over [models]: the name of each model, the
    empty string if it has none, cut at the first colon. *)
Fixpoint model_bases (models : list json) : result (list text) :=
  match models with
  | [] => Returned []
  | m :: rest =>
      match py_get m (T "name") (JStr []) with
      | Raised e => Raised e
      | Returned (JStr n) =>
          match model_bases rest with
          | Raised e => Raised e
          | Returned ns => Returned (before_colon n :: ns)
          end
      | Returned other => Raised (mkExn AttributeError (wrong_type (T "split") other))
      end
  end.

(** [[m.get("name") for m in models]], once every [m] is known to be a
    dict. *)
Definition model_names (models : list json) : list json :=
  map (fun m => match py_get m (T "name") JNull with
                | Returned n => n
                | Raised _ => JNull
                end) models.

(** [', '.join(...)] of values that must all be strings. *)
Fixpoint join_names (names : list json) : result (list text) :=
  match names with
  | [] => Returned []
  | JStr n :: rest =>
      match join_names rest with
      | Raised e => Raised e
      | Returned ns => Returned (n :: ns)
      end
  | other :: _ => Raised (mkExn TypeError (wrong_type (T "join") other))
  end.

Definition check_model_available (w : World) (model : text) : option text * World :=
  let failed (e : exn) := Some (T "Error checking model: " ++ exn_str e) in
  let (o1, r) := http_get (os w) tags_url in
  let w1 := mkWorld o1 (trace w) in
  match r with
  | Raised e => (failed e, w1)
  | Returned resp =>
      if Z.eqb (status_code resp) 200 then
        match resp_json resp with
        | Raised e => (failed e, w1)
        | Returned body =>
            match py_get body (T "models") (JArr []) with
            | Raised e => (failed e, w1)
            | Returned models =>
                match py_iter models with
                | Raised e => (failed e, w1)
                | Returned ms =>
                    match model_bases ms with
                    | Raised e => (failed e, w1)
                    | Returned bases =>
                        if negb (existsb (text_eqb (before_colon model)) bases) &&
                           negb (py_in (JStr model) (model_names ms))
                        then
                          match join_names (model_names ms) with
                          | Raised e => (failed e, w1)
                          | Returned ns =>
                              (Some (T "Model '" ++ model ++ T "' not found. Available: " ++
                                     str_join (T ", ") ns), w1)
                          end
                        else (None, w1)
                    end
                end
            end
        end
      else (None, w1)
  end.

(** The class [\w] of a [str] pattern. *)
Definition is_word (c : char) : bool :=
  ((48 <=? c) && (c <=? 57) || (65 <=? c) && (c <=? 90) ||
   (97 <=? c) && (c <=? 122) || (c =? 95) ||
   (127 <? c) && unicode_isalnum c)%N.

(** The pattern of [save_prompt]: a slash and word characters at the
    start of the prompt. *)
Definition slash_command_pattern : regex :=
  [GOpen; One (char_eqb slash)] ++ plus is_word ++ [GClose].

Fixpoint join_all (base : text) (parts : list text) : text :=
  match parts with
  | [] => base
  | p :: rest => join_all (path_join base p) rest
  end.

(** [save_prompt(prompt, adw_id, agent_name)]; nothing is caught here. *)
Definition save_prompt (w : World) (prompt adw_id agent_name : text)
  : result unit * World :=
  match re_exec slash_command_pattern prompt no_groups with
  | None => (Returned tt, w)
  | Some (rest, g) =>
      let slash_command := reported prompt rest g in
      let command_name := skipn 1 slash_command in
      let prompt_dir :=
        join_all get_project_root [T "agents"; adw_id; agent_name; T "prompts"] in
      let (o1, r1) := os_makedirs (os w) prompt_dir in
      let w1 := emit w o1 (EvMakedirs prompt_dir) in
      match r1 with
      | Some e => (Raised e, w1)
      | None =>
          let prompt_file := path_join prompt_dir (command_name ++ T ".txt") in
          let (o2, r2) := os_write (os w1) prompt_file prompt in
          let w2 := emit w1 o2 (EvWrite prompt_file prompt) in
          match r2 with
          | Some e => (Raised e, w2)
          | None => (Returned tt, w2)
          end
      end
  end.

Definition lookup_model (name : text) : text :=
  match find (fun kv => text_eqb name (fst kv)) MODEL_MAP with
  | Some (_, m) => m
  | None => OLLAMA_MODEL
  end.

(** The [try] block of [prompt_local_agent]: the run with the default of
    20 iterations, then the recorder; whatever is raised becomes a
    response that reports no success. *)
Definition run_and_record (w : World) (request : AgentPromptRequest) (model : text)
  : AgentPromptResponse * World :=
  let failed (e : exn) :=
    mkPromptResponse (T "Error executing local agent: " ++ exn_str e) false None in
  let (r, w1) := run_agent_loop w (prompt request) model 20 in
  match r with
  | Raised e => (failed e, w1)
  | Returned (final_response, all_messages) =>
      let (r2, w2) := save_output w1 all_messages (output_file request) in
      match r2 with
      | Raised e => (failed e, w2)
      | Returned _ =>
          (mkPromptResponse final_response true (Some (adw_id request)), w2)
      end
  end.

(** [prompt_local_agent(request)] *)
Definition prompt_local_agent (w : World) (request : AgentPromptRequest)
  : result AgentPromptResponse * World :=
  let (error_msg, w1) := check_ollama_installed w in
  match error_msg with
  | Some msg => (Returned (mkPromptResponse msg false None), w1)
  | None =>
      let model := lookup_model (model request) in
      let (error_msg, w2) := check_model_available w1 model in
      let (pull, w3) :=
        match error_msg with
        | Some _ =>
            let argv := [T "ollama"; T "pull"; model] in
            let (o, r) := os_spawn (os w2) argv in
            let w' := emit w2 o (EvSpawn argv) in
            match r with
            | Raised e => (Some (exn_str e), w')
            | Returned done =>
                if Z.eqb (returncode done) 0 then (None, w')
                else (Some (wrong_type (T "check") (JInt (returncode done))), w')
            end
        | None => (None, w2)
        end in
      match pull with
      | Some e =>
          (Returned (mkPromptResponse (T "Model not available and pull failed: " ++ e)
                       false None), w3)
      | None =>
          let (r, w4) := save_prompt w3 (prompt request) (adw_id request)
                           (agent_name request) in
          match r with
          | Raised e => (Raised e, w4)
          | Returned _ =>
              let (resp, w5) := run_and_record w4 request model in
              (Returned resp, w5)
          end
      end
  end.

End Recorder.

(* ================================================================== *)
(** * Slash-command templates *)

(** The loop of [expand_template]: the argument at position [i], counted
    from 1, replaces the dollar sign followed by [i]. *)
Fixpoint expand_positional (result : text) (i : nat) (args : list text) : text :=
  match args with
  | [] => result
  | arg :: rest =>
      expand_positional (str_replace result (T "$" ++ str_of_nat i) arg) (S i) rest
  end.

(** [expand_template(template, args)] *)
Definition expand_template (template : text) (args : list text) : text :=
  let result := str_replace template (T "$ARGUMENTS") (str_join (T " ") args) in
  expand_positional result 1 args.

(** What the module asks of the file system besides the operations of
    [Host]. *)
Class HostFiles `{Host} : Type := {
  (* os.path.exists(path) *)
  os_exists : OS -> text -> bool
}.

Section Templates.
Context `{HostFiles}.

(** [load_slash_command(slash_command)]; what [open] or [read] raises on
    a path that exists is not caught. *)
Definition load_slash_command (w : World) (slash_command : text) : result (option text) :=
  let command_name := drop_while (char_eqb slash) slash_command in
  let command_path :=
    join_all get_project_root [T ".claude"; T "commands"; command_name ++ T ".md"] in
  if os_exists (os w) command_path then
    match os_read (os w) command_path with
    | Returned content => Returned (Some content)
    | Raised e => Raised e
    end
  else Returned None.

(** The fields of [AgentTemplateRequest] that the module reads. *)
Record AgentTemplateRequest : Type := mkTemplateRequest {
  template_agent_name : text;
  slash_command : text;
  args : list text;
  template_adw_id : text;
  template_model : text
}.

(** The prompt [execute_template] builds: the expanded template, or the
    command line when there is no template or an empty one. *)
Definition template_prompt (template : option text) (request : AgentTemplateRequest)
  : text :=
  match template with
  | Some (c :: t) => expand_template (c :: t) (args request)
  | _ => slash_command request ++ T " " ++ str_join (T " ") (args request)
  end.

Definition template_output_dir (request : AgentTemplateRequest) : text :=
  join_all get_project_root
    [T "agents"; template_adw_id request; template_agent_name request].

(** [execute_template(request)] *)
Definition execute_template (w : World) (request : AgentTemplateRequest)
  : result AgentPromptResponse * World :=
  match load_slash_command w (slash_command request) with
  | Raised e => (Raised e, w)
  | Returned template =>
      let prompt := template_prompt template request in
      let output_dir := template_output_dir request in
      let (o1, r1) := os_makedirs (os w) output_dir in
      let w1 := emit w o1 (EvMakedirs output_dir) in
      match r1 with
      | Some e => (Raised e, w1)
      | None =>
          let output_file := path_join output_dir (T "raw_output.jsonl") in
          prompt_local_agent w1
            (mkRequest prompt (template_adw_id request) (template_agent_name request)
               (template_model request) output_file)
      end
  end.

End Templates.

(* ================================================================== *)
(** * A scripted host

    A small machine on which the definitions above can be run: files
    are a table from paths to contents, the model answers with the
    replies it was given, in order, the shell ends every command
    with a fixed result, and all floats are equal. *)

Record Script : Type := mkScript {
  files : list (text * text);
  replies : list text;
  shell_result : completed;
  found : list text
}.

Fixpoint file_get (fs : list (text * text)) (p : text) : option text :=
  match fs with
  | [] => None
  | (q, c) :: fs' => if text_eqb p q then Some c else file_get fs' p
  end.

Fixpoint file_set (fs : list (text * text)) (p c : text) : list (text * text) :=
  match fs with
  | [] => [(p, c)]
  | (q, c') :: fs' => if text_eqb p q then (q, c) :: fs' else (q, c') :: file_set fs' p c
  end.

Definition script_read (o : Script) (p : text) : result text :=
  match file_get (files o) p with
  | Some c => Returned c
  | None => Raised (mkExn FileNotFoundError
                      (T "[Errno 2] No such file or directory: '" ++ p ++ T "'"))
  end.

Definition script_write (o : Script) (p c : text) : Script * option exn :=
  (mkScript (file_set (files o) p c) (replies o) (shell_result o) (found o), None).

(** The next reply, wrapped as the chat endpoint wraps it. *)
Definition script_post (o : Script) (url : text) (payload : json)
  : Script * result response :=
  match replies o with
  | [] => (o, Raised (mkExn ConnectionError (T "Connection refused")))
  | c :: rest =>
      (mkScript (files o) rest (shell_result o) (found o),
       Returned (mkResponse 200 []
                   (Returned (JObj [(T "message",
                                     JObj [(T "role", JStr (T "assistant"));
                                           (T "content", JStr c)])]))))
  end.

Definition script_get (o : Script) (url : text) : Script * result response :=
  (o, Returned (mkResponse 200 []
                  (Returned (JObj [(T "models",
                                    JArr [JObj [(T "name", JStr (T "deepseek-r1:8b"))]])])))).

Definition scripted : Host := {|
  OS := Script;
  get_project_root := T "/repo";
  OLLAMA_HOST := T "http://localhost:11434";
  OLLAMA_MODEL := T "deepseek-r1:8b";
  MODEL_MAP := [(T "opus", T "deepseek-r1:14b"); (T "sonnet", T "deepseek-r1:8b")];
  os_read := script_read;
  os_write := script_write;
  os_makedirs := fun o _ => (o, None);
  os_glob := fun o _ => Returned (found o);
  os_relpath := fun _ p _ => Returned p;
  os_shell := fun o _ _ => (o, Returned (shell_result o));
  os_spawn := fun o _ => (o, Returned (mkCompleted [] [] 0));
  http_post := script_post;
  http_get := script_get;
  float_eqb := fun _ _ => true;
  float_eq_int := fun _ _ => false;
  float_is_zero := fun _ => false;
  float_repr := fun l => l;
  float_json := fun l => l;
  float_eqb_refl := fun _ => eq_refl;
  container_repr := fun _ => T "<container>";
  wrong_type := fun op _ => T "bad operand for " ++ op;
  unicode_isalnum := fun _ => false;
  int_max_str_digits := 4300;
  decoder_depth := 1000
|}.

(** A machine with the given files and replies, and nothing done yet. *)
Definition boot (fs : list (text * text)) (answers : list text) : @World scripted :=
  @mkWorld scripted (mkScript fs answers (mkCompleted [] [] 0) []) [].

(** A tool block as the system prompt shows it: the fence, the call, the
    fence. *)
Definition fenced (call : text) : text :=
  T "```tool" ++ [10%N] ++ call ++ [10%N] ++ T "```".

(** A call in a tag pair. *)
Definition tagged (call : text) : text :=
  T "<tool_call>" ++ call ++ T "</tool_call>".

(** The text of a call with string arguments, written the way
    [json.dumps] writes it. *)
Definition call_text (name : text) (args : list (text * text)) : text :=
  T "{" ++ dq ++ T "name" ++ dq ++ T ": " ++ dq ++ name ++ dq ++ T ", " ++
  dq ++ T "arguments" ++ dq ++ T ": {" ++
  str_join (T ", ")
    (map (fun kv => dq ++ fst kv ++ dq ++ T ": " ++ dq ++ snd kv ++ dq) args) ++
  T "}}".

(** The value such a text denotes. *)
Definition call_value (name : text) (args : list (text * text)) : json :=
  JObj [(T "name", JStr name);
        (T "arguments", JObj (map (fun kv => (fst kv, JStr (snd kv))) args))].

(** The scripted machine answers [os.path.exists] from its table of
    files. *)
Definition scripted_files : @HostFiles scripted :=
  @Build_HostFiles scripted
    (fun (o : Script) (p : text) =>
       match file_get (files o) p with Some _ => true | None => false end).

(* ================================================================== *)
(** * Notions used in the statements *)

(** The count of a non-empty [sub], as a scan with no occurrence
    pending. *)
Definition occurrences (sub s : text) : nat := count_scan sub s 0.

(** Kinds of events. *)
Definition is_post (e : event) : bool :=
  match e with EvPost _ _ => true | _ => false end.

(** The number of requests to the chat endpoint in a trace. *)
Definition posts (tr : list event) : nat := length (filter is_post tr).

Definition is_shell (e : event) : bool :=
  match e with EvShell _ => true | _ => false end.

Definition is_write (e : event) : bool :=
  match e with EvWrite _ _ => true | _ => false end.

(** [w'] comes after [w]: its trace is that of [w] followed by [evs]. *)
Definition extends `{Host} (w w' : World) (evs : list event) : Prop :=
  trace w' = trace w ++ evs.

(** A step that adds no request to the chat endpoint. *)
Definition quiet `{Host} (w w' : World) : Prop :=
  exists evs, extends w w' evs /\ posts evs = 0.

(** The name under which a call is dispatched: what [tool_call.get]
    gives for the key [name], with the empty string as default. *)
Definition call_name (tool_call : json) : json :=
  match tool_call with
  | JObj d => match dict_get d (T "name") with Some n => n | None => JStr [] end
  | _ => JNull
  end.

(** The messages recorded for the calls of a turn, given their results. *)
Fixpoint tool_messages (tool_calls : list json) (tool_results : list text) : list json :=
  match tool_calls, tool_results with
  | tool_call :: calls, r :: rs =>
      tool_message (call_name tool_call) r :: tool_messages calls rs
  | _, _ => []
  end.

(** The shape of what a run records: for each turn the message the
    model returned, as it came, and then one tool message for each call
    extracted from its content, in the order of extraction. *)
Inductive transcript `{Host} : list json -> Prop :=
| transcript_nil : transcript []
| transcript_turn (msg : json) (content : text) (tool_calls : list json)
                  (tool_results : list text) (rest : list json) :
    py_get msg (T "content") (JStr []) = Returned (JStr content) ->
    parse_tool_calls_from_text content = Returned tool_calls ->
    length tool_results = length tool_calls ->
    transcript rest ->
    transcript (msg :: tool_messages tool_calls tool_results ++ rest).

(** What each exit of the loop returns. *)
Definition outcome_of `{Host} (n : nat) (evs : list event) (tag : terminal) (final : text)
           (all_messages : list json) : Prop :=
  match tag with
  | Done =>
      exists before msg,
        all_messages = before ++ [msg] /\
        py_get msg (T "content") (JStr []) = Returned (JStr final) /\
        parse_tool_calls_from_text final = Returned []
  | Truncated => final = [] /\ posts evs = n
  | Fatal =>
      (exists e, final = T "Error in agent loop: " ++ exn_str e) /\
      1 <= posts evs <= n
  end.

(** The messages a run returned. *)
Definition recorded_by (r : result (terminal * text * list json)) : list json :=
  match r with
  | Returned (_, _, msgs) => msgs
  | Raised _ => []
  end.

(** The tag of a run that returned. *)
Definition tag_of (r : result (terminal * text * list json)) : option terminal :=
  match r with
  | Returned (tag, _, _) => Some tag
  | Raised _ => None
  end.

(** The character [c] does not occur in [s]. *)
Definition lacks (c : char) (s : text) : bool :=
  forallb (fun x => negb (char_eqb x c)) s.

(** Characters the statements name. *)
Definition backquote : char := ch "`".
Definition less_than : char := ch "<".

(** [Matches r s rest]: the pattern [r] matches a prefix of [s] and
    [rest] is left. *)
Inductive Matches : regex -> text -> text -> Prop :=
| M_end (s : text) : Matches [] s s
| M_one (p : char -> bool) (r : regex) (c : char) (s rest : text) :
    p c = true -> Matches r s rest -> Matches (One p :: r) (c :: s) rest
| M_opt_take (p : char -> bool) (r : regex) (c : char) (s rest : text) :
    p c = true -> Matches r s rest -> Matches (Opt p :: r) (c :: s) rest
| M_opt_skip (p : char -> bool) (r : regex) (s rest : text) :
    Matches r s rest -> Matches (Opt p :: r) s rest
| M_star_stop (p : char -> bool) (r : regex) (s rest : text) :
    Matches r s rest -> Matches (Star p :: r) s rest
| M_star_more (p : char -> bool) (r : regex) (c : char) (s rest : text) :
    p c = true -> Matches (Star p :: r) s rest -> Matches (Star p :: r) (c :: s) rest
| M_lazy_stop (p : char -> bool) (r : regex) (s rest : text) :
    Matches r s rest -> Matches (Lazy p :: r) s rest
| M_lazy_more (p : char -> bool) (r : regex) (c : char) (s rest : text) :
    p c = true -> Matches (Lazy p :: r) s rest -> Matches (Lazy p :: r) (c :: s) rest
| M_open (r : regex) (s rest : text) : Matches r s rest -> Matches (GOpen :: r) s rest
| M_close (r : regex) (s rest : text) : Matches r s rest -> Matches (GClose :: r) s rest.

(** The pattern has no group. *)
Definition groupless (r : regex) : bool :=
  forallb (fun i => match i with GOpen | GClose => false | _ => true end) r.

Definition left_brace : char := ch "{".
Definition right_brace : char := ch "}".

(** The number of times [c] occurs in [s]. *)
Definition count_char (c : char) (s : text) : nat := length (filter (char_eqb c) s).

(** No character of [s] is a brace. *)
Definition brace_free (s : text) : bool := forallb not_brace s.

(** The values [json.loads] builds: no dict has a key twice. *)
Fixpoint wf_json (v : json) : Prop :=
  match v with
  | JArr l =>
      (fix all (l : list json) : Prop :=
         match l with
         | [] => True
         | x :: l' => wf_json x /\ all l'
         end) l
  | JObj d =>
      NoDup (map fst d) /\
      (fix all (d : list (text * json)) : Prop :=
         match d with
         | [] => True
         | (_, x) :: d' => wf_json x /\ all d'
         end) d
  | _ => True
  end.


(** The payload of a chat request, as [chat_with_ollama] builds it. *)
Definition chat_payload (model : text) (messages : list json) : json :=
  JObj [(T "model", JStr model); (T "messages", JArr messages);
        (T "stream", JBool false)].



(** The keys that the lambda of a tool reads with [args[...]]. *)
Definition required_arguments (name : text) : list text :=
  if text_eqb name (T "read_file") then [T "path"]
  else if text_eqb name (T "write_file") then [T "path"; T "content"]
  else if text_eqb name (T "edit_file") then [T "path"; T "old_string"; T "new_string"]
  else if text_eqb name (T "bash") then [T "command"]
  else if text_eqb name (T "glob_search") then [T "pattern"]
  else if text_eqb name (T "grep_search") then [T "pattern"]
  else [].

(** The effects a call under a given name may have. *)
Definition may_cause (name : json) (e : event) : Prop :=
  match e with
  | EvPost _ _ => False
  | EvShell _ => name = JStr (T "bash")
  | EvSpawn argv => name = JStr (T "grep_search") /\ hd [] argv = T "grep"
  | EvWrite _ _ => name = JStr (T "write_file") \/ name = JStr (T "edit_file")
  | EvMakedirs _ => name = JStr (T "write_file")
  end.

(** The path a file tool works on. *)
Definition resolved `{Host} (path : text) : text :=
  if isabs path then path else path_join get_project_root path.

(** White space, and at least one character of it. *)
Definition blanks (ws : text) : Prop := ws <> [] /\ forallb is_space ws = true.

(** The texts the deny-list of [tool_bash] looks for. *)
Inductive forbidden : text -> Prop :=
| forbidden_rm_root (ws1 ws2 : text) :
    blanks ws1 -> blanks ws2 -> forbidden (T "rm" ++ ws1 ++ T "-rf" ++ ws2 ++ T "/")
| forbidden_rm_all (ws1 ws2 : text) :
    blanks ws1 -> blanks ws2 -> forbidden (T "rm" ++ ws1 ++ T "-rf" ++ ws2 ++ T "*")
| forbidden_device (ws : text) :
    forallb is_space ws = true -> forbidden (T ">" ++ ws ++ T "/dev/sd")
| forbidden_mkfs : forbidden (T "mkfs.")
| forbidden_dd (ws : text) : blanks ws -> forbidden (T "dd" ++ ws ++ T "if=").

(** An entry of the list of installed models that carries the name [n]. *)
Definition model_named (m : json) (n : text) : Prop :=
  exists d, m = JObj d /\ dict_get d (T "name") = Some (JStr n).

Definition dollar : char := ch "$".

(** No end of [l] is a beginning of [l]: two occurrences of [l] cannot
    overlap. *)
Definition border_free (l : text) : bool :=
  forallb (fun k => negb (starts_with (skipn k l) l)) (seq 1 (length l - 1)).

(** A text that the third loop passes over: it does not decode, or what
    it decodes to lacks one of the two keys. *)
Definition inert `{Host} (m : text) : Prop :=
  json_loads m = Malformed \/
  exists x, json_loads m = Scanned x /\
            has_key x (T "name") && has_key x (T "arguments") = false.

(** The arguments with which a call is dispatched: what [tool_call.get]
    gives for the key [arguments], with the empty dict as default. *)
Definition call_arguments (tool_call : json) : json :=
  match tool_call with
  | JObj d => match dict_get d (T "arguments") with Some a => a | None => JObj [] end
  | _ => JNull
  end.

(** The line of the results message for one call. *)
Definition result_line `{Host} (tool_name : json) (tool_result : text) : text :=
  T "**" ++ py_str tool_name ++ T "** result:" ++ nl ++ tool_result.

(* ================================================================== *)
(** * Facts about strings *)

Lemma text_eqb_refl (s : text) : text_eqb s s = true.
Proof.
  induction s as [| c s IH]; simpl; [reflexivity |].
  unfold char_eqb. now rewrite N.eqb_refl.
Qed.

Lemma char_eqb_eq (a b : char) : char_eqb a b = true <-> a = b.
Proof. unfold char_eqb. apply N.eqb_eq. Qed.

Lemma char_eqb_refl (a : char) : char_eqb a a = true.
Proof. now apply char_eqb_eq. Qed.

Lemma text_eqb_eq (a b : text) : text_eqb a b = true <-> a = b.
Proof.
  revert b. induction a as [| x a IH]; intros [| y b]; simpl; split;
    try congruence; try reflexivity.
  - intros E. apply andb_true_iff in E as [E1 E2].
    apply char_eqb_eq in E1. apply IH in E2. congruence.
  - intros E. injection E as -> ->. now rewrite char_eqb_refl, text_eqb_refl.
Qed.

Lemma starts_with_app (p s : text) : starts_with p (p ++ s) = true.
Proof. induction p as [| c p IH]; simpl; [reflexivity |]. now rewrite char_eqb_refl. Qed.

Lemma starts_with_split (p s : text) :
  starts_with p s = true -> exists r, s = p ++ r.
Proof.
  revert s. induction p as [| c p IH]; intros s E.
  - now exists s.
  - destruct s as [| d s]; simpl in E; [discriminate |].
    apply andb_true_iff in E as [E1 E2]. apply char_eqb_eq in E1. subst d.
    destruct (IH _ E2) as [r ->]. now exists r.
Qed.

Lemma str_in_head (sub s : text) : starts_with sub s = true -> str_in sub s = true.
Proof. intros E. destruct s; simpl; rewrite E; reflexivity. Qed.

Lemma str_in_tail (sub s : text) (c : char) :
  str_in sub s = true -> str_in sub (c :: s) = true.
Proof. intros E. simpl. rewrite E. apply orb_true_r. Qed.

(** [sub in s] holds exactly when [s] can be cut around an occurrence. *)
Lemma str_in_split (sub s : text) :
  str_in sub s = true <-> exists a b, s = a ++ sub ++ b.
Proof.
  split.
  - induction s as [| c s IH]; simpl; intros E.
    + rewrite orb_false_r in E. destruct (starts_with_split E) as [r Hr].
      exists [], r. exact Hr.
    + apply orb_true_iff in E as [E | E].
      * destruct (starts_with_split E) as [r Hr]. exists [], r. exact Hr.
      * destruct (IH E) as [a [b ->]]. now exists (c :: a), b.
  - intros [a [b ->]]. induction a as [| c a IH].
    + cbn [app]. apply str_in_head, starts_with_app.
    + cbn [app]. apply str_in_tail, IH.
Qed.

Section Counting.
Variable sub : text.

Lemma count_scan_skip (s : text) (k : nat) :
  count_scan sub s k = occurrences sub (skipn k s).
Proof.
  revert k. induction s as [| c s IH]; intros k.
  - now destruct k.
  - destruct k as [| k]; [reflexivity |]. simpl. apply IH.
Qed.

Lemma occurrences_cons (c : char) (s : text) :
  occurrences sub (c :: s) =
  if starts_with sub (c :: s) then S (occurrences sub (skipn (length sub - 1) s))
  else occurrences sub s.
Proof.
  unfold occurrences at 1. simpl.
  destruct (starts_with sub (c :: s)); [| reflexivity].
  now rewrite count_scan_skip.
Qed.

Hypothesis sub_not_empty : sub <> [].

Lemma skipn_skipn_add {A : Type} (i j : nat) (l : list A) :
  skipn i (skipn j l) = skipn (j + i) l.
Proof.
  revert l. induction j as [| j IH]; intros l; simpl; [reflexivity |].
  destruct l; [now rewrite skipn_nil | apply IH].
Qed.

(** Counting from the left finds as many occurrences sub as any later start
    does, and a start at most one occurrence further right loses at most
    one. *)
Lemma occurrences_shift (n : nat) :
  forall s, length s <= n ->
    (forall j, occurrences sub (skipn j s) <= occurrences sub s) /\
    (forall j, j <= length sub -> occurrences sub s <= S (occurrences sub (skipn j s))).
Proof.
  induction n as [| n IH]; intros s Hs.
  - destruct s; [| simpl in Hs; lia]. split; intros j; intros; rewrite skipn_nil; auto.
  - destruct s as [| c s]; [split; intros j; intros; rewrite skipn_nil; auto |].
    simpl in Hs. assert (Hs' : length s <= n) by lia.
    destruct (IH s Hs') as [Mono Loss].
    assert (Tail : occurrences sub s <= occurrences sub (c :: s)).
    { rewrite occurrences_cons. destruct (starts_with sub (c :: s)); [| lia].
      apply Loss. lia. }
    split.
    + intros [| j]; [reflexivity |]. simpl. specialize (Mono j). lia.
    + intros [| j] Hj; [simpl; lia |]. simpl.
      rewrite occurrences_cons. destruct (starts_with sub (c :: s)).
      * assert (E : skipn (length sub - 1) s = skipn (length sub - 1 - j) (skipn j s))
          by (rewrite skipn_skipn_add; f_equal; lia).
        rewrite E.
        assert (Hj' : length (skipn j s) <= n) by (rewrite length_skipn; lia).
        destruct (IH _ Hj') as [Mono' _]. specialize (Mono' (length sub - 1 - j)). lia.
      * apply Loss. lia.
Qed.

Lemma occurrences_suffix (a s : text) : occurrences sub s <= occurrences sub (a ++ s).
Proof.
  destruct (occurrences_shift (n := length (a ++ s)) (s := a ++ s) (le_n _)) as [Mono _].
  specialize (Mono (length a)). now rewrite skipn_app, skipn_all, Nat.sub_diag in Mono.
Qed.

(** An occurrence in front of [b] adds one to the count of [b]. *)
Lemma occurrences_found (a b : text) :
  S (occurrences sub b) <= occurrences sub (a ++ sub ++ b).
Proof.
  induction a as [| c a IH].
  - cbn [app].
    assert (Hs : exists x sub', sub = x :: sub')
      by (destruct sub as [| x t]; [congruence | eauto]).
    destruct Hs as [x [sub' E]].
    assert (Hm : starts_with sub (x :: sub' ++ b) = true)
      by (change (x :: sub' ++ b) with ((x :: sub') ++ b); rewrite <- E;
          apply starts_with_app).
    replace (sub ++ b) with (x :: sub' ++ b) by (now rewrite E).
    rewrite occurrences_cons, Hm.
    replace (length sub - 1) with (length sub') by (rewrite E; simpl; lia).
    rewrite skipn_app, skipn_all, Nat.sub_diag. reflexivity.
  - simpl app. rewrite occurrences_cons.
    destruct (starts_with sub (c :: a ++ sub ++ b)) eqn:E; [| exact IH].
    apply le_n_S.
    assert (L : length sub - 1 <= length (a ++ sub)).
    { rewrite length_app. lia. }
    rewrite app_assoc.
    rewrite skipn_app.
    replace (length sub - 1 - length (a ++ sub)) with 0 by lia.
    simpl skipn at 2. apply occurrences_suffix.
Qed.

Lemma occurrences_in (s : text) : str_in sub s = true <-> 1 <= occurrences sub s.
Proof.
  split.
  - intros E. apply str_in_split in E as [a [b ->]].
    pose proof (occurrences_found a b). lia.
  - induction s as [| c s IH]; [unfold occurrences; simpl; lia |].
    rewrite occurrences_cons. simpl str_in.
    destruct (starts_with sub (c :: s)); [reflexivity |].
    intros E. rewrite (IH E). reflexivity.
Qed.

End Counting.

Lemma str_count_occurrences (s sub : text) :
  sub <> [] -> str_count s sub = occurrences sub s.
Proof. destruct sub; [congruence | reflexivity]. Qed.

(** [sub in s] is the same as a count of at least one. *)
Lemma str_in_count (s sub : text) : str_in sub s = true <-> 1 <= str_count s sub.
Proof.
  destruct sub as [| c sub].
  - simpl. split; [lia |]. intros _. destruct s; reflexivity.
  - apply occurrences_in. discriminate.
Qed.

(** Two occurrences that do not overlap are both counted. *)
Lemma str_count_two (sub a b c : text) :
  sub <> [] -> 2 <= str_count (a ++ sub ++ b ++ sub ++ c) sub.
Proof.
  intros Hne. rewrite (str_count_occurrences _ Hne).
  pose proof (occurrences_found Hne a (b ++ sub ++ c)).
  pose proof (occurrences_found Hne b c). lia.
Qed.

(* ================================================================== *)
(** * Properties of the conversation loop *)

Section LoopFacts.
Context `{Host}.

Lemma posts_app (a b : list event) : posts (a ++ b) = posts a + posts b.
Proof. unfold posts. now rewrite filter_app, length_app. Qed.

Lemma extends_refl (w : World) : extends w w [].
Proof. unfold extends. now rewrite app_nil_r. Qed.

Lemma extends_emit (w : World) (o : OS) (e : event) : extends w (emit w o e) [e].
Proof. reflexivity. Qed.

Lemma extends_trans (w1 w2 w3 : World) (a b : list event) :
  extends w1 w2 a -> extends w2 w3 b -> extends w1 w3 (a ++ b).
Proof. unfold extends. intros -> ->. now rewrite app_assoc. Qed.

Lemma quiet_refl (w : World) : quiet w w.
Proof. exists []. split; [apply extends_refl | reflexivity]. Qed.

Lemma quiet_trans (w1 w2 w3 : World) : quiet w1 w2 -> quiet w2 w3 -> quiet w1 w3.
Proof.
  intros [a [Ha Pa]] [b [Hb Pb]]. exists (a ++ b). split.
  - eapply extends_trans; eassumption.
  - rewrite posts_app. lia.
Qed.

Lemma quiet_emit (w : World) (o : OS) (e : event) :
  is_post e = false -> quiet w (emit w o e).
Proof.
  intros He. exists [e]. split; [apply extends_emit |].
  unfold posts. simpl. now rewrite He.
Qed.

Lemma quiet_emit_after (w w1 : World) (o : OS) (e : event) :
  is_post e = false -> quiet w w1 -> quiet w (emit w1 o e).
Proof.
  intros He Hq. eapply quiet_trans; [exact Hq | now apply quiet_emit].
Qed.

Ltac quiet_step :=
  repeat first [ apply quiet_refl
               | apply quiet_emit_after; [reflexivity |] ].

Lemma tool_write_file_quiet (w : World) (path content : json) :
  quiet w (snd (tool_write_file w path content)).
Proof.
  unfold tool_write_file.
  destruct (resolve path) as [p | e]; simpl; [| quiet_step].
  destruct (os_makedirs (os w) (dirname p)) as [o1 [e1 |]]; simpl; [quiet_step |].
  destruct (os_write o1 p _) as [o2 [e2 |]]; simpl; [quiet_step |].
  destruct content; simpl; quiet_step.
Qed.

Lemma tool_edit_file_quiet (w : World) (path old_string new_string : json) :
  quiet w (snd (tool_edit_file w path old_string new_string)).
Proof.
  unfold tool_edit_file.
  destruct (resolve path) as [p | e]; simpl; [| quiet_step].
  destruct (os_read (os w) p) as [content | e]; simpl; [| quiet_step].
  destruct old_string as [| | | | old | |]; simpl; try quiet_step.
  destruct (negb (str_in old content)); simpl; [quiet_step |].
  destruct (1 <? str_count content old); simpl; [quiet_step |].
  destruct new_string as [| | | | new | |]; simpl; try quiet_step.
  destruct (os_write (os w) p _) as [o1 [e1 |]]; simpl; quiet_step.
Qed.

Lemma tool_bash_quiet (w : World) (command : json) :
  quiet w (snd (tool_bash w command)).
Proof.
  unfold tool_bash.
  destruct command as [| | | | c | |]; simpl; try quiet_step.
  destruct (is_dangerous c); simpl; [quiet_step |].
  destruct (os_shell (os w) c get_project_root) as [o1 [done | e]]; simpl; quiet_step.
Qed.

Lemma tool_grep_search_quiet (w : World) (pattern path file_pattern : json) :
  quiet w (snd (tool_grep_search w pattern path file_pattern)).
Proof.
  unfold tool_grep_search.
  destruct (search_root path) as [sp0 | e]; simpl; [| quiet_step].
  destruct (if truthy file_pattern then file_pattern else JStr (T "*"))
    as [| | | | fp | |]; simpl; try quiet_step.
  destruct pattern as [| | | | pat | |]; simpl; try quiet_step.
  match goal with
  | |- context [os_spawn ?o ?c] => destruct (os_spawn o c) as [o1 [done | e]]
  end; simpl.
  - destruct (proc_stdout done); simpl; quiet_step.
  - quiet_step.
Qed.

Lemma bind_quiet {A B : Type} (r : result A) (k : A -> result B * World) (w : World) :
  (forall a, quiet w (snd (k a))) -> quiet w (snd (bind r k w)).
Proof. intros Hk. destruct r; simpl; [apply Hk | apply quiet_refl]. Qed.

Lemma execute_tool_quiet (w : World) (name arguments : json) :
  quiet w (snd (execute_tool w name arguments)).
Proof.
  unfold execute_tool.
  destruct name as [| b | z | l | n | l | d]; simpl; try apply quiet_refl.
  destruct (negb (registered n)); simpl; [apply quiet_refl |].
  repeat match goal with
         | |- quiet _ (snd (if ?c then _ else _)) => destruct c
         end;
    repeat (apply bind_quiet; intros); simpl; try apply quiet_refl.
  - pose proof (tool_write_file_quiet w a a0) as Q0.
    destruct (tool_write_file w a a0); exact Q0.
  - pose proof (tool_edit_file_quiet w a a0 a1) as Q0.
    destruct (tool_edit_file w a a0 a1); exact Q0.
  - apply tool_bash_quiet.
  - pose proof (tool_grep_search_quiet w a a0 a1) as Q0.
    destruct (tool_grep_search w a a0 a1); exact Q0.
Qed.

Lemma dispatch_all_quiet (tool_calls : list json) :
  forall (tool_results : list text) (all_messages : list json) (w : World),
    quiet w (snd (dispatch_all tool_calls tool_results all_messages w)).
Proof.
  induction tool_calls as [| tool_call rest IH]; intros; simpl; [apply quiet_refl |].
  destruct (py_get tool_call (T "name") (JStr [])) as [tool_name | e]; simpl;
    [| apply quiet_refl].
  destruct (py_get tool_call (T "arguments") (JObj [])) as [tool_args | e]; simpl;
    [| apply quiet_refl].
  pose proof (execute_tool_quiet w tool_name tool_args) as Q0.
  destruct (execute_tool w tool_name tool_args) as [[tool_result | e] w1]; simpl in *.
  - eapply quiet_trans; [exact Q0 | apply IH].
  - exact Q0.
Qed.

(** One call of [chat_with_ollama] is one request. *)
Lemma chat_with_ollama_posts (w : World) (messages : list json) (model : text) :
  exists e, extends w (snd (chat_with_ollama w messages model)) [e] /\ is_post e = true.
Proof.
  unfold chat_with_ollama.
  destruct (http_post (os w) chat_url _) as [o1 [resp | e]]; simpl.
  - destruct (negb (status_code resp =? 200)%Z); simpl; eexists; split;
      try apply extends_emit; reflexivity.
  - eexists; split; [apply extends_emit | reflexivity].
Qed.

Lemma agent_loop_posts (n : nat) :
  forall (model : text) (messages all_messages : list json) (w : World),
  exists evs,
    extends w (snd (agent_loop n model messages all_messages w)) evs /\
    posts evs <= n.
Proof.
  induction n as [| n IH]; intros mdl messages all_messages w; cbn [agent_loop].
  - exists []. split; [apply extends_refl | reflexivity].
  - destruct (chat_with_ollama_posts w messages mdl) as [e [He Pe]].
    destruct (chat_with_ollama w messages mdl) as [[resp | ex] w1]; cbn [snd] in *.
    2:{ exists [e]. split; [exact He |]. unfold posts; simpl; rewrite Pe; simpl; lia. }
    assert (Hone : posts [e] = 1) by (unfold posts; simpl; now rewrite Pe).
    assert (Stop : exists evs, extends w w1 evs /\ posts evs <= S n)
      by (exists [e]; split; [exact He | lia]).
    destruct (py_get resp (T "message") (JObj [])) as [msg | ex]; cbn [snd];
      [| exact Stop].
    destruct (py_get msg (T "content") (JStr [])) as [content | ex]; cbn [snd];
      [| exact Stop].
    destruct content as [| b | z | l | c | l | d]; cbn [snd]; try exact Stop.
    destruct (parse_tool_calls_from_text c) as [[| call calls] | ex]; cbn [snd];
      [exact Stop | | exact Stop].
    pose proof (dispatch_all_quiet (call :: calls) [] (all_messages ++ [msg]) w1) as Q0.
    destruct (dispatch_all (call :: calls) [] (all_messages ++ [msg]) w1)
      as [[[tool_results all_messages'] | ex] w2]; cbn [snd] in *.
    + destruct Q0 as [q [Hq Pq]].
      destruct (IH mdl
                  ((messages ++ [message (T "assistant") c]) ++
                   [results_message tool_results]) all_messages' w2)
        as [evs [Hevs Pevs]].
      exists (([e] ++ q) ++ evs). split.
      * eapply extends_trans; [eapply extends_trans; eassumption | exact Hevs].
      * rewrite !posts_app. lia.
    + destruct Q0 as [q [Hq Pq]]. exists ([e] ++ q). split.
      * eapply extends_trans; eassumption.
      * rewrite posts_app. lia.
Qed.

End LoopFacts.

(** C1.  Whatever the host does and whatever the model answers, a run of
    [run_agent_loop] ends, and the requests it sends to the chat
    endpoint, one for each call of [chat_with_ollama], number at most
    [max_iterations]. *)
Theorem run_agent_loop_bounded `{Host} (w : World) (prompt model : text)
        (max_iterations : Z) :
  exists evs,
    extends w (snd (run_agent_loop w prompt model max_iterations)) evs /\
    (Z.of_nat (posts evs) <= Z.max 0 max_iterations)%Z.
Proof.
  unfold run_agent_loop, run_tagged.
  destruct (agent_loop_posts (Z.to_nat max_iterations) model
              (initial_messages prompt) [] w) as [evs [He Pe]].
  destruct (agent_loop _ _ _ _ _) as [r w']; simpl in *.
  exists evs. split; [exact He | lia].
Qed.

(* ================================================================== *)
(** * Properties of the tool executors *)

Section ToolFacts.
Context `{Host}.


Lemma registered_iff (name : text) : registered name = true <-> In name tool_names.
Proof.
  unfold registered. rewrite existsb_exists. split.
  - intros [x [Hx E]]. apply text_eqb_eq in E. now subst.
  - intros Hin. exists name. split; [exact Hin | apply text_eqb_refl].
Qed.

Lemma is_dangerous_iff (command : text) :
  is_dangerous command = true <->
  exists pattern, In pattern dangerous_patterns /\ re_search pattern command = true.
Proof. unfold is_dangerous. apply existsb_exists. Qed.


End ToolFacts.

(** Occurrences that overlap are counted once, as [str.count] does. *)
Remark overlapping_occurrences : str_count (T "aaa") (T "aa") = 1.
Proof. reflexivity. Qed.

(** C5, as the code has it.  [tool_edit_file] on a file that can be
    read, with occurrences counted the way [str.count] counts them: from
    the left, and not overlapping.  If the old string is counted more
    than once (two occurrences that do not overlap are enough) the
    result is the error that reports the count and nothing is written; if it does not occur the result is the not-found error
    and nothing is written; with exactly one occurrence the file is
    written with the replaced content, and only then can the edit
    succeed. *)
Theorem tool_edit_file_unique `{Host} (w : World) (path old new content : text) :
  let p := if isabs path then path else path_join get_project_root path in
  let run := tool_edit_file w (JStr path) (JStr old) (JStr new) in
  os_read (os w) p = Returned content ->
  (1 < str_count content old \/
   (old <> [] /\ exists a b c, content = a ++ old ++ b ++ old ++ c) ->
   1 < str_count content old /\
   run = (T "Error: String appears " ++ str_of_nat (str_count content old) ++
          T " times in " ++ p ++ T ". Provide more context for unique match.", w)) /\
  (str_in old content = false ->
   run = (T "Error: String not found in " ++ p, w)) /\
  (str_count content old = 1 ->
   exists o r,
     os_write (os w) p (str_replace content old new) = (o, r) /\
     snd run = emit w o (EvWrite p (str_replace content old new)) /\
     (r = None -> fst run = T "Successfully edited " ++ p)) /\
  (forall w', run = (T "Successfully edited " ++ p, w') -> str_count content old = 1).
Proof.
  intros p run Hread.
  assert (Hrun : run =
    if negb (str_in old content) then (T "Error: String not found in " ++ p, w)
    else if 1 <? str_count content old then
      (T "Error: String appears " ++ str_of_nat (str_count content old) ++
       T " times in " ++ p ++ T ". Provide more context for unique match.", w)
    else
      let (o1, r1) := os_write (os w) p (str_replace content old new) in
      match r1 with
      | None => (T "Successfully edited " ++ p,
                 emit w o1 (EvWrite p (str_replace content old new)))
      | Some e => (if is_class FileNotFoundError e
                   then T "Error: File not found: " ++ p
                   else T "Error editing file: " ++ exn_str e,
                   emit w o1 (EvWrite p (str_replace content old new)))
      end).
  { subst run. unfold tool_edit_file. cbn [resolve]. fold p. rewrite Hread.
    reflexivity. }
  clearbody run. subst run.
  pose proof (str_in_count content old) as Hin.
  repeat split.
  - destruct H0 as [Hc | [Hne [a [b [c Hc]]]]]; [exact Hc |].
    subst content. pose proof (str_count_two a b c Hne). lia.
  - assert (Hc : 1 < str_count content old).
    { destruct H0 as [Hc | [Hne [a [b [c Hc]]]]]; [exact Hc |].
      subst content. pose proof (str_count_two a b c Hne). lia. }
    assert (E : str_in old content = true) by (apply Hin; lia).
    rewrite E. cbn [negb]. apply Nat.ltb_lt in Hc. now rewrite Hc.
  - intros E. now rewrite E.
  - intros Hone.
    assert (E : str_in old content = true) by (apply Hin; lia).
    rewrite E, Hone. cbn [negb Nat.ltb Nat.leb].
    destruct (os_write (os w) p (str_replace content old new)) as [o1 r1].
    exists o1, r1. repeat split.
    + now destruct r1.
    + intros ->. reflexivity.
  - intros w' E. clear Hin.
    destruct (str_in old content) eqn:Ein; cbn [negb] in E.
    2:{ apply (f_equal (fun x => hd 0%N (fst x))) in E. vm_compute in E. discriminate. }
    destruct (1 <? str_count content old) eqn:Ec.
    1:{ apply (f_equal (fun x => hd 0%N (fst x))) in E. vm_compute in E. discriminate. }
    apply Nat.ltb_ge in Ec. apply str_in_count in Ein. lia.
Qed.

(** A file in which the old string stands twice is left as it is. *)
Lemma tool_edit_file_unique_witness :
  let w := boot [(T "/repo/notes.txt", T "one two one")] [] in
  @os_read scripted (@os scripted w) (T "/repo/notes.txt") = Returned (T "one two one") /\
  str_count (T "one two one") (T "one") = 2 /\
  @tool_edit_file scripted w (JStr (T "notes.txt")) (JStr (T "one")) (JStr (T "1")) =
    (T "Error: String appears 2 times in /repo/notes.txt. Provide more context for unique match.",
     w).
Proof.
  intros w.
  assert (Hread : @os_read scripted (@os scripted w) (T "/repo/notes.txt")
                  = Returned (T "one two one")) by reflexivity.
  split; [exact Hread |]. split; [reflexivity |].
  pose proof (@tool_edit_file_unique scripted w (T "notes.txt") (T "one") (T "1")
                (T "one two one") Hread) as [Many _].
  destruct Many as [_ E]; [left; vm_compute; lia |].
  exact E.
Defined.

(** C5, as it is stated, fails where the occurrences overlap.  In a file
    that holds [aaa] the old string [aa] stands at two places, at the
    first and at the second character; [str.count] counts one, so the
    edit goes through and the file is changed. *)
Lemma overlapping_edit_goes_through :
  let w := boot [(T "/repo/notes.txt", T "aaa")] [] in
  starts_with (T "aa") (T "aaa") = true /\
  starts_with (T "aa") (skipn 1 (T "aaa")) = true /\
  let (t, w') :=
    @tool_edit_file scripted w (JStr (T "notes.txt")) (JStr (T "aa")) (JStr (T "b")) in
  t = T "Successfully edited /repo/notes.txt" /\
  @os_read scripted (@os scripted w') (T "/repo/notes.txt") = Returned (T "ba").
Proof. vm_compute. repeat split; reflexivity. Qed.





(** ** Dispatch *)

(** C7, as the code has it.  For a name that is not one of the six
    registered names, [execute_tool] raises no error of its own.  When
    the name is a string, or another value that can be hashed ([None], a
    bool, a number), the call returns the text that says the tool is
    unknown, with [str(name)] in it, as an ordinary result: nothing is
    raised.  When the name is a list or a dict, the test
    [name not in tool_functions] cannot hash it and raises [TypeError].
    In both cases no executor is run and the world stays as it was. *)
Theorem execute_tool_unknown `{Host} (w : World) (name arguments : json) :
  (forall n, name = JStr n -> ~ In n tool_names) ->
  execute_tool w name arguments =
    (match name with
     | JArr _ | JObj _ => Raised (mkExn TypeError (wrong_type (T "hash") name))
     | _ => Returned (T "Error: Unknown tool '" ++ py_str name ++ T "'")
     end, w).
Proof.
  intros Hn. unfold execute_tool.
  destruct name as [| b | z | l | n | l | d]; try reflexivity.
  destruct (registered n) eqn:E; [| reflexivity].
  apply registered_iff in E. now destruct (Hn n eq_refl).
Qed.

Lemma execute_tool_unknown_witness :
  (forall n, JStr (T "frobnicate") = JStr n -> ~ In n tool_names) /\
  @execute_tool scripted (boot [] []) (JStr (T "frobnicate")) (JObj []) =
    (Returned (T "Error: Unknown tool 'frobnicate'"), boot [] []) /\
  @execute_tool scripted (boot [] []) (JArr [JStr (T "bash")]) (JObj []) =
    (Raised (mkExn TypeError (T "bad operand for hash")), boot [] []).
Proof.
  assert (Hn : forall n, JStr (T "frobnicate") = JStr n -> ~ In n tool_names).
  { intros n E Hin. injection E as <-. apply registered_iff in Hin.
    vm_compute in Hin. discriminate. }
  split; [exact Hn |]. split.
  - exact (@execute_tool_unknown scripted (boot [] []) (JStr (T "frobnicate")) (JObj []) Hn).
  - apply (@execute_tool_unknown scripted (boot [] []) (JArr [JStr (T "bash")]) (JObj [])).
    intros n E. discriminate E.
Defined.

(** C7, as it is stated, fails: a name outside the registered set does
    not make the dispatch fail with an error of its own; the call
    returns. *)
Lemma execute_tool_unknown_returns :
  ~ In (T "frobnicate") tool_names /\
  ~ (exists e, fst (@execute_tool scripted (boot [] []) (JStr (T "frobnicate")) (JObj []))
               = Raised e).
Proof.
  split.
  - intros Hin. apply registered_iff in Hin. vm_compute in Hin. discriminate.
  - intros [e He]. vm_compute in He. discriminate.
Qed.

(** C4 at the input where the code departs from it: [read_file] without
    its [path] argument.  The lookup in the lambda raises [KeyError]
    before the executor and its [try] are reached; the exception leaves
    [execute_tool] whatever the host is, leaves [run_agent_loop] when the
    model asks for such a call, and the entry point reports a failed run
    without having written the transcript. *)
Theorem execute_tool_missing_argument :
  (forall (H : Host) (w : World),
     execute_tool w (JStr (T "read_file")) (JObj []) =
       (Raised (mkExn KeyError (T "'path'")), w)) /\
  (let turn := fenced (call_text (T "read_file") []) in
   parse_tool_calls_from_text (H := scripted) turn =
     Returned [call_value (T "read_file") []] /\
   fst (@run_agent_loop scripted (boot [] [turn; T "done"]) (T "read it") (T "m") 20) =
     Raised (mkExn KeyError (T "'path'")) /\
   let request := mkRequest (T "read it") (T "a1") (T "ops") (T "sonnet")
                    (T "/repo/agents/a1/ops/raw_output.jsonl") in
   let (r, w') := @prompt_local_agent scripted (boot [] [turn; T "done"]) request in
   r = Returned (mkPromptResponse (T "Error executing local agent: 'path'") false None) /\
   filter is_write (@trace scripted w') = []).
Proof.
  split.
  - intros H w. reflexivity.
  - vm_compute. repeat split; reflexivity.
Qed.

(* ================================================================== *)
(** * Outcomes of a run *)

Section RunFacts.
Context `{Host}.

Lemma transcript_app (a b : list json) :
  transcript a -> transcript b -> transcript (a ++ b).
Proof.
  induction 1 as [| msg content calls rs rest Hc Hp Hl Ha IH]; intros Hb; [exact Hb |].
  cbn [app]. rewrite <- app_assoc. apply (transcript_turn Hc Hp); auto.
Qed.

Lemma tool_messages_snoc (calls : list json) (rs : list text) (call : json) (r : text) :
  length rs = length calls ->
  tool_messages (calls ++ [call]) (rs ++ [r]) =
  tool_messages calls rs ++ [tool_message (call_name call) r].
Proof.
  revert rs. induction calls as [| c calls IH]; intros [| x rs] Hl;
    simpl in Hl; try discriminate; [reflexivity |].
  cbn [app tool_messages]. f_equal. apply IH. lia.
Qed.

(** The inner loop adds one tool message for each call, in order. *)
Lemma dispatch_all_records (tool_calls : list json) :
  forall (tool_results : list text) (all_messages : list json) (w : World)
         (tool_results' : list text) (all_messages' : list json) (w' : World),
    dispatch_all tool_calls tool_results all_messages w =
      (Returned (tool_results', all_messages'), w') ->
    exists rs,
      length rs = length tool_calls /\
      all_messages' = all_messages ++ tool_messages tool_calls rs.
Proof.
  induction tool_calls as [| tool_call rest IH]; intros results msgs w results' msgs' w' E;
    cbn [dispatch_all] in E.
  - injection E as <- <- <-. exists []. split; [reflexivity |].
    now rewrite app_nil_r.
  - destruct (py_get tool_call (T "name") (JStr [])) as [tool_name | e] eqn:En;
      [| discriminate].
    destruct (py_get tool_call (T "arguments") (JObj [])) as [tool_args | e];
      [| discriminate].
    destruct (execute_tool w tool_name tool_args) as [[tool_result | e] w1];
      [| discriminate].
    apply IH in E as [rs [Hl ->]].
    exists (tool_result :: rs). split; [simpl; lia |].
    rewrite <- app_assoc. cbn [app tool_messages]. repeat f_equal.
    unfold py_get in En. destruct tool_call; try discriminate.
    injection En as <-. reflexivity.
Qed.

Lemma agent_loop_outcome (n : nat) :
  forall (mdl : text) (messages all0 : list json) (w : World)
         (tag : terminal) (final : text) (msgs : list json) (w' : World),
    agent_loop n mdl messages all0 w = (Returned (tag, final, msgs), w') ->
    exists evs recorded,
      extends w w' evs /\
      msgs = all0 ++ recorded /\
      transcript recorded /\
      outcome_of n evs tag final msgs.
Proof.
  induction n as [| n IH]; intros mdl messages all0 w tag final msgs w' E;
    cbn [agent_loop] in E.
  - injection E as <- <- <- <-. exists [], []. repeat split.
    + apply extends_refl.
    + now rewrite app_nil_r.
    + constructor.
  - destruct (chat_with_ollama_posts w messages mdl) as [e [He Pe]].
    assert (Hone : posts [e] = 1) by (unfold posts; simpl; now rewrite Pe).
    destruct (chat_with_ollama w messages mdl) as [[resp | ex] w1]; cbn [snd] in *.
    2:{ injection E as <- <- <- <-. exists [e], []. repeat split.
        - exact He.
        - now rewrite app_nil_r.
        - constructor.
        - now exists ex.
        - lia.
        - lia. }
    destruct (py_get resp (T "message") (JObj [])) as [msg | ex]; [| discriminate].
    destruct (py_get msg (T "content") (JStr [])) as [content | ex] eqn:Ec;
      [| discriminate].
    destruct content as [| b | z | l | c | l | d]; try discriminate.
    destruct (parse_tool_calls_from_text c) as [[| call calls] | ex] eqn:Ep;
      [| | discriminate].
    + injection E as <- <- <- <-. exists [e], [msg]. repeat split.
      * exact He.
      * apply (@transcript_turn _ msg c [] [] []);
          [exact Ec | exact Ep | reflexivity | constructor].
      * exists all0, msg. repeat split; assumption.
    + pose proof (dispatch_all_quiet (call :: calls) [] (all0 ++ [msg]) w1) as Q0.
      destruct (dispatch_all (call :: calls) [] (all0 ++ [msg]) w1)
        as [[[tool_results all1] | ex] w2] eqn:Ed; [| discriminate].
      cbn [snd] in Q0. destruct Q0 as [q [Hq Pq]].
      apply dispatch_all_records in Ed as [rs [Hl ->]].
      apply IH in E as [evs [recorded [Hevs [-> [Htr Hout]]]]].
      exists (([e] ++ q) ++ evs),
             (msg :: tool_messages (call :: calls) rs ++ recorded).
      repeat split.
      * eapply extends_trans; [eapply extends_trans; eassumption | exact Hevs].
      * rewrite <- !app_assoc. reflexivity.
      * apply (transcript_turn Ec Ep); [exact Hl | exact Htr].
      * destruct tag; cbn [outcome_of] in *.
        -- exact Hout.
        -- destruct Hout as [-> Hp]. split; [reflexivity |].
           rewrite !posts_app. lia.
        -- destruct Hout as [Hex Hp]. split; [exact Hex |].
           rewrite !posts_app. lia.
Qed.

(** What [save_output] writes when nothing fails. *)
Lemma save_output_writes (w w' : World) (messages : list json) (out : text) :
  save_output w messages out = (Returned tt, w') ->
  exists dirs,
    extends w w'
      (dirs ++ [EvWrite out (jsonl_text messages);
                EvWrite (json_file_of out) (json_text messages)]) /\
    filter is_write dirs = [] /\ posts dirs = 0.
Proof.
  unfold save_output. intros E.
  destruct (dirname out) as [| c d'].
  - destruct (os_write (os w) out (jsonl_text messages)) as [o1 [x |]]; [discriminate |].
    match type of E with
    | context [os_write ?o ?p ?c] => destruct (os_write o p c) as [o2 [x |]]
    end; [discriminate |].
    injection E as <-. exists []. repeat split.
    unfold extends, emit. cbn [trace app]. now rewrite <- app_assoc.
  - destruct (os_makedirs (os w) (c :: d')) as [o [x |]]; [discriminate |].
    match type of E with
    | context [os_write ?o ?p ?c] => destruct (os_write o p c) as [o1 [x |]]
    end; [discriminate |].
    match type of E with
    | context [os_write ?o ?p ?c] => destruct (os_write o p c) as [o2 [x |]]
    end; [discriminate |].
    injection E as <-. exists [EvMakedirs (c :: d')]. repeat split.
    unfold extends, emit. cbn [trace app]. now rewrite <- !app_assoc.
Qed.

End RunFacts.

(** C2, as the code has it.  A run that returns does so in one of three
    ways, and in each of them with the same kind of value, a pair of a
    text and the recorded messages: after a turn without tool calls the
    text is the content of that turn's message, the last one recorded;
    when the iterations run out the text is empty, whatever the model
    said, and exactly [max_iterations] requests were sent; when the chat
    call raises the text is the error text, built from the exception.
    The entry point turns all three into a response that reports
    success. *)
Theorem run_outcomes `{Host} (w w' : World) (task model : text) (max_iterations : Z)
        (tag : terminal) (final : text) (msgs : list json) :
  run_tagged w task model max_iterations = (Returned (tag, final, msgs), w') ->
  run_agent_loop w task model max_iterations = (Returned (final, msgs), w') /\
  (exists evs,
     extends w w' evs /\
     match tag with
     | Done =>
         exists before msg,
           msgs = before ++ [msg] /\
           py_get msg (T "content") (JStr []) = Returned (JStr final) /\
           parse_tool_calls_from_text final = Returned []
     | Truncated => final = [] /\ posts evs = Z.to_nat max_iterations
     | Fatal =>
         (exists e, final = T "Error in agent loop: " ++ exn_str e) /\
         1 <= posts evs <= Z.to_nat max_iterations
     end) /\
  (forall (request : AgentPromptRequest) (w2 : World),
     prompt request = task -> max_iterations = 20%Z ->
     save_output w' msgs (output_file request) = (Returned tt, w2) ->
     run_and_record w request model =
       (mkPromptResponse final true (Some (adw_id request)), w2)).
Proof.
  intros E. split; [| split].
  - unfold run_agent_loop. now rewrite E.
  - unfold run_tagged in E.
    apply agent_loop_outcome in E as [evs [recorded [He [_ [_ Hout]]]]].
    exists evs. split; [exact He |]. destruct tag; exact Hout.
  - intros request w2 <- -> Hs. unfold run_and_record, run_agent_loop.
    rewrite E, Hs. reflexivity.
Qed.

(** A run of one iteration in which the model asks for a file: it is cut
    off with the empty text after one request. *)
Lemma run_outcomes_witness :
  let turn := fenced (call_text (T "read_file") [(T "path", T "README.md")]) in
  let run := @run_tagged scripted (boot [] [turn]) (T "hi") (T "m") 1 in
  run = (Returned (Truncated, [], recorded_by (fst run)), snd run) /\
  @run_agent_loop scripted (boot [] [turn]) (T "hi") (T "m") 1 =
    (Returned ([], recorded_by (fst run)), snd run) /\
  exists evs, @trace scripted (snd run) = evs /\ posts evs = 1.
Proof.
  intros turn run.
  assert (Hrun : run = (Returned (Truncated, [], recorded_by (fst run)), snd run))
    by (vm_compute; reflexivity).
  split; [exact Hrun |].
  destruct (@run_outcomes scripted _ _ _ _ _ _ _ _ Hrun) as [Hloop [[evs [He [_ Hp]]] _]].
  split; [exact Hloop |].
  exists evs. split; [exact He | exact Hp].
Defined.

(** C2, as it is stated, fails.  A run cut off at the cap returns the
    empty text although the model's last message had a content; and the
    caller of the entry point gets the same response from a cut-off run
    and a finished run with an empty answer, and the same from a run
    whose chat call failed and a finished run that answered with the
    text of that failure. *)
Lemma outcomes_not_told_apart :
  let turn := fenced (call_text (T "read_file") [(T "path", T "README.md")]) in
  let request := mkRequest (T "hi") (T "a1") (T "ops") (T "sonnet")
                   (T "/repo/agents/a1/ops/raw_output.jsonl") in
  let answered (replies : list text) :=
    fst (@prompt_local_agent scripted (boot [] replies) request) in
  let tag (replies : list text) :=
    tag_of (fst (@run_tagged scripted (boot [] replies) (T "hi") (T "deepseek-r1:8b") 20)) in
  (* the cap *)
  (fst (@run_agent_loop scripted (boot [] [turn]) (T "hi") (T "m") 1) =
     Returned ([], [message (T "assistant") turn;
                    tool_message (JStr (T "read_file"))
                      (T "Error: File not found: /repo/README.md")]) /\
   turn <> []) /\
  (* cut off or finished *)
  (tag (repeat turn 20) = Some Truncated /\ tag [[]] = Some Done /\
   answered (repeat turn 20) = answered [[]]) /\
  (* failed or finished *)
  (tag [] = Some Fatal /\
   tag [T "Error in agent loop: Connection refused"] = Some Done /\
   answered [] = answered [T "Error in agent loop: Connection refused"] /\
   answered [] =
     Returned (mkPromptResponse (T "Error in agent loop: Connection refused") true
                 (Some (T "a1")))).
Proof.
  intros turn request answered tag.
  split; [split; [vm_compute; reflexivity | discriminate] |].
  split; repeat split; vm_compute; reflexivity.
Qed.

(* ================================================================== *)
(** * Properties of the transcript recorder *)

Lemma starts_with_length (p s : text) : starts_with p s = true -> length p <= length s.
Proof.
  intros E. destruct (starts_with_split E) as [r ->]. rewrite length_app. lia.
Qed.

(** Each replaced occurrence changes the length by the difference of the
    two strings. *)
Lemma replace_scan_length (old new s : text) (k : nat) :
  1 <= length old ->
  length (replace_scan old new s k) + Nat.min k (length s) +
  count_scan old s k * length old =
  length s + count_scan old s k * length new.
Proof.
  intros Hold. revert k. induction s as [| c s IH]; intros k.
  - simpl. lia.
  - destruct k as [| k].
    + cbn [replace_scan count_scan].
      destruct (starts_with old (c :: s)) eqn:E.
      * apply starts_with_length in E. cbn [length] in E.
        specialize (IH (length old - 1)). rewrite length_app. cbn [length].
        rewrite Nat.min_l in IH by lia. cbn [Nat.min]. lia.
      * specialize (IH 0). cbn [length Nat.min] in *. lia.
    + cbn [replace_scan count_scan length Nat.min]. specialize (IH k). lia.
Qed.

(** A path that contains [.jsonl] is not the path of its own JSON file. *)
Lemma json_file_differs (out : text) :
  str_in (T ".jsonl") out = true -> json_file_of out <> out.
Proof.
  intros Hin E. apply str_in_count in Hin.
  pose proof (@replace_scan_length (T ".jsonl") (T ".json") out 0) as L.
  specialize (L ltac:(vm_compute; lia)).
  unfold json_file_of in E.
  change (str_replace out (T ".jsonl") (T ".json"))
    with (replace_scan (T ".jsonl") (T ".json") out 0) in E.
  change (str_count out (T ".jsonl")) with (count_scan (T ".jsonl") out 0) in Hin.
  rewrite E in L. change (length (T ".jsonl")) with 6 in L.
  change (length (T ".json")) with 5 in L. cbn [Nat.min] in L. lia.
Qed.




(* ================================================================== *)
(** * Facts about the matcher *)

Lemma lacks_app (c : char) (a b : text) :
  lacks c (a ++ b) = true <-> lacks c a = true /\ lacks c b = true.
Proof. unfold lacks. rewrite forallb_app. apply andb_true_iff. Qed.

Lemma lacks_cons (c x : char) (s : text) :
  lacks c (x :: s) = true <-> x <> c /\ lacks c s = true.
Proof.
  unfold lacks. cbn [forallb]. rewrite andb_true_iff, negb_true_iff.
  split; intros [A B]; split; auto.
  - intros ->. now rewrite char_eqb_refl in A.
  - destruct (char_eqb x c) eqn:E; [| reflexivity]. apply char_eqb_eq in E. contradiction.
Qed.

Section Matcher.

Lemma re_exec_lit (l : text) (r : regex) (s : text) (g : groups) :
  re_exec (lit l ++ r) (l ++ s) g = re_exec r s g.
Proof.
  induction l as [| c l IH]; [reflexivity |].
  cbn [lit map app re_exec]. rewrite char_eqb_refl. exact IH.
Qed.

(** A pattern that begins with a literal character fails on an input
    that begins with another one, and on the empty input. *)
Lemma re_exec_lit_miss (c : char) (l : text) (r : regex) (s : text) (g : groups) :
  match s with
  | [] => True
  | x :: _ => x <> c
  end ->
  re_exec (lit (c :: l) ++ r) s g = None.
Proof.
  destruct s as [| x s]; cbn [lit map app re_exec]; [reflexivity |].
  intros Hx. destruct (char_eqb c x) eqn:E; [| reflexivity].
  apply char_eqb_eq in E. congruence.
Qed.

Lemma re_exec_open (r : regex) (s : text) (g : groups) :
  re_exec (GOpen :: r) s g = re_exec r s (mkGroups (Some s) (g_close g)).
Proof. reflexivity. Qed.

Lemma re_exec_close (r : regex) (s : text) (g : groups) :
  re_exec (GClose :: r) s g = re_exec r s (mkGroups (g_open g) (Some s)).
Proof. reflexivity. Qed.

Lemma re_exec_opt_skip (p : char -> bool) (r : regex) (s : text) (g : groups) :
  match s with [] => True | c :: _ => p c = false end ->
  re_exec (Opt p :: r) s g = re_exec r s g.
Proof. destruct s as [| c s]; [reflexivity |]. cbn [re_exec]. now intros ->. Qed.

Lemma re_exec_opt_take (p : char -> bool) (r : regex) (c : char) (s : text) (g : groups)
      (m : text * groups) :
  p c = true -> re_exec r s g = Some m -> re_exec (Opt p :: r) (c :: s) g = Some m.
Proof. intros Hc Hm. cbn [re_exec]. now rewrite Hc, Hm. Qed.

Lemma re_exec_opt_none (p : char -> bool) (r : regex) (s : text) (g : groups) :
  re_exec r s g = None ->
  match s with [] => True | c :: s' => p c = true -> re_exec r s' g = None end ->
  re_exec (Opt p :: r) s g = None.
Proof.
  intros Hskip Htake. destruct s as [| c s]; [exact Hskip |].
  cbn [re_exec]. destruct (p c); [| exact Hskip]. now rewrite Htake.
Qed.

Lemma re_exec_word (l s : text) (g : groups) : re_exec (lit l) (l ++ s) g = Some (s, g).
Proof. rewrite <- (app_nil_r (lit l)). now rewrite re_exec_lit. Qed.

Lemma re_exec_word_miss (c : char) (l s : text) (g : groups) :
  match s with
  | [] => True
  | x :: _ => x <> c
  end ->
  re_exec (lit (c :: l)) s g = None.
Proof. rewrite <- (app_nil_r (lit (c :: l))). apply re_exec_lit_miss. Qed.

Lemma findall_scan_skip (r : regex) (u v : text) :
  findall_scan r (u ++ v) (length u) = findall_scan r v 0.
Proof. induction u as [| c u IH]; [reflexivity | exact IH]. Qed.

Lemma re_findall_miss (r : regex) (c : char) (s : text) :
  re_exec r (c :: s) no_groups = None -> re_findall r (c :: s) = re_findall r s.
Proof. unfold re_findall. cbn [findall_scan]. now intros ->. Qed.

(** A match that is not empty is reported and the search goes on behind
    it. *)
Lemma re_findall_hit (r : regex) (m rest : text) (g : groups) :
  m <> [] ->
  re_exec r (m ++ rest) no_groups = Some (rest, g) ->
  re_findall r (m ++ rest) = reported (m ++ rest) rest g :: re_findall r rest.
Proof.
  intros Hm E. destruct m as [| c m]; [congruence |].
  unfold re_findall. cbn [app findall_scan]. cbn [app] in E. rewrite E.
  f_equal.
  replace (length (c :: m ++ rest) - length rest - 1) with (length m)
    by (cbn [length]; rewrite length_app; lia).
  apply findall_scan_skip.
Qed.

(** No match begins where the first character of the pattern does not
    occur. *)
Lemma re_findall_lacks (c : char) (l : text) (r : regex) (s : text) :
  lacks c s = true -> re_findall (lit (c :: l) ++ r) s = [].
Proof.
  induction s as [| x s IH]; intros Hs.
  - unfold re_findall. cbn [findall_scan]. now rewrite re_exec_lit_miss.
  - apply lacks_cons in Hs as [Hx Hs].
    rewrite re_findall_miss by now apply re_exec_lit_miss.
    now apply IH.
Qed.

Lemma re_findall_after (c : char) (l : text) (r : regex) (a s : text) :
  lacks c a = true ->
  re_findall (lit (c :: l) ++ r) (a ++ s) = re_findall (lit (c :: l) ++ r) s.
Proof.
  induction a as [| x a IH]; intros Ha; [reflexivity |].
  apply lacks_cons in Ha as [Hx Ha]. cbn [app].
  rewrite re_findall_miss by now apply re_exec_lit_miss.
  now apply IH.
Qed.

(** ** Repetition *)

(** A greedy repetition over a run of characters of its class, when what
    follows succeeds behind the whole run. *)
Lemma re_exec_star_all (p : char -> bool) (r : regex) (u s : text) (g : groups)
      (m : text * groups) :
  forallb p u = true ->
  re_exec r s g = Some m ->
  match s with [] => True | x :: _ => p x = false end ->
  re_exec (Star p :: r) (u ++ s) g = Some m.
Proof.
  intros Hu Hk Hs. induction u as [| c u IH].
  - cbn [app re_exec]. destruct s as [| x s]; [exact Hk |]. now rewrite Hs.
  - cbn [forallb] in Hu. apply andb_true_iff in Hu as [Hc Hu].
    specialize (IH Hu). cbn [app re_exec]. rewrite Hc.
    cbn [re_exec] in IH. now rewrite IH.
Qed.

(** A greedy repetition fails when what follows fails behind every part
    of the run. *)
Lemma re_exec_star_none (p : char -> bool) (r : regex) (u s : text) (g : groups) :
  forallb p u = true ->
  match s with [] => True | x :: _ => p x = false end ->
  (forall u1 u2, u = u1 ++ u2 -> re_exec r (u2 ++ s) g = None) ->
  re_exec (Star p :: r) (u ++ s) g = None.
Proof.
  intros Hu Hs Hk. induction u as [| c u IH].
  - cbn [app re_exec]. specialize (Hk [] [] eq_refl). cbn [app] in Hk.
    destruct s as [| x s]; [exact Hk |]. now rewrite Hs.
  - cbn [forallb] in Hu. apply andb_true_iff in Hu as [Hc Hu].
    cbn [app re_exec]. rewrite Hc.
    assert (IH' : re_exec (Star p :: r) (u ++ s) g = None).
    { apply IH; [exact Hu |]. intros u1 u2 E. apply (Hk (c :: u1) u2). now rewrite E. }
    cbn [re_exec] in IH'. rewrite IH'. apply (Hk [] (c :: u) eq_refl).
Qed.

(** A lazy repetition of any character goes on to the first place where
    what follows succeeds. *)
Lemma re_exec_lazy_first (r : regex) (u s : text) (g : groups) (m : text * groups) :
  (forall u1 x u2, u = u1 ++ x :: u2 -> re_exec r (x :: u2 ++ s) g = None) ->
  re_exec r s g = Some m ->
  re_exec (Lazy any_char :: r) (u ++ s) g = Some m.
Proof.
  intros Hu Hk. induction u as [| c u IH].
  - cbn [app re_exec]. destruct s; now rewrite Hk.
  - cbn [app re_exec]. rewrite (Hu [] c u eq_refl). cbn [any_char].
    assert (IH' : re_exec (Lazy any_char :: r) (u ++ s) g = Some m).
    { apply IH. intros u1 x u2 E. apply (Hu (c :: u1) x u2). now rewrite E. }
    cbn [re_exec] in IH'. exact IH'.
Qed.

End Matcher.

(* ================================================================== *)
(** * Properties of the extractor *)

Lemma between_app (u v : text) : between (u ++ v) v = u.
Proof.
  unfold between. rewrite length_app.
  replace (length u + length v - length v) with (length u) by lia.
  rewrite firstn_app, Nat.sub_diag, firstn_all. cbn [firstn]. apply app_nil_r.
Qed.

(** The head of a text that lacks [c], continued with another
    character, is not [c]. *)
Lemma head_not (c d : char) (u r : text) :
  lacks c u = true -> d <> c ->
  match u ++ d :: r with [] => True | x :: _ => x <> c end.
Proof.
  intros Hu Hd. destruct u as [| x u]; [exact Hd |].
  now apply lacks_cons in Hu as [Hx _].
Qed.

Lemma is_space_not (c x : char) : is_space c = false -> is_space x = true -> x <> c.
Proof. intros Hc Hx ->. congruence. Qed.

(** A text that ends with a visible character is a run of white space
    and then a visible character. *)
Lemma leading_space (t : text) (y : char) :
  is_space y = false ->
  exists ws z t', t ++ [y] = ws ++ z :: t' /\
                  forallb is_space ws = true /\ is_space z = false /\
                  In z (t ++ [y]).
Proof.
  intros Hy. induction t as [| c t IH].
  - exists [], y, []. repeat split; [exact Hy | now left].
  - destruct (is_space c) eqn:Ec.
    + destruct IH as [ws [z [t' [E [Hws [Hz Hin]]]]]].
      exists (c :: ws), z, t'. cbn [app]. rewrite E. repeat split.
      * cbn [forallb]. now rewrite Ec.
      * exact Hz.
      * right. rewrite <- E. exact Hin.
    + exists [], c, (t ++ [y]). repeat split; [exact Ec | now left].
Qed.

Lemma lacks_in (c x : char) (s : text) : lacks c s = true -> In x s -> x <> c.
Proof.
  intros Hs Hin. unfold lacks in Hs. rewrite forallb_forall in Hs.
  specialize (Hs x Hin). apply negb_true_iff in Hs. intros ->.
  now rewrite char_eqb_refl in Hs.
Qed.

(** ** Where a text does not occur *)

Lemma str_in_suffix (l u1 u2 : text) :
  str_in l (u1 ++ u2) = false -> str_in l u2 = false.
Proof.
  induction u1 as [| c u1 IH]; intros E; [exact E |].
  cbn [app str_in] in E. apply orb_false_iff in E as [_ E]. now apply IH.
Qed.

Lemma str_in_start (l s : text) : str_in l s = false -> starts_with l s = false.
Proof.
  intros E. destruct s as [| c s]; cbn [str_in] in E;
    now apply orb_false_iff in E as [E _].
Qed.

Lemma starts_with_over (l u t : text) :
  length l <= length u -> starts_with l (u ++ t) = starts_with l u.
Proof.
  revert u. induction l as [| c l IH]; intros u Hl; [now destruct u |].
  destruct u as [| x u]; [cbn [length] in Hl; lia |].
  cbn [app starts_with]. rewrite IH; [reflexivity | cbn [length] in Hl; lia].
Qed.

Lemma starts_with_short (p l s : text) :
  length p <= length l -> starts_with p (l ++ s) = true -> starts_with p l = true.
Proof. intros Hl E. now rewrite starts_with_over in E. Qed.

Lemma starts_with_skip (l u t : text) :
  starts_with l (u ++ t) = true -> starts_with (skipn (length u) l) t = true.
Proof.
  revert l. induction u as [| x u IH]; intros l E; [exact E |].
  destruct l as [| c l]; [now destruct t |].
  cbn [app starts_with] in E. apply andb_true_iff in E as [_ E].
  cbn [length skipn]. now apply IH.
Qed.

(** A text that follows with a character foreign to [l] does not help
    [l] to begin. *)
Lemma starts_with_before (c0 : char) (l u t : text) :
  lacks c0 l = true -> l <> [] ->
  starts_with l (u ++ c0 :: t) = starts_with l u.
Proof.
  intros Hl Hne. revert u. induction l as [| c l IH]; intros u; [congruence |].
  apply lacks_cons in Hl as [Hc Hl].
  destruct u as [| x u]; cbn [app starts_with].
  - destruct (char_eqb c c0) eqn:E; [apply char_eqb_eq in E; congruence | reflexivity].
  - destruct l as [| c' l'].
    + now destruct (u ++ c0 :: t), u.
    + rewrite IH; [reflexivity | exact Hl | discriminate].
Qed.

(** Behind a text in which [l] does not occur, an occurrence of [l] that
    follows is the first one to begin. *)
Lemma no_straddle (l a u1 u2 s : text) :
  border_free l = true -> str_in l a = false ->
  a = u1 ++ u2 -> u2 <> [] ->
  starts_with l (u2 ++ l ++ s) = false.
Proof.
  intros Hb Ha -> Hu.
  destruct (Nat.le_gt_cases (length l) (length u2)) as [Hlen | Hlen].
  - rewrite starts_with_over by exact Hlen.
    apply str_in_start. now apply str_in_suffix in Ha.
  - destruct (starts_with l (u2 ++ l ++ s)) eqn:E; [| reflexivity].
    apply starts_with_skip in E.
    apply starts_with_short in E; [| rewrite length_skipn; lia].
    unfold border_free in Hb. rewrite forallb_forall in Hb.
    specialize (Hb (length u2)). rewrite E in Hb.
    assert (Hin : In (length u2) (seq 1 (length l - 1))).
    { apply in_seq. destruct u2; [congruence |]. cbn [length] in *. lia. }
    specialize (Hb Hin). discriminate Hb.
Qed.

Lemma re_exec_lit_none (l : text) (r : regex) (s : text) (g : groups) :
  starts_with l s = false -> re_exec (lit l ++ r) s g = None.
Proof.
  revert s. induction l as [| c l IH]; intros s E; [discriminate E |].
  destruct s as [| x s]; cbn [lit map app re_exec]; [reflexivity |].
  cbn [starts_with] in E. destruct (char_eqb c x); [| reflexivity].
  now apply IH.
Qed.

Lemma re_exec_word_none (l s : text) (g : groups) :
  starts_with l s = false -> re_exec (lit l) s g = None.
Proof. rewrite <- (app_nil_r (lit l)). apply re_exec_lit_none. Qed.

(** No match begins where the literal at the head of the pattern does
    not occur. *)
Lemma re_findall_absent (l : text) (r : regex) (s : text) :
  str_in l s = false -> re_findall (lit l ++ r) s = [].
Proof.
  induction s as [| x s IH]; intros Hs.
  - unfold re_findall. cbn [findall_scan].
    now rewrite re_exec_lit_none by now apply str_in_start.
  - rewrite re_findall_miss by (apply re_exec_lit_none; now apply str_in_start).
    apply IH. now apply (@str_in_suffix l [x] s).
Qed.

Lemma re_findall_past (l : text) (r : regex) (a s : text) :
  (forall u1 u2, a = u1 ++ u2 -> u2 <> [] -> starts_with l (u2 ++ s) = false) ->
  re_findall (lit l ++ r) (a ++ s) = re_findall (lit l ++ r) s.
Proof.
  induction a as [| x a IH]; intros Ha; [reflexivity |].
  cbn [app]. rewrite re_findall_miss.
  - apply IH. intros u1 u2 -> Hu. now apply (Ha (x :: u1) u2).
  - apply re_exec_lit_none. apply (Ha [] (x :: a)); [reflexivity | discriminate].
Qed.

Section Conventions.
Context `{Host}.

(** The first convention.  In a text without other backquotes, the
    fenced block around [j] is the one match of the first pattern and
    [j] is its group. *)
Lemma fenced_found (a j b : text) (x : char) (j' : text) :
  j = x :: j' -> is_space x = false ->
  lacks backquote a = true -> lacks backquote j = true -> lacks backquote b = true ->
  re_findall tool_block_pattern (a ++ fenced j ++ b) = [j].
Proof.
  intros Ej Hx Ha Hj Hb.
  set (tail := [GClose; Opt newline] ++ lit (T "```")).
  assert (Hend : forall g, re_exec tail (nl ++ T "```" ++ b) g =
                           Some (b, mkGroups (g_open g) (Some (nl ++ T "```" ++ b)))).
  { intros g. unfold tail. cbn [app re_exec nl]. change (newline 10%N) with true.
    cbv iota. now rewrite re_exec_word. }
  assert (Hmid : forall g u1 y u2, j = u1 ++ y :: u2 ->
                   re_exec tail (y :: u2 ++ nl ++ T "```" ++ b) g = None).
  { intros g u1 y u2 E. unfold tail. cbn [app re_exec].
    assert (Hy : y <> backquote).
    { apply (lacks_in Hj). rewrite E. apply in_or_app. right. now left. }
    assert (Hu2 : lacks backquote u2 = true).
    { rewrite E in Hj. apply lacks_app in Hj as [_ Hj].
      now apply lacks_cons in Hj as [_ Hj]. }
    assert (Skip : re_exec (lit (T "```")) (y :: u2 ++ nl ++ T "```" ++ b)
                     (mkGroups (g_open g) (Some (y :: u2 ++ nl ++ T "```" ++ b))) = None).
    { change (T "```") with (backquote :: T "``"). now apply re_exec_word_miss. }
    destruct (newline y); [| exact Skip].
    rewrite Skip.
    change (T "```") with (backquote :: T "``") at 1.
    rewrite re_exec_word_miss; [reflexivity |].
    apply head_not; [exact Hu2 | discriminate]. }
  assert (Hexec : re_exec tool_block_pattern (fenced j ++ b) no_groups =
                  Some (b, mkGroups (Some (j ++ nl ++ T "```" ++ b))
                                    (Some (nl ++ T "```" ++ b)))).
  { unfold tool_block_pattern, fenced. rewrite <- !app_assoc.
    rewrite re_exec_lit.
    change ([10%N] ++ j ++ [10%N] ++ T "```" ++ b)
      with ([10%N] ++ (j ++ nl ++ T "```" ++ b)).
    change ([sp; Opt newline; GOpen; Lazy any_char; GClose; Opt newline] ++ lit (T "```"))
      with (Star is_space :: Opt newline :: GOpen :: Lazy any_char :: tail).
    apply (re_exec_star_all (u := [10%N])); [reflexivity | | rewrite Ej; exact Hx].
    assert (Hn : newline x = false).
    { unfold newline. destruct (char_eqb x 10) eqn:E; [| reflexivity].
      apply char_eqb_eq in E. subst x. discriminate Hx. }
    rewrite re_exec_opt_skip by (rewrite Ej; exact Hn).
    rewrite re_exec_open.
    apply (re_exec_lazy_first (r := tail)).
    - intros u1 y u2 E. now apply (Hmid _ u1).
    - apply Hend. }
  change tool_block_pattern
    with (lit (backquote :: T "``tool") ++
          [sp; Opt newline; GOpen; Lazy any_char; GClose; Opt newline] ++ lit (T "```")).
  rewrite re_findall_after by exact Ha.
  change (lit (backquote :: T "``tool") ++
          [sp; Opt newline; GOpen; Lazy any_char; GClose; Opt newline] ++ lit (T "```"))
    with tool_block_pattern.
  rewrite (re_findall_hit (g := mkGroups (Some (j ++ nl ++ T "```" ++ b))
                                        (Some (nl ++ T "```" ++ b)))).
  - unfold reported. cbn [g_open g_close].
    change (j ++ nl ++ T "```" ++ b) with (j ++ (nl ++ T "```" ++ b)).
    rewrite between_app. f_equal.
    change tool_block_pattern
      with (lit (backquote :: T "``tool") ++
            [sp; Opt newline; GOpen; Lazy any_char; GClose; Opt newline] ++ lit (T "```")).
    now apply re_findall_lacks.
  - discriminate.
  - exact Hexec.
Qed.

(** White space lacks every visible character. *)
Lemma spaces_lack (c : char) (ws : text) :
  is_space c = false -> forallb is_space ws = true -> lacks c ws = true.
Proof.
  intros Hc Hws. induction ws as [| x ws IH]; [reflexivity |].
  cbn [forallb] in Hws. apply andb_true_iff in Hws as [Hx Hws].
  apply lacks_cons. split; [now apply (is_space_not Hc) | now apply IH].
Qed.

(** A part of a text that ends with [y] and reaches its end ends with
    [y] as well. *)
Lemma suffix_last (u1 u2 j0 : text) (z y : char) :
  u1 ++ z :: u2 = j0 ++ [y] -> exists t0, z :: u2 = t0 ++ [y].
Proof.
  intros E.
  destruct (@exists_last _ (z :: u2)) as [t0 [l El]]; [discriminate |].
  rewrite El in E. rewrite app_assoc in E. apply app_inj_tail in E as [_ ->].
  now exists t0.
Qed.

(** The second convention.  In a text without other [<], the tag pair
    around [j] is the one match of the second pattern and [j] is its
    group. *)
Lemma tagged_found (a j b : text) (x y : char) (j' j0 : text) :
  j = x :: j' -> is_space x = false ->
  j = j0 ++ [y] -> is_space y = false ->
  lacks less_than a = true -> lacks less_than j = true -> lacks less_than b = true ->
  re_findall tag_pattern (a ++ tagged j ++ b) = [j].
Proof.
  intros Ej Hx Ey Hy Ha Hj Hb.
  set (close := T "</tool_call>").
  set (tail := GClose :: Star is_space :: lit close).
  assert (Hend : forall g, re_exec tail (close ++ b) g =
                           Some (b, mkGroups (g_open g) (Some (close ++ b)))).
  { intros g. unfold tail. rewrite re_exec_close.
    apply (re_exec_star_all (u := []) (s := close ++ b)); [reflexivity | | reflexivity].
    apply re_exec_word. }
  assert (Hmid : forall g u1 z u2, j = u1 ++ z :: u2 ->
                   re_exec tail (z :: u2 ++ close ++ b) g = None).
  { intros g u1 z u2 E. unfold tail. rewrite re_exec_close.
    assert (Et : exists t0, z :: u2 = t0 ++ [y])
      by (apply (@suffix_last u1 u2 j0); congruence).
    destruct Et as [t0 Et].
    destruct (@leading_space t0 y Hy) as [ws [v [t' [Ews [Hws [Hv Hin]]]]]].
    assert (Hvj : v <> less_than).
    { apply (lacks_in Hj). rewrite E. apply in_or_app. right.
      rewrite Et. exact Hin. }
    change (z :: u2 ++ close ++ b) with ((z :: u2) ++ close ++ b).
    rewrite Et, Ews, <- app_assoc. cbn [app].
    apply re_exec_star_none; [exact Hws | exact Hv |].
    intros w1 w2 Ew. unfold close at 1.
    change (T "</tool_call>") with (less_than :: T "/tool_call>") at 1.
    apply re_exec_word_miss. apply head_not; [| exact Hvj].
    apply spaces_lack; [reflexivity |].
    rewrite Ew in Hws. rewrite forallb_app in Hws.
    now apply andb_true_iff in Hws as [_ Hws]. }
  assert (Hexec : re_exec tag_pattern (tagged j ++ b) no_groups =
                  Some (b, mkGroups (Some (j ++ close ++ b)) (Some (close ++ b)))).
  { unfold tag_pattern, tagged. rewrite <- !app_assoc. rewrite re_exec_lit.
    change ([sp; GOpen; Lazy any_char; GClose; sp] ++ lit (T "</tool_call>"))
      with (Star is_space :: GOpen :: Lazy any_char :: tail).
    apply (re_exec_star_all (u := []) (s := j ++ close ++ b));
      [reflexivity | | rewrite Ej; exact Hx].
    rewrite re_exec_open.
    apply (re_exec_lazy_first (r := tail)).
    - intros u1 z u2 E. now apply (Hmid _ u1).
    - apply Hend. }
  change tag_pattern
    with (lit (less_than :: T "tool_call>") ++
          [sp; GOpen; Lazy any_char; GClose; sp] ++ lit (T "</tool_call>")).
  rewrite re_findall_after by exact Ha.
  change (lit (less_than :: T "tool_call>") ++
          [sp; GOpen; Lazy any_char; GClose; sp] ++ lit (T "</tool_call>"))
    with tag_pattern.
  rewrite (re_findall_hit (g := mkGroups (Some (j ++ close ++ b)) (Some (close ++ b)))).
  - unfold reported. cbn [g_open g_close].
    change (j ++ close ++ b) with (j ++ (close ++ b)).
    rewrite between_app. f_equal.
    change tag_pattern
      with (lit (less_than :: T "tool_call>") ++
            [sp; GOpen; Lazy any_char; GClose; sp] ++ lit (T "</tool_call>")).
    now apply re_findall_lacks.
  - discriminate.
  - exact Hexec.
Qed.

(** ** The three loops of the extractor *)

(** Stripping leaves a text that begins and ends with visible characters
    as it is. *)
Lemma str_strip_visible (j : text) (x y : char) (j' j0 : text) :
  j = x :: j' -> is_space x = false ->
  j = j0 ++ [y] -> is_space y = false ->
  str_strip j = j.
Proof.
  intros Ej Hx Ey Hy. unfold str_strip, rstrip.
  assert (L : lstrip j = j) by (rewrite Ej; cbn [lstrip]; now rewrite Hx).
  rewrite L. rewrite Ey at 1. rewrite rev_app_distr. cbn [rev app lstrip].
  rewrite Hy. change (y :: rev j0) with ([y] ++ rev j0).
  rewrite rev_app_distr, rev_involutive. now symmetry.
Qed.

Lemma append_decoded_one (tool_calls : list json) (m : text) (data : json) :
  json_loads (str_strip m) = Scanned data ->
  append_decoded tool_calls [m] = Returned (tool_calls ++ [data]).
Proof. intros E. cbn [append_decoded]. now rewrite E. Qed.

(** The third loop only adds, and what it adds is equal to nothing that
    was there before; it returns when [json.loads] raises nothing but
    [JSONDecodeError] on what the pattern found. *)
Lemma append_new_extras (matches : list text) :
  (forall m, In m matches -> forall e, json_loads m <> Failed e) ->
  forall tool_calls : list json,
  exists extras,
    append_new tool_calls matches = Returned (tool_calls ++ extras) /\
    forall x y, In x extras -> In y tool_calls -> py_eq y x = false.
Proof.
  induction matches as [| m rest IH]; intros Hok tool_calls; cbn [append_new].
  - exists []. split; [now rewrite app_nil_r | intros x y []].
  - assert (Hrest : forall m', In m' rest -> forall e, json_loads m' <> Failed e)
      by (intros m' Hm'; apply Hok; now right).
    specialize (IH Hrest).
    destruct (json_loads m) as [data | | e] eqn:Em;
      [| apply IH | now destruct (Hok m (or_introl eq_refl) e)].
    destruct (has_key data (T "name") && has_key data (T "arguments")); [| apply IH].
    destruct (py_in data tool_calls) eqn:Ein; cbn [negb]; [apply IH |].
    destruct (IH (tool_calls ++ [data])) as [extras [E Hnew]].
    exists (data :: extras). split.
    + rewrite E, <- app_assoc. reflexivity.
    + intros x y [<- | Hx] Hy.
      * unfold py_in in Ein.
        destruct (py_eq y data) eqn:Ey; [| reflexivity].
        assert (existsb (fun y0 => py_eq y0 data) tool_calls = true)
          by (apply existsb_exists; eauto).
        congruence.
      * apply (Hnew x y Hx). apply in_or_app. now left.
Qed.

End Conventions.

Section Wrappers.
Context `{Host}.

(** The first convention.  Behind a text without [```tool], the fenced
    block around a call without [```] is the first match of the first
    pattern, the call is its group, and no other match follows in a text
    without [```tool]. *)
Lemma fenced_within (a j b : text) (x : char) (j' : text) :
  j = x :: j' -> is_space x = false ->
  str_in (T "```tool") a = false ->
  str_in (T "```") j = false ->
  str_in (T "```tool") b = false ->
  re_findall tool_block_pattern (a ++ fenced j ++ b) = [j].
Proof.
  intros Ej Hx Ha Hj Hb.
  set (tail := [GClose; Opt newline] ++ lit (T "```")).
  assert (Hend : forall g, re_exec tail (nl ++ T "```" ++ b) g =
                           Some (b, mkGroups (g_open g) (Some (nl ++ T "```" ++ b)))).
  { intros g. unfold tail. cbn [app re_exec nl]. change (newline 10%N) with true.
    cbv iota. now rewrite re_exec_word. }
  assert (Hsuf : forall u1 u2, j = u1 ++ u2 ->
                   starts_with (T "```") (u2 ++ nl ++ T "```" ++ b) = false).
  { intros u1 u2 E. unfold nl. cbn [app].
    rewrite starts_with_before; [| reflexivity | discriminate].
    apply str_in_start. rewrite E in Hj. now apply str_in_suffix in Hj. }
  assert (Hmid : forall g u1 y u2, j = u1 ++ y :: u2 ->
                   re_exec tail (y :: u2 ++ nl ++ T "```" ++ b) g = None).
  { intros g u1 y u2 E. unfold tail. cbn [app re_exec].
    assert (Skip : re_exec (lit (T "```")) (y :: u2 ++ nl ++ T "```" ++ b)
                     (mkGroups (g_open g) (Some (y :: u2 ++ nl ++ T "```" ++ b))) = None).
    { apply re_exec_word_none. apply (Hsuf u1 (y :: u2) E). }
    destruct (newline y); [| exact Skip].
    rewrite Skip. rewrite re_exec_word_none; [reflexivity |].
    apply (Hsuf (u1 ++ [y]) u2). now rewrite <- app_assoc. }
  assert (Hexec : re_exec tool_block_pattern (fenced j ++ b) no_groups =
                  Some (b, mkGroups (Some (j ++ nl ++ T "```" ++ b))
                                    (Some (nl ++ T "```" ++ b)))).
  { unfold tool_block_pattern, fenced. rewrite <- !app_assoc.
    rewrite re_exec_lit.
    change ([10%N] ++ j ++ [10%N] ++ T "```" ++ b)
      with ([10%N] ++ (j ++ nl ++ T "```" ++ b)).
    change ([sp; Opt newline; GOpen; Lazy any_char; GClose; Opt newline] ++ lit (T "```"))
      with (Star is_space :: Opt newline :: GOpen :: Lazy any_char :: tail).
    apply (re_exec_star_all (u := [10%N])); [reflexivity | | rewrite Ej; exact Hx].
    assert (Hn : newline x = false).
    { unfold newline. destruct (char_eqb x 10) eqn:E; [| reflexivity].
      apply char_eqb_eq in E. subst x. discriminate Hx. }
    rewrite re_exec_opt_skip by (rewrite Ej; exact Hn).
    rewrite re_exec_open.
    apply (re_exec_lazy_first (r := tail)).
    - intros u1 y u2 E. now apply (Hmid _ u1).
    - apply Hend. }
  unfold tool_block_pattern at 1.
  rewrite re_findall_past.
  2:{ intros u1 u2 E Hu. unfold fenced. rewrite <- !app_assoc.
      now apply (@no_straddle (T "```tool") a u1 u2). }
  fold tool_block_pattern.
  rewrite (re_findall_hit (g := mkGroups (Some (j ++ nl ++ T "```" ++ b))
                                        (Some (nl ++ T "```" ++ b)))).
  - unfold reported. cbn [g_open g_close].
    change (j ++ nl ++ T "```" ++ b) with (j ++ (nl ++ T "```" ++ b)).
    rewrite between_app. f_equal.
    unfold tool_block_pattern. now apply re_findall_absent.
  - discriminate.
  - exact Hexec.
Qed.

(** The second convention, in the same way: no [<tool_call>] before and
    behind the tag pair, no [</tool_call>] in the call. *)
Lemma tagged_within (a j b : text) (x y : char) (j' j0 : text) :
  j = x :: j' -> is_space x = false ->
  j = j0 ++ [y] -> is_space y = false ->
  str_in (T "<tool_call>") a = false ->
  str_in (T "</tool_call>") j = false ->
  str_in (T "<tool_call>") b = false ->
  re_findall tag_pattern (a ++ tagged j ++ b) = [j].
Proof.
  intros Ej Hx Ey Hy Ha Hj Hb.
  set (close := T "</tool_call>").
  set (tail := GClose :: Star is_space :: lit close).
  assert (Hend : forall g, re_exec tail (close ++ b) g =
                           Some (b, mkGroups (g_open g) (Some (close ++ b)))).
  { intros g. unfold tail. rewrite re_exec_close.
    apply (re_exec_star_all (u := []) (s := close ++ b)); [reflexivity | | reflexivity].
    apply re_exec_word. }
  assert (Hmid : forall g u1 z u2, j = u1 ++ z :: u2 ->
                   re_exec tail (z :: u2 ++ close ++ b) g = None).
  { intros g u1 z u2 E. unfold tail. rewrite re_exec_close.
    assert (Et : exists t0, z :: u2 = t0 ++ [y])
      by (apply (@suffix_last u1 u2 j0); congruence).
    destruct Et as [t0 Et].
    destruct (@leading_space t0 y Hy) as [ws [v [t' [Ews [Hws [Hv Hin]]]]]].
    change (z :: u2 ++ close ++ b) with ((z :: u2) ++ close ++ b).
    rewrite Et, Ews, <- app_assoc. cbn [app].
    apply re_exec_star_none; [exact Hws | exact Hv |].
    intros w1 w2 Ew. apply re_exec_word_none.
    change (w2 ++ v :: t' ++ close ++ b) with (w2 ++ (v :: t') ++ close ++ b).
    rewrite app_assoc.
    apply (@no_straddle close j (u1 ++ w1) (w2 ++ v :: t')); [reflexivity | exact Hj | |].
    - rewrite E, Et, Ews, Ew. now rewrite <- !app_assoc.
    - now destruct w2. }
  assert (Hexec : re_exec tag_pattern (tagged j ++ b) no_groups =
                  Some (b, mkGroups (Some (j ++ close ++ b)) (Some (close ++ b)))).
  { unfold tag_pattern, tagged. rewrite <- !app_assoc. rewrite re_exec_lit.
    change ([sp; GOpen; Lazy any_char; GClose; sp] ++ lit (T "</tool_call>"))
      with (Star is_space :: GOpen :: Lazy any_char :: tail).
    apply (re_exec_star_all (u := []) (s := j ++ close ++ b));
      [reflexivity | | rewrite Ej; exact Hx].
    rewrite re_exec_open.
    apply (re_exec_lazy_first (r := tail)).
    - intros u1 z u2 E. now apply (Hmid _ u1).
    - apply Hend. }
  unfold tag_pattern at 1.
  rewrite re_findall_past.
  2:{ intros u1 u2 E Hu. unfold tagged. rewrite <- !app_assoc.
      now apply (@no_straddle (T "<tool_call>") a u1 u2). }
  fold tag_pattern.
  rewrite (re_findall_hit (g := mkGroups (Some (j ++ close ++ b)) (Some (close ++ b)))).
  - unfold reported. cbn [g_open g_close].
    change (j ++ close ++ b) with (j ++ (close ++ b)).
    rewrite between_app. f_equal.
    unfold tag_pattern. now apply re_findall_absent.
  - discriminate.
  - exact Hexec.
Qed.

End Wrappers.

(* ================================================================== *)
(** * What the matcher finds

    [Matches r s rest]: the pattern [r] matches a prefix of [s] and
    [rest] is left.  The matcher returns a match whenever there is one,
    and what it returns is one. *)

Section Semantics.

Lemma re_exec_star_cons (p : char -> bool) (r : regex) (c : char) (s : text) (g : groups) :
  re_exec (Star p :: r) (c :: s) g =
  if p c then
    match re_exec (Star p :: r) s g with
    | Some m => Some m
    | None => re_exec r (c :: s) g
    end
  else re_exec r (c :: s) g.
Proof. reflexivity. Qed.

Lemma re_exec_star_nil (p : char -> bool) (r : regex) (g : groups) :
  re_exec (Star p :: r) [] g = re_exec r [] g.
Proof. reflexivity. Qed.

Lemma re_exec_lazy_step (p : char -> bool) (r : regex) (s : text) (g : groups) :
  re_exec (Lazy p :: r) s g =
  match re_exec r s g with
  | Some m => Some m
  | None =>
      match s with
      | c :: s' => if p c then re_exec (Lazy p :: r) s' g else None
      | [] => None
      end
  end.
Proof. destruct s; reflexivity. Qed.

(** What the matcher returns is a match. *)
Lemma re_exec_sound (r : regex) :
  forall (s : text) (g : groups) (rest : text) (g' : groups),
    re_exec r s g = Some (rest, g') -> Matches r s rest.
Proof.
  induction r as [| i r IH]; intros s g rest g' E.
  - cbn [re_exec] in E. injection E as <- <-. constructor.
  - destruct i as [p | p | p | p | |].
    + destruct s as [| c s]; cbn [re_exec] in E; [discriminate |].
      destruct (p c) eqn:Hc; [| discriminate]. constructor; eauto.
    + destruct s as [| c s]; cbn [re_exec] in E.
      * apply M_opt_skip. eauto.
      * destruct (p c) eqn:Hc; [| apply M_opt_skip; eauto].
        destruct (re_exec r s g) as [[rest1 g1] |] eqn:E1.
        -- injection E as <- <-. apply M_opt_take; eauto.
        -- apply M_opt_skip. eauto.
    + revert E. induction s as [| c s IHs]; intros E.
      * rewrite re_exec_star_nil in E. apply M_star_stop. eauto.
      * rewrite re_exec_star_cons in E.
        destruct (p c) eqn:Hc; [| apply M_star_stop; eauto].
        destruct (re_exec (Star p :: r) s g) as [[rest1 g1] |] eqn:E1.
        -- injection E as <- <-. apply M_star_more; auto.
        -- apply M_star_stop. eauto.
    + revert E. induction s as [| c s IHs]; intros E; rewrite re_exec_lazy_step in E.
      * destruct (re_exec r [] g) as [[rest1 g1] |] eqn:E1; [| discriminate].
        injection E as <- <-. apply M_lazy_stop. eauto.
      * destruct (re_exec r (c :: s) g) as [[rest1 g1] |] eqn:E1.
        -- injection E as <- <-. apply M_lazy_stop. eauto.
        -- destruct (p c) eqn:Hc; [| discriminate]. apply M_lazy_more; auto.
    + cbn [re_exec] in E. constructor. eauto.
    + cbn [re_exec] in E. constructor. eauto.
Qed.

(** Where there is a match the matcher returns one. *)
Lemma re_exec_complete (r : regex) (s rest : text) :
  Matches r s rest -> forall g, exists m, re_exec r s g = Some m.
Proof.
  induction 1 as [s | p r c s rest Hc _ IH | p r c s rest Hc _ IH | p r s rest _ IH
                  | p r s rest _ IH | p r c s rest Hc _ IH
                  | p r s rest _ IH | p r c s rest Hc _ IH
                  | r s rest _ IH | r s rest _ IH]; intros g.
  - eexists. reflexivity.
  - cbn [re_exec]. rewrite Hc. apply IH.
  - cbn [re_exec]. rewrite Hc. destruct (IH g) as [m ->]. eauto.
  - destruct s as [| c s]; cbn [re_exec]; [apply IH |].
    destruct (p c); [| apply IH].
    destruct (re_exec r s g); [eauto | apply IH].
  - destruct s as [| c s]; [rewrite re_exec_star_nil; apply IH |].
    rewrite re_exec_star_cons. destruct (p c); [| apply IH].
    destruct (re_exec (Star p :: r) s g); [eauto | apply IH].
  - rewrite re_exec_star_cons, Hc. destruct (IH g) as [m ->]. eauto.
  - rewrite re_exec_lazy_step. destruct (IH g) as [m ->]. eauto.
  - rewrite re_exec_lazy_step. destruct (re_exec r (c :: s) g); [eauto |].
    rewrite Hc. apply IH.
  - cbn [re_exec]. apply IH.
  - cbn [re_exec]. apply IH.
Qed.

(** A pattern without a group leaves the groups as they were. *)
Lemma re_exec_groupless (r : regex) :
  groupless r = true ->
  forall (s : text) (g : groups) (rest : text) (g' : groups),
    re_exec r s g = Some (rest, g') -> g' = g.
Proof.
  induction r as [| i r IH]; intros Hr s g rest g' E.
  - cbn [re_exec] in E. now injection E as <- <-.
  - cbn [groupless forallb] in Hr. apply andb_true_iff in Hr as [Hi Hr].
    specialize (IH Hr).
    destruct i as [p | p | p | p | |]; try discriminate Hi.
    + destruct s as [| c s]; cbn [re_exec] in E; [discriminate |].
      destruct (p c); [eauto | discriminate].
    + destruct s as [| c s]; cbn [re_exec] in E; [eauto |].
      destruct (p c); [| eauto].
      destruct (re_exec r s g) as [[rest1 g1] |] eqn:E1; [| eauto].
      injection E as <- <-. eauto.
    + revert E. induction s as [| c s IHs]; intros E.
      * rewrite re_exec_star_nil in E. eauto.
      * rewrite re_exec_star_cons in E. destruct (p c); [| eauto].
        destruct (re_exec (Star p :: r) s g) as [[rest1 g1] |] eqn:E1; [| eauto].
        injection E as <- <-. auto.
    + revert E. induction s as [| c s IHs]; intros E; rewrite re_exec_lazy_step in E.
      * destruct (re_exec r [] g) as [[rest1 g1] |] eqn:E1; [| discriminate].
        injection E as <- <-. eauto.
      * destruct (re_exec r (c :: s) g) as [[rest1 g1] |] eqn:E1.
        -- injection E as <- <-. eauto.
        -- destruct (p c); [auto | discriminate].
Qed.

(** ** Taking a match apart and putting one together *)

Lemma Matches_lit (l : text) (r : regex) (s rest : text) :
  Matches r s rest -> Matches (lit l ++ r) (l ++ s) rest.
Proof.
  intros Hm. induction l as [| c l IH]; [exact Hm |].
  cbn [lit map app]. constructor; [apply char_eqb_refl | exact IH].
Qed.

Lemma Matches_star (p : char -> bool) (r : regex) (u s rest : text) :
  forallb p u = true -> Matches r s rest -> Matches (Star p :: r) (u ++ s) rest.
Proof.
  intros Hu Hm. induction u as [| c u IH]; [now apply M_star_stop |].
  cbn [forallb] in Hu. apply andb_true_iff in Hu as [Hc Hu].
  cbn [app]. apply M_star_more; auto.
Qed.

Lemma Matches_lit_inv (l : text) (r : regex) (s rest : text) :
  Matches (lit l ++ r) s rest -> exists s', s = l ++ s' /\ Matches r s' rest.
Proof.
  revert s. induction l as [| c l IH]; intros s Hm; [now exists s |].
  cbn [lit map app] in Hm. inversion Hm as [| p r0 x s0 rest0 Hx Hm' | | | | | | | |]; subst.
  apply char_eqb_eq in Hx. subst x.
  destruct (IH _ Hm') as [s' [-> Hs']]. now exists s'.
Qed.

Lemma Matches_one_inv (p : char -> bool) (r : regex) (s rest : text) :
  Matches (One p :: r) s rest -> exists c s', s = c :: s' /\ p c = true /\ Matches r s' rest.
Proof. intros Hm. inversion Hm; subst. eauto. Qed.

Lemma Matches_star_inv (p : char -> bool) (r : regex) (s rest : text) :
  Matches (Star p :: r) s rest ->
  exists u s', s = u ++ s' /\ forallb p u = true /\ Matches r s' rest.
Proof.
  intros Hm. remember (Star p :: r) as r0 eqn:Er.
  induction Hm as [| | | | p0 r1 s rest Hm _ | p0 r1 c s rest Hc Hm IH | | | |];
    try discriminate Er; injection Er as -> ->.
  - exists [], s. auto.
  - destruct (IH eq_refl) as [u [s' [-> [Hu Hs']]]].
    exists (c :: u), s'. repeat split; [| exact Hs'].
    cbn [forallb]. now rewrite Hc, Hu.
Qed.

End Semantics.

(* ================================================================== *)
(** * The third pattern *)

Section BareObject.

Lemma count_char_app (c : char) (a b : text) :
  count_char c (a ++ b) = count_char c a + count_char c b.
Proof. unfold count_char. now rewrite filter_app, length_app. Qed.

Lemma count_char_lacks (c : char) (s : text) : count_char c s = 0 <-> lacks c s = true.
Proof.
  induction s as [| x s IH].
  - split; reflexivity.
  - unfold count_char, lacks in *. cbn [filter forallb].
    destruct (char_eqb c x) eqn:E.
    + apply char_eqb_eq in E. subst x. rewrite char_eqb_refl. cbn [negb andb length].
      split; discriminate.
    + assert (E' : char_eqb x c = false).
      { destruct (char_eqb x c) eqn:E'; [| reflexivity].
        apply char_eqb_eq in E'. subst x. now rewrite char_eqb_refl in E. }
      rewrite E'. cbn [negb andb]. exact IH.
Qed.

Lemma brace_free_app (a b : text) : brace_free (a ++ b) = brace_free a && brace_free b.
Proof. apply forallb_app. Qed.

Lemma brace_free_lacks (s : text) :
  brace_free s = true -> lacks left_brace s = true /\ lacks right_brace s = true.
Proof.
  unfold left_brace, right_brace.
  induction s as [| x s IH]; intros Hs; [split; reflexivity |].
  cbn [brace_free forallb] in Hs. apply andb_true_iff in Hs as [Hx Hs].
  destruct (IH Hs) as [L R]. unfold not_brace in Hx.
  apply andb_true_iff in Hx as [Hl Hr].
  split; unfold lacks; cbn [forallb];
    fold (lacks (ch "{") s); fold (lacks (ch "}") s).
  - now rewrite L, Hl.
  - now rewrite R, Hr.
Qed.

Lemma spaces_brace_free (ws : text) : forallb is_space ws = true -> brace_free ws = true.
Proof.
  intros Hws. induction ws as [| x ws IH]; [reflexivity |].
  cbn [forallb] in Hws. apply andb_true_iff in Hws as [Hx Hws].
  cbn [brace_free forallb]. fold (brace_free ws). rewrite (IH Hws), andb_true_r.
  unfold not_brace.
  destruct (char_eqb x (ch "{")) eqn:E1;
    [apply char_eqb_eq in E1; subst x; discriminate Hx |].
  destruct (char_eqb x (ch "}")) eqn:E2;
    [apply char_eqb_eq in E2; subst x; discriminate Hx |].
  reflexivity.
Qed.

(** Two ways of cutting a text at the first [c] are the same way. *)
Lemma split_first (c : char) (u v r r' : text) :
  lacks c u = true -> lacks c v = true ->
  u ++ c :: r = v ++ c :: r' -> u = v /\ r = r'.
Proof.
  revert v. induction u as [| x u IH]; intros [| y v] Hu Hv E; cbn [app] in E.
  - injection E as ->. auto.
  - injection E as <- _. apply lacks_cons in Hv as [Hv _]. congruence.
  - injection E as -> _. apply lacks_cons in Hu as [Hu _]. congruence.
  - injection E as -> E. apply lacks_cons in Hu as [_ Hu]. apply lacks_cons in Hv as [_ Hv].
    destruct (IH v Hu Hv E) as [-> ->]. auto.
Qed.

Lemma first_occurrence (c : char) (s : text) :
  lacks c s = true \/ exists s1 s2, s = s1 ++ c :: s2 /\ lacks c s1 = true.
Proof.
  induction s as [| x s IH]; [now left |].
  destruct (char_eqb x c) eqn:E.
  - apply char_eqb_eq in E. subst x. right. exists [], s. auto.
  - destruct IH as [L | [s1 [s2 [-> L]]]].
    + left. unfold lacks. cbn [forallb]. rewrite E. exact L.
    + right. exists (x :: s1), s2. split; [reflexivity |].
      unfold lacks. cbn [forallb]. rewrite E. exact L.
Qed.

Lemma Matches_app (r : regex) (s rest b : text) :
  Matches r s rest -> Matches r (s ++ b) (rest ++ b).
Proof. induction 1; cbn [app]; try (constructor; assumption). Qed.

(** What a match of the third pattern looks like: a brace, text without
    braces up to the quote that opens the name, the name, text without
    braces up to the brace of the arguments, and two more stretches
    without braces, each closed by a brace. *)
Lemma json_pattern_skeleton (s rest : text) :
  Matches json_pattern s rest ->
  exists X N Y P3 P4,
    s = left_brace :: X ++ N ++ Y ++ left_brace :: P3 ++ right_brace :: P4 ++
        right_brace :: rest /\
    brace_free X = true /\ brace_free Y = true /\
    brace_free P3 = true /\ brace_free P4 = true.
Proof.
  intros Hm. unfold json_pattern, plus, sp in Hm.
  apply Matches_lit_inv in Hm as [s1 [-> Hm]]. cbn [app] in Hm.
  apply Matches_star_inv in Hm as [P1 [s2 [-> [HP1 Hm]]]].
  apply Matches_lit_inv in Hm as [s3 [-> Hm]]. cbn [app] in Hm.
  apply Matches_star_inv in Hm as [w1 [s4 [-> [Hw1 Hm]]]].
  apply Matches_lit_inv in Hm as [s5 [-> Hm]]. cbn [app] in Hm.
  apply Matches_star_inv in Hm as [w2 [s6 [-> [Hw2 Hm]]]].
  apply Matches_lit_inv in Hm as [s7 [-> Hm]]. cbn [app] in Hm.
  apply Matches_one_inv in Hm as [n [s8 [-> [Hn Hm]]]].
  apply Matches_star_inv in Hm as [N' [s9 [-> [HN' Hm]]]].
  apply Matches_lit_inv in Hm as [s10 [-> Hm]]. cbn [app] in Hm.
  apply Matches_star_inv in Hm as [w3 [s11 [-> [Hw3 Hm]]]].
  apply Matches_lit_inv in Hm as [s12 [-> Hm]]. cbn [app] in Hm.
  apply Matches_star_inv in Hm as [P2 [s13 [-> [HP2 Hm]]]].
  apply Matches_lit_inv in Hm as [s14 [-> Hm]]. cbn [app] in Hm.
  apply Matches_star_inv in Hm as [w4 [s15 [-> [Hw4 Hm]]]].
  apply Matches_lit_inv in Hm as [s16 [-> Hm]]. cbn [app] in Hm.
  apply Matches_star_inv in Hm as [w5 [s17 [-> [Hw5 Hm]]]].
  apply Matches_lit_inv in Hm as [s18 [-> Hm]]. cbn [app] in Hm.
  apply Matches_star_inv in Hm as [P3 [s19 [-> [HP3 Hm]]]].
  apply Matches_lit_inv in Hm as [s20 [-> Hm]]. cbn [app] in Hm.
  apply Matches_star_inv in Hm as [P4 [s21 [-> [HP4 Hm]]]].
  rewrite <- (app_nil_r (lit (T "}"))) in Hm.
  apply Matches_lit_inv in Hm as [s22 [-> Hm]].
  inversion Hm; subst.
  apply spaces_brace_free in Hw1, Hw2, Hw3, Hw4, Hw5.
  exists (P1 ++ (dq ++ T "name" ++ dq) ++ w1 ++ T ":" ++ w2 ++ dq), (n :: N'),
         (dq ++ w3 ++ T "," ++ P2 ++ (dq ++ T "arguments" ++ dq) ++ w4 ++ T ":" ++ w5),
         P3, P4.
  repeat split.
  - rewrite <- !app_assoc. reflexivity.
  - rewrite !brace_free_app. unfold brace_free in *.
    rewrite HP1, Hw1, Hw2. reflexivity.
  - rewrite !brace_free_app. unfold brace_free in *.
    rewrite HP2, Hw3, Hw4, Hw5. reflexivity.
  - exact HP3.
  - exact HP4.
Qed.

(** In a text that is a match of the third pattern as a whole and has no
    left brace but the two of the pattern, followed by a text without a
    left brace, every match that begins with it ends with it. *)
Lemma json_pattern_end (j b rest : text) :
  Matches json_pattern j [] ->
  count_char left_brace j = 2 ->
  lacks left_brace b = true ->
  Matches json_pattern (j ++ b) rest ->
  rest = b.
Proof.
  intros Hj Hcount Hb Hm.
  destruct (json_pattern_skeleton Hj) as [X [N [Y [P3 [P4 [Ej [HX [HY [HP3 HP4]]]]]]]]].
  destruct (json_pattern_skeleton Hm) as [X' [N' [Y' [Q3 [Q4 [Em [HX' [HY' [HQ3 HQ4]]]]]]]]].
  destruct (brace_free_lacks HX) as [LX _]. destruct (brace_free_lacks HY) as [LY _].
  destruct (brace_free_lacks HP3) as [LP3 RP3]. destruct (brace_free_lacks HP4) as [LP4 RP4].
  destruct (brace_free_lacks HX') as [LX' _]. destruct (brace_free_lacks HY') as [LY' _].
  destruct (brace_free_lacks HQ3) as [_ RQ3]. destruct (brace_free_lacks HQ4) as [_ RQ4].
  assert (LN : lacks left_brace N = true).
  { apply count_char_lacks. rewrite Ej in Hcount.
    change (left_brace :: X ++ N ++ Y ++ left_brace :: P3 ++ right_brace :: P4 ++ [right_brace])
      with ([left_brace] ++ X ++ N ++ Y ++ [left_brace] ++ P3 ++ [right_brace] ++ P4 ++
            [right_brace]) in Hcount.
    rewrite !count_char_app in Hcount.
    change (count_char left_brace [left_brace]) with 1 in Hcount. lia. }
  rewrite Ej in Em. cbn [app] in Em. injection Em as Em.
  repeat first [rewrite <- app_assoc in Em | progress cbn [app] in Em].
  assert (Tail : lacks left_brace (P3 ++ right_brace :: P4 ++ right_brace :: b) = true).
  { rewrite lacks_app. split; [exact LP3 |]. apply lacks_cons. split; [discriminate |].
    rewrite lacks_app. split; [exact LP4 |]. apply lacks_cons. split; [discriminate | exact Hb]. }
  assert (E1 : (X ++ N ++ Y) ++ left_brace :: P3 ++ right_brace :: P4 ++ right_brace :: b =
               (X' ++ N' ++ Y') ++ left_brace :: Q3 ++ right_brace :: Q4 ++ right_brace :: rest)
    by (repeat first [rewrite <- app_assoc | progress cbn [app]]; exact Em).
  assert (LXNY : lacks left_brace (X ++ N ++ Y) = true) by (rewrite !lacks_app; auto).
  destruct (first_occurrence left_brace N') as [LN' | [n1 [n2 [-> Ln1]]]].
  - assert (L' : lacks left_brace (X' ++ N' ++ Y') = true) by (rewrite !lacks_app; auto).
    destruct (split_first LXNY L' E1) as [_ E2].
    destruct (split_first RP3 RQ3 E2) as [_ E3].
    destruct (split_first RP4 RQ4 E3) as [_ E4]. now symmetry.
  - exfalso.
    assert (E1' : (X ++ N ++ Y) ++ left_brace :: P3 ++ right_brace :: P4 ++ right_brace :: b =
                  (X' ++ n1) ++ left_brace ::
                  (n2 ++ Y' ++ left_brace :: Q3 ++ right_brace :: Q4 ++ right_brace :: rest)).
    { rewrite E1. repeat first [rewrite <- app_assoc | progress cbn [app]]. reflexivity. }
    assert (L' : lacks left_brace (X' ++ n1) = true) by (rewrite lacks_app; auto).
    destruct (split_first LXNY L' E1') as [_ E2].
    rewrite E2 in Tail. rewrite !lacks_app in Tail. destruct Tail as [_ [_ Tail]].
    apply lacks_cons in Tail as [Tail _]. now apply Tail.
Qed.

(** The third pattern finds such a text, and nothing else where there
    is no other left brace. *)
Lemma bare_found (a j b : text) :
  Matches json_pattern j [] ->
  count_char left_brace j = 2 ->
  lacks left_brace a = true -> lacks left_brace b = true ->
  re_findall json_pattern (a ++ j ++ b) = [j].
Proof.
  intros Hj Hcount Ha Hb.
  assert (Hexec : re_exec json_pattern (j ++ b) no_groups = Some (b, no_groups)).
  { pose proof (Matches_app b Hj) as Hjb. cbn [app] in Hjb.
    destruct (re_exec_complete Hjb no_groups) as [[rest g] E].
    pose proof (re_exec_sound E) as Hm.
    rewrite (json_pattern_end Hj Hcount Hb Hm) in E.
    now rewrite (re_exec_groupless (r := json_pattern) eq_refl E) in E. }
  assert (Hne : j <> []).
  { destruct (json_pattern_skeleton Hj) as [X [N [Y [P3 [P4 [-> _]]]]]]. discriminate. }
  change json_pattern with (lit (left_brace :: []) ++ tl json_pattern).
  rewrite re_findall_after by exact Ha.
  change (lit [left_brace] ++ tl json_pattern) with json_pattern.
  rewrite (re_findall_hit Hne Hexec).
  unfold reported. cbn [g_open no_groups]. rewrite between_app. f_equal.
  change json_pattern with (lit (left_brace :: []) ++ tl json_pattern).
  now apply re_findall_lacks.
Qed.

End BareObject.

(* ================================================================== *)
(** * Decoded values *)

Section Decoded.
Context `{Host}.

Lemma wf_arr (l : list json) : wf_json (JArr l) <-> Forall wf_json l.
Proof.
  induction l as [| x l IH]; cbn [wf_json].
  - split; [constructor | trivial].
  - cbn [wf_json] in IH. rewrite IH. split.
    + intros [A B]. now constructor.
    + intros F. inversion F; subst. auto.
Qed.

Lemma wf_obj (d : list (text * json)) :
  wf_json (JObj d) <-> NoDup (map fst d) /\ Forall (fun kv => wf_json (snd kv)) d.
Proof.
  cbn [wf_json]. apply and_iff_compat_l.
  induction d as [| [k x] d IH].
  - split; [constructor | trivial].
  - rewrite IH. split.
    + intros [A B]. now constructor.
    + intros F. inversion F; subst. auto.
Qed.

(** Induction over a value and the values it contains. *)
Lemma json_induction (P : json -> Prop) :
  P JNull -> (forall b, P (JBool b)) -> (forall z, P (JInt z)) ->
  (forall l, P (JFloat l)) -> (forall s, P (JStr s)) ->
  (forall l, Forall P l -> P (JArr l)) ->
  (forall d, Forall (fun kv => P (snd kv)) d -> P (JObj d)) ->
  forall v, P v.
Proof.
  intros Hnull Hbool Hint Hfloat Hstr Harr Hobj.
  fix IH 1. intros [| b | z | l | s | l | d].
  - exact Hnull.
  - apply Hbool.
  - apply Hint.
  - apply Hfloat.
  - apply Hstr.
  - apply Harr. induction l as [| x l IHl]; constructor; [apply IH | exact IHl].
  - apply Hobj. induction d as [| [k x] d IHd]; constructor; [apply IH | exact IHd].
Qed.

Lemma dict_get_in (d : list (text * json)) (k : text) (v : json) :
  NoDup (map fst d) -> In (k, v) d -> dict_get d k = Some v.
Proof.
  induction d as [| [k' v'] d IH]; intros Hnd Hin; [destruct Hin |].
  cbn [map fst] in Hnd. inversion Hnd as [| ? ? Hk' Hnd']; subst.
  cbn [dict_get]. destruct Hin as [E | Hin].
  - injection E as -> ->. now rewrite text_eqb_refl.
  - destruct (text_eqb k k') eqn:E.
    + apply text_eqb_eq in E. subst k'. exfalso. apply Hk'.
      apply in_map_iff. now exists (k, v).
    + now apply IH.
Qed.

(** A decoded value is equal to itself. *)
Lemma py_eq_refl (v : json) : wf_json v -> py_eq v v = true.
Proof.
  induction v as [| b | z | l | s | l IH | d IH] using json_induction; intros Hwf.
  - reflexivity.
  - cbn [py_eq as_number number_eqb]. apply Z.eqb_refl.
  - cbn [py_eq as_number number_eqb]. apply Z.eqb_refl.
  - cbn [py_eq as_number number_eqb]. apply float_eqb_refl.
  - cbn [py_eq]. apply text_eqb_refl.
  - apply wf_arr in Hwf. cbn [py_eq].
    induction l as [| x l IHl]; [reflexivity |].
    inversion IH; subst. inversion Hwf; subst.
    rewrite H2 by assumption. cbn [andb]. now apply IHl.
  - apply wf_obj in Hwf as [Hnd Hwf]. cbn [py_eq].
    rewrite Nat.eqb_refl. cbn [andb].
    assert (Hall : forall d', incl d' d ->
              (fix sub (d0 : list (text * json)) : bool :=
                 match d0 with
                 | [] => true
                 | (k, v) :: d1 =>
                     match dict_get d k with
                     | Some v' => py_eq v v'
                     | None => false
                     end && sub d1
                 end) d' = true).
    { induction d' as [| [k x] d' IHd]; intros Hincl; [reflexivity |].
      assert (Hin : In (k, x) d) by (apply Hincl; now left).
      rewrite (dict_get_in Hnd Hin).
      rewrite Forall_forall in IH, Hwf.
      pose proof (IH (k, x) Hin (Hwf (k, x) Hin)) as Hx. cbn [snd] in Hx.
      rewrite Hx. cbn [andb].
      apply IHd. intros y Hy. apply Hincl. now right. }
    apply Hall. apply incl_refl.
Qed.

Lemma dict_set_keys (d : list (text * json)) (k : text) (v : json) (k' : text) :
  In k' (map fst (dict_set d k v)) <-> k' = k \/ In k' (map fst d).
Proof.
  induction d as [| [k0 v0] d IH]; cbn [dict_set map fst In].
  - split; [intros [E | []]; auto | intros [E | []]; auto].
  - destruct (text_eqb k k0) eqn:E; cbn [map fst In].
    + apply text_eqb_eq in E. subst k0. split; [tauto | intros [-> | [E | Hin]]; auto].
    + rewrite IH. tauto.
Qed.

Lemma dict_set_wf (d : list (text * json)) (k : text) (v : json) :
  wf_json (JObj d) -> wf_json v -> wf_json (JObj (dict_set d k v)).
Proof.
  rewrite !wf_obj. intros [Hnd Hall] Hv.
  induction d as [| [k0 v0] d IH]; cbn [dict_set].
  - split; [cbn; constructor; [intros [] | constructor] | constructor; [exact Hv | constructor]].
  - cbn [map fst] in Hnd. inversion Hnd as [| ? ? Hk0 Hnd']; subst.
    inversion Hall as [| ? ? Hv0 Hall']; subst.
    destruct (text_eqb k k0) eqn:E.
    + split; [cbn [map fst]; now constructor | constructor; assumption].
    + destruct (IH Hnd' Hall') as [Hnd2 Hall2]. split.
      * cbn [map fst]. constructor; [| exact Hnd2].
        rewrite dict_set_keys. intros [-> | Hin]; [| contradiction].
        now rewrite text_eqb_refl in E.
      * constructor; assumption.
Qed.

Lemma scan_word_value (w : text) (v : json) (s : text) (v' : json) (r : text) :
  scan_word w v s = Scanned (v', r) -> v' = v.
Proof. unfold scan_word. destruct (starts_with w s); [| discriminate]. now intros [= <- _]. Qed.

Lemma scan_number_wf (s : text) (v : json) (r : text) :
  scan_number s = Scanned (v, r) -> wf_json v.
Proof.
  unfold scan_number. destruct (scan_int s) as [[[neg d] r0] |]; [| discriminate].
  destruct (scan_frac r0) as [frac r1]. destruct (scan_exp r1) as [ex r2].
  destruct frac, ex; try (intros [= <- _]; exact I).
  destruct (over_int_limit d); [discriminate |]. intros [= <- _]. exact I.
Qed.

(** The scanner builds values in which no dict has a key twice, and the
    members of an object make an object. *)
Lemma scan_wf (fuel : nat) :
  (forall depth s v r, scan_value fuel depth s = Scanned (v, r) -> wf_json v) /\
  (forall depth s acc v r,
     wf_json (JObj acc) -> scan_members fuel depth s acc = Scanned (v, r) ->
     wf_json v /\ exists d, v = JObj d) /\
  (forall depth s acc v r,
     Forall wf_json acc -> scan_elements fuel depth s acc = Scanned (v, r) ->
     wf_json v).
Proof.
  induction fuel as [| f [IHv [IHm IHe]]]; [repeat split; intros; discriminate |].
  split; [| split].
  - intros depth s v r E. cbn [scan_value] in E.
    destruct s as [| c s]; [discriminate |].
    destruct (c =? 34)%N.
    { destruct (scan_string s []) as [[str r0] |]; [| discriminate].
      injection E as <- _. exact I. }
    destruct (c =? 123)%N.
    { destruct depth as [| depth']; [discriminate |].
      destruct (skip_ws s) as [| x s1] eqn:Es.
      - apply (IHm _ _ [] _ _ (conj (NoDup_nil _) I)) in E. apply E.
      - destruct (x =? 125)%N eqn:Ex.
        + apply N.eqb_eq in Ex. subst x. injection E as <- _. split; [constructor | exact I].
        + assert (E' : scan_members f depth' (x :: s1) [] = Scanned (v, r)).
          { destruct x as [| p]; [exact E |].
            repeat (destruct p as [p | p |]; try exact E); discriminate Ex. }
          apply (IHm _ _ [] _ _ (conj (NoDup_nil _) I)) in E'. apply E'. }
    destruct (c =? 91)%N.
    { destruct depth as [| depth']; [discriminate |].
      destruct (skip_ws s) as [| x s1] eqn:Es.
      - now apply (IHe _ _ [] _ _ (Forall_nil _)) in E.
      - destruct (x =? 93)%N eqn:Ex.
        + apply N.eqb_eq in Ex. subst x. injection E as <- _. exact I.
        + assert (E' : scan_elements f depth' (x :: s1) [] = Scanned (v, r)).
          { destruct x as [| p]; [exact E |].
            repeat (destruct p as [p | p |]; try exact E); discriminate Ex. }
          now apply (IHe _ _ [] _ _ (Forall_nil _)) in E'. }
    destruct (c =? 110)%N; [apply scan_word_value in E; subst; exact I |].
    destruct (c =? 116)%N; [apply scan_word_value in E; subst; exact I |].
    destruct (c =? 102)%N; [apply scan_word_value in E; subst; exact I |].
    destruct (scan_number (c :: s)) as [[v0 r0] | | e] eqn:En; [| | discriminate].
    { injection E as <- <-. now apply scan_number_wf in En. }
    destruct (c =? 78)%N; [apply scan_word_value in E; subst; exact I |].
    destruct (c =? 73)%N; [apply scan_word_value in E; subst; exact I |].
    destruct (c =? 45)%N; [apply scan_word_value in E; subst; exact I | discriminate].
  - intros depth s acc v r Hacc E. cbn [scan_members] in E.
    destruct s as [| c s]; [discriminate |].
    destruct (c =? 34)%N eqn:Ec.
    2:{ destruct c as [| p]; [discriminate |].
        repeat (destruct p as [p | p |]; try discriminate E). discriminate Ec. }
    apply N.eqb_eq in Ec. subst c.
    destruct (scan_string s []) as [[k r0] |]; [| discriminate].
    destruct (skip_ws r0) as [| x r1]; [discriminate |].
    destruct (x =? 58)%N eqn:Ex.
    2:{ destruct x as [| p]; [discriminate |].
        repeat (destruct p as [p | p |]; try discriminate E). discriminate Ex. }
    apply N.eqb_eq in Ex. subst x.
    destruct (scan_value f depth (skip_ws r1)) as [[v0 r2] | | e] eqn:Ev;
      [| discriminate | discriminate].
    apply IHv in Ev.
    pose proof (dict_set_wf k Hacc Ev) as Hset.
    destruct (skip_ws r2) as [| y r3]; [discriminate |].
    destruct (y =? 125)%N eqn:Ey.
    { apply N.eqb_eq in Ey. subst y. injection E as <- _. split; [exact Hset | eauto]. }
    destruct (y =? 44)%N eqn:Ey2.
    { apply N.eqb_eq in Ey2. subst y. now apply IHm in E. }
    exfalso. destruct y as [| p]; [discriminate |].
    repeat (destruct p as [p | p |]; try discriminate E); discriminate.
  - intros depth s acc v r Hacc E. cbn [scan_elements] in E.
    destruct (scan_value f depth s) as [[v0 r0] | | e] eqn:Ev;
      [| discriminate | discriminate].
    apply IHv in Ev.
    destruct (skip_ws r0) as [| y r1]; [discriminate |].
    destruct (y =? 93)%N eqn:Ey.
    { apply N.eqb_eq in Ey. subst y. injection E as <- _.
      apply wf_arr. cbn [rev]. apply Forall_app. split.
      - now apply Forall_rev.
      - now constructor. }
    destruct (y =? 44)%N eqn:Ey2.
    { apply N.eqb_eq in Ey2. subst y. apply IHe in E; [exact E | now constructor]. }
    exfalso. destruct y as [| p]; [discriminate |].
    repeat (destruct p as [p | p |]; try discriminate E); discriminate.
Qed.

Lemma json_loads_wf (s : text) (v : json) : json_loads s = Scanned v -> wf_json v.
Proof.
  unfold json_loads. destruct (scan_value _ _ _) as [[v0 r] | | e] eqn:E;
    [| discriminate | discriminate].
  destruct (skip_ws r); [| discriminate]. intros [= <-].
  now apply (proj1 (scan_wf _)) in E.
Qed.

(** What decodes from a text that begins with a brace is a dict. *)
Lemma json_loads_object (s : text) (v : json) :
  json_loads (left_brace :: s) = Scanned v -> exists d, v = JObj d.
Proof.
  unfold json_loads. change (skip_ws (left_brace :: s)) with (left_brace :: s).
  destruct (scan_value _ _ _) as [[v0 r] | | e] eqn:E; [| discriminate | discriminate].
  destruct (skip_ws r); [| discriminate]. intros [= <-].
  cbn [scan_value] in E.
  change (left_brace =? 34)%N with false in E.
  change (left_brace =? 123)%N with true in E. cbv iota in E.
  destruct decoder_depth as [| depth']; [discriminate |].
  destruct (skip_ws s) as [| x s1] eqn:Es.
  - apply (proj1 (proj2 (scan_wf _))) in E; [apply E | split; [constructor | exact I]].
  - destruct (x =? 125)%N eqn:Ex.
    + apply N.eqb_eq in Ex. subst x. injection E as <- _. eauto.
    + assert (E' : scan_members (2 * length (left_brace :: s)) depth' (x :: s1) [] =
                   Scanned (v0, r)).
      { destruct x as [| p]; [exact E |].
        repeat (destruct p as [p | p |]; try exact E); discriminate Ex. }
      apply (proj1 (proj2 (scan_wf _))) in E'; [apply E' | split; [constructor | exact I]].
Qed.

End Decoded.

(** An integer literal with more digits than the interpreter converts,
    and arrays nested deeper than the decoder may follow, make
    [json.loads] raise.  The extractor catches [JSONDecodeError] only:
    the exception leaves it, and with it the run. *)
Remark decoder_limits_abort :
  let long := List.repeat (ch "1") 4301 in
  let deep := List.repeat (ch "[") 1001 in
  (exists e,
     json_loads (H := scripted) long = Failed e /\ exn_cls e = ValueError /\
     parse_tool_calls_from_text (H := scripted) (fenced long) = Raised e /\
     fst (@run_agent_loop scripted (boot [] [fenced long; T "done"]) (T "count") (T "m") 20) =
       Raised e) /\
  (exists e,
     json_loads (H := scripted) deep = Failed e /\ exn_cls e = RecursionError /\
     parse_tool_calls_from_text (H := scripted) (tagged deep) = Raised e).
Proof.
  split.
  - eexists. split; [vm_compute; reflexivity |].
    split; [reflexivity |]. split; vm_compute; reflexivity.
  - eexists. split; [vm_compute; reflexivity |].
    split; [reflexivity |]. vm_compute; reflexivity.
Qed.

Section OneCall.
Context `{Host}.

(** The third loop adds nothing when all it is given is a call that is
    in the list already, or texts it passes over. *)
Lemma append_new_known (j : text) (d : json) (matches : list text) (tool_calls : list json) :
  json_loads j = Scanned d ->
  py_in d tool_calls = true ->
  (forall m, In m matches -> m = j \/ inert m) ->
  append_new tool_calls matches = Returned tool_calls.
Proof.
  intros Hd Hin. induction matches as [| m rest IH]; intros Hm; [reflexivity |].
  assert (Hrest : forall m', In m' rest -> m' = j \/ inert m')
    by (intros m' Hm'; apply Hm; now right).
  cbn [append_new].
  destruct (Hm m (or_introl eq_refl)) as [-> | [E | [x [E Hx]]]].
  - rewrite Hd, Hin. cbn [negb]. destruct (_ && _); now apply IH.
  - rewrite E. now apply IH.
  - rewrite E, Hx. now apply IH.
Qed.

(** Given a call that is not in the list yet and, besides it, only texts
    it passes over, the third loop adds the call once. *)
Lemma append_new_first (j : text) (d : json) (matches : list text) :
  json_loads j = Scanned d ->
  has_key d (T "name") = true -> has_key d (T "arguments") = true ->
  py_eq d d = true ->
  In j matches ->
  (forall m, In m matches -> m = j \/ inert m) ->
  append_new [] matches = Returned [d].
Proof.
  intros Hd Hname Hargs Hself.
  induction matches as [| m rest IH]; intros Hin Hm; [destruct Hin |].
  assert (Hrest : forall m', In m' rest -> m' = j \/ inert m')
    by (intros m' Hm'; apply Hm; now right).
  assert (Hknown : py_in d [d] = true).
  { unfold py_in. cbn [existsb]. now rewrite Hself. }
  cbn [append_new].
  destruct (Hm m (or_introl eq_refl)) as [-> | Hinert].
  - rewrite Hd, Hname, Hargs. cbn [andb py_in existsb negb app].
    now apply (append_new_known Hd).
  - assert (Hne : m <> j).
    { intros ->. destruct Hinert as [E | [x [E Hx]]]; [congruence |].
      rewrite Hd in E. injection E as <-. rewrite Hname, Hargs in Hx. discriminate. }
    assert (Hin' : In j rest) by (destruct Hin as [-> | Hin]; [now destruct Hne | exact Hin]).
    destruct Hinert as [E | [x [E Hx]]].
    + rewrite E. now apply IH.
    + rewrite E, Hx. now apply IH.
Qed.

End OneCall.

(** C3, as the code has it.  A text holds one call, an object [j] that
    decodes to a value [d] with the keys [name] and [arguments], in one
    of the three conventions.  In a fenced block: no [```tool] stands
    before or behind the block, no [```] in the call, and no
    [<tool_call>] in the text.  In a tag pair: no [<tool_call>] stands
    before or behind the pair, no [</tool_call>] in the call, and no
    [```tool] in the text.  In both, whatever else the third pattern
    finds in the text is passed over by its loop: it is the call itself,
    or it does not decode, or it lacks a key.  Bare: the text holds
    neither [```tool] nor [<tool_call>], and either the third pattern
    finds the call, and whatever else it finds is passed over in the
    same way; or, as a case of this that is read off the text, the call
    is matched as a whole by the third pattern, it has no left brace but
    its own and that of its arguments, and there is none in the text
    around it.  Then the extractor returns the value of the call and
    nothing else. *)
Theorem one_call_extracted `{Host} (pre post body : text) (d : json) :
  let j := ch "{" :: body ++ [ch "}"] in
  json_loads j = Scanned d ->
  has_key d (T "name") = true -> has_key d (T "arguments") = true ->
  forall txt,
    (txt = pre ++ fenced j ++ post /\
     str_in (T "```tool") pre = false /\ str_in (T "```") j = false /\
     str_in (T "```tool") post = false /\ str_in (T "<tool_call>") txt = false /\
     forall m, In m (re_findall json_pattern txt) -> m = j \/ inert m) \/
    (txt = pre ++ tagged j ++ post /\
     str_in (T "<tool_call>") pre = false /\ str_in (T "</tool_call>") j = false /\
     str_in (T "<tool_call>") post = false /\ str_in (T "```tool") txt = false /\
     forall m, In m (re_findall json_pattern txt) -> m = j \/ inert m) \/
    (str_in (T "```tool") txt = false /\ str_in (T "<tool_call>") txt = false /\
     In j (re_findall json_pattern txt) /\
     forall m, In m (re_findall json_pattern txt) -> m = j \/ inert m) \/
    (txt = pre ++ j ++ post /\
     Matches json_pattern j [] /\ count_char left_brace j = 2 /\
     lacks left_brace pre = true /\ lacks left_brace post = true /\
     str_in (T "```tool") txt = false /\ str_in (T "<tool_call>") txt = false) ->
    parse_tool_calls_from_text txt = Returned [d].
Proof.
  intros j Hd Hname Hargs txt Htxt.
  assert (Ej : j = ch "{" :: (body ++ [ch "}"])) by reflexivity.
  assert (Ey : j = (ch "{" :: body) ++ [ch "}"]) by reflexivity.
  assert (Hstrip : str_strip j = j) by (apply (str_strip_visible Ej eq_refl Ey eq_refl)).
  assert (Hself : py_eq d d = true) by (apply py_eq_refl; now apply json_loads_wf in Hd).
  assert (Hknown : py_in d [d] = true).
  { unfold py_in. cbn [existsb]. now rewrite Hself. }
  unfold parse_tool_calls_from_text.
  destruct Htxt as [[-> [Hpre [Hj [Hpost [Htag H3]]]]] |
                    [[-> [Hpre [Hj [Hpost [Hfence H3]]]]] |
                     [[Hfence [Htag [Hin H3]]] |
                      [-> [Hm [Hcount [Cpre [Cpost [Hfence Htag]]]]]]]]].
  - rewrite (fenced_within Ej eq_refl Hpre Hj Hpost).
    rewrite (@append_decoded_one _ [] j d) by (now rewrite Hstrip).
    unfold tag_pattern at 1. rewrite (re_findall_absent _ Htag).
    cbn [append_decoded app]. now apply (append_new_known Hd).
  - unfold tool_block_pattern at 1. rewrite (re_findall_absent _ Hfence).
    cbn [append_decoded].
    rewrite (tagged_within Ej eq_refl Ey eq_refl Hpre Hj Hpost).
    rewrite (@append_decoded_one _ [] j d) by (now rewrite Hstrip).
    cbn [app]. now apply (append_new_known Hd).
  - unfold tool_block_pattern at 1. rewrite (re_findall_absent _ Hfence).
    unfold tag_pattern at 1. rewrite (re_findall_absent _ Htag).
    cbn [append_decoded].
    now apply (append_new_first Hd).
  - unfold tool_block_pattern at 1. rewrite (re_findall_absent _ Hfence).
    unfold tag_pattern at 1. rewrite (re_findall_absent _ Htag).
    cbn [append_decoded].
    rewrite (bare_found Hm Hcount Cpre Cpost).
    cbn [append_new]. rewrite Hd, Hname, Hargs. reflexivity.
Qed.

(** The call of the system prompt's example in each convention, in a
    text with a backquote and a [<] of its own; a fenced call that
    writes a line with braces; and the bare call behind a sentence with
    braces of its own. *)
Lemma one_call_extracted_witness :
  let j := call_text (T "read_file") [(T "path", T "README.md")] in
  let d := call_value (T "read_file") [(T "path", T "README.md")] in
  let k := call_text (T "write_file") [(T "path", T "a.py"); (T "content", T "x = {}")] in
  let e := call_value (T "write_file") [(T "path", T "a.py"); (T "content", T "x = {}")] in
  let pre := T "If `README.md` has < 10 lines, I stop. " in
  parse_tool_calls_from_text (H := scripted) (pre ++ fenced j ++ T " Wait.") = Returned [d] /\
  parse_tool_calls_from_text (H := scripted) (pre ++ tagged j ++ T " Wait.") = Returned [d] /\
  parse_tool_calls_from_text (H := scripted) (T "Reading. " ++ j ++ T " Wait.") =
    Returned [d] /\
  parse_tool_calls_from_text (H := scripted) (pre ++ fenced k ++ T " Wait.") = Returned [e] /\
  parse_tool_calls_from_text (H := scripted) (T "Not {this}. " ++ j ++ T " Wait.") =
    Returned [d].
Proof.
  intros j d k e pre.
  assert (Hj : j = ch "{" :: removelast (skipn 1 j) ++ [ch "}"]) by (vm_compute; reflexivity).
  assert (Hk : k = ch "{" :: removelast (skipn 1 k) ++ [ch "}"]) by (vm_compute; reflexivity).
  assert (Fj : re_findall json_pattern (pre ++ fenced j ++ T " Wait.") = [j])
    by (vm_compute; reflexivity).
  assert (Tj : re_findall json_pattern (pre ++ tagged j ++ T " Wait.") = [j])
    by (vm_compute; reflexivity).
  assert (Fk : re_findall json_pattern (pre ++ fenced k ++ T " Wait.") = [])
    by (vm_compute; reflexivity).
  assert (Bj : re_findall json_pattern (T "Not {this}. " ++ j ++ T " Wait.") = [j])
    by (vm_compute; reflexivity).
  assert (Mj : Matches json_pattern j [])
    by (apply (@re_exec_sound json_pattern j no_groups [] no_groups);
        vm_compute; reflexivity).
  split; [| split; [| split; [| split]]].
  - apply (@one_call_extracted scripted pre (T " Wait.") (removelast (skipn 1 j)) d);
      [vm_compute; reflexivity | vm_compute; reflexivity | vm_compute; reflexivity |].
    left. rewrite <- Hj.
    split; [reflexivity |]. split; [vm_compute; reflexivity |].
    split; [vm_compute; reflexivity |]. split; [vm_compute; reflexivity |].
    split; [vm_compute; reflexivity |].
    intros m Hm. rewrite Fj in Hm. destruct Hm as [<- | []]. now left.
  - apply (@one_call_extracted scripted pre (T " Wait.") (removelast (skipn 1 j)) d);
      [vm_compute; reflexivity | vm_compute; reflexivity | vm_compute; reflexivity |].
    right. left. rewrite <- Hj.
    split; [reflexivity |]. split; [vm_compute; reflexivity |].
    split; [vm_compute; reflexivity |]. split; [vm_compute; reflexivity |].
    split; [vm_compute; reflexivity |].
    intros m Hm. rewrite Tj in Hm. destruct Hm as [<- | []]. now left.
  - apply (@one_call_extracted scripted (T "Reading. ") (T " Wait.")
             (removelast (skipn 1 j)) d);
      [vm_compute; reflexivity | vm_compute; reflexivity | vm_compute; reflexivity |].
    right. right. right. rewrite <- Hj.
    split; [reflexivity |]. split; [exact Mj |].
    split; [vm_compute; reflexivity |]. split; [vm_compute; reflexivity |].
    split; [vm_compute; reflexivity |]. split; vm_compute; reflexivity.
  - apply (@one_call_extracted scripted pre (T " Wait.") (removelast (skipn 1 k)) e);
      [vm_compute; reflexivity | vm_compute; reflexivity | vm_compute; reflexivity |].
    left. rewrite <- Hk.
    split; [reflexivity |]. split; [vm_compute; reflexivity |].
    split; [vm_compute; reflexivity |]. split; [vm_compute; reflexivity |].
    split; [vm_compute; reflexivity |].
    intros m Hm. rewrite Fk in Hm. destruct Hm.
  - apply (@one_call_extracted scripted [] [] (removelast (skipn 1 j)) d);
      [vm_compute; reflexivity | vm_compute; reflexivity | vm_compute; reflexivity |].
    right. right. left. rewrite <- Hj.
    split; [vm_compute; reflexivity |]. split; [vm_compute; reflexivity |].
    rewrite Bj. split; [now left |].
    intros m Hm. destruct Hm as [<- | []]. now left.
Defined.

(** C3, as it is stated, fails.  A call that writes a line with braces
    is well formed, with a string for the name and an object for the
    arguments, but written bare it is not found at all; a fenced call
    whose argument is itself a call is found together with that
    argument; and a fenced call that writes a code fence with a brace in
    it is cut at that fence and lost. *)
Lemma bare_call_with_braces_missed :
  let j := call_text (T "write_file") [(T "path", T "a.py"); (T "content", T "x = {}")] in
  let d := call_value (T "write_file") [(T "path", T "a.py"); (T "content", T "x = {}")] in
  let inner := call_text (T "read_file") [(T "path", T "a.py")] in
  let outer := T "{" ++ dq ++ T "name" ++ dq ++ T ": " ++ dq ++ T "plan" ++ dq ++ T ", " ++
               dq ++ T "arguments" ++ dq ++ T ": {" ++ dq ++ T "first" ++ dq ++ T ": " ++
               inner ++ T "}}" in
  let note := call_text (T "write_file")
                [(T "path", T "a.md"); (T "content", T "```py {x} ```")] in
  (json_loads (H := scripted) j = Scanned d /\
   parse_tool_calls_from_text (H := scripted) j = Returned [] /\
   parse_tool_calls_from_text (H := scripted) (fenced j) = Returned [d]) /\
  (json_loads (H := scripted) outer =
     Scanned (JObj [(T "name", JStr (T "plan"));
                    (T "arguments",
                     JObj [(T "first", call_value (T "read_file") [(T "path", T "a.py")])])]) /\
   exists a b, parse_tool_calls_from_text (H := scripted) (fenced outer) = Returned [a; b]) /\
  (json_loads (H := scripted) note =
     Scanned (call_value (T "write_file")
                [(T "path", T "a.md"); (T "content", T "```py {x} ```")]) /\
   parse_tool_calls_from_text (H := scripted) (fenced note) = Returned []).
Proof.
  vm_compute. repeat split; try reflexivity. do 2 eexists. reflexivity.
Qed.

(** C10, as the code has it.  A text holds the same call [j], an object
    written between braces, once in a fenced tool block and once in a
    tag pair, in either order.  The call holds no [```] and no
    [</tool_call>]; no [```tool] stands before or behind the block and
    no [<tool_call>] before or behind the pair; and [json.loads] raises
    nothing but [JSONDecodeError] on what the third pattern finds.  Then
    the extractor returns the value of [j] twice, at the head of its
    list, for the first and the second pattern do not compare what they
    find; what the third pattern adds behind is equal to nothing found
    before.  The loop dispatches the list in order: the tool of the call
    is run, and when it has returned it is run again with the same
    arguments, before anything else of the turn. *)
Theorem same_call_extracted_twice `{Host} (pre mid post body : text) (d : json) :
  let j := ch "{" :: body ++ [ch "}"] in
  json_loads j = Scanned d ->
  str_in (T "```") j = false -> str_in (T "</tool_call>") j = false ->
  forall txt,
    (txt = pre ++ fenced j ++ mid ++ tagged j ++ post /\
     str_in (T "```tool") pre = false /\
     str_in (T "```tool") (mid ++ tagged j ++ post) = false /\
     str_in (T "<tool_call>") (pre ++ fenced j ++ mid) = false /\
     str_in (T "<tool_call>") post = false) \/
    (txt = pre ++ tagged j ++ mid ++ fenced j ++ post /\
     str_in (T "<tool_call>") pre = false /\
     str_in (T "<tool_call>") (mid ++ fenced j ++ post) = false /\
     str_in (T "```tool") (pre ++ tagged j ++ mid) = false /\
     str_in (T "```tool") post = false) ->
    (forall m, In m (re_findall json_pattern txt) -> forall e, json_loads m <> Failed e) ->
    exists extras,
      parse_tool_calls_from_text txt = Returned (d :: d :: extras) /\
      (forall x, In x extras -> py_eq d x = false) /\
      forall (tool_results : list text) (all_messages : list json) (w : World),
        dispatch_all (d :: d :: extras) tool_results all_messages w =
          let (r1, w1) := execute_tool w (call_name d) (call_arguments d) in
          match r1 with
          | Raised e => (Raised e, w1)
          | Returned t1 =>
              let (r2, w2) := execute_tool w1 (call_name d) (call_arguments d) in
              match r2 with
              | Raised e => (Raised e, w2)
              | Returned t2 =>
                  dispatch_all extras
                    ((tool_results ++ [result_line (call_name d) t1]) ++
                     [result_line (call_name d) t2])
                    ((all_messages ++ [tool_message (call_name d) t1]) ++
                     [tool_message (call_name d) t2]) w2
              end
          end.
Proof.
  intros j Hd Bj Lj txt Htxt Hok.
  assert (Ej : j = ch "{" :: (body ++ [ch "}"])) by reflexivity.
  assert (Ey : j = (ch "{" :: body) ++ [ch "}"]) by reflexivity.
  assert (Hstrip : str_strip j = j) by (apply (str_strip_visible Ej eq_refl Ey eq_refl)).
  assert (P1 : re_findall tool_block_pattern txt = [j]).
  { destruct Htxt as [[-> [A [B _]]] | [-> [_ [_ [A B]]]]].
    - now apply (fenced_within Ej eq_refl).
    - replace (pre ++ tagged j ++ mid ++ fenced j ++ post)
        with ((pre ++ tagged j ++ mid) ++ fenced j ++ post)
        by (now rewrite <- !app_assoc).
      now apply (fenced_within Ej eq_refl). }
  assert (P2 : re_findall tag_pattern txt = [j]).
  { destruct Htxt as [[-> [_ [_ [A B]]]] | [-> [A [B _]]]].
    - replace (pre ++ fenced j ++ mid ++ tagged j ++ post)
        with ((pre ++ fenced j ++ mid) ++ tagged j ++ post)
        by (now rewrite <- !app_assoc).
      now apply (tagged_within Ej eq_refl Ey eq_refl).
    - now apply (tagged_within Ej eq_refl Ey eq_refl). }
  destruct (append_new_extras Hok (([] ++ [d]) ++ [d])) as [extras [E Hnew]].
  exists extras. split; [| split].
  - unfold parse_tool_calls_from_text. rewrite P1, P2.
    rewrite (@append_decoded_one _ [] j d) by (now rewrite Hstrip).
    rewrite (@append_decoded_one _ ([] ++ [d]) j d) by (now rewrite Hstrip).
    exact E.
  - intros x Hx. apply (Hnew x d Hx). now left.
  - intros tool_results all_messages w.
    destruct (json_loads_object Hd) as [dd ->].
    cbn [dispatch_all py_get]. fold (call_name (JObj dd)) (call_arguments (JObj dd)).
    destruct (execute_tool w (call_name (JObj dd)) (call_arguments (JObj dd)))
      as [[t1 | e] w1]; [| reflexivity].
    destruct (execute_tool w1 (call_name (JObj dd)) (call_arguments (JObj dd)))
      as [[t2 | e] w2]; reflexivity.
Qed.

(** A model that writes the same shell call in both conventions gets the
    command run twice. *)
Lemma same_call_extracted_twice_witness :
  let call := call_text (T "bash") [(T "command", T "echo hi")] in
  let d := call_value (T "bash") [(T "command", T "echo hi")] in
  let turn := T "Run `echo`: " ++ fenced call ++ T " and <again> " ++ tagged call ++ [] in
  (exists extras, parse_tool_calls_from_text (H := scripted) turn =
                    Returned (d :: d :: extras)) /\
  parse_tool_calls_from_text (H := scripted) turn = Returned [d; d] /\
  filter is_shell
    (@trace scripted (snd (@run_agent_loop scripted (boot [] [turn; T "done"])
                             (T "say hi") (T "m") 20))) =
    [EvShell (T "echo hi"); EvShell (T "echo hi")].
Proof.
  intros call d turn.
  assert (Hc : call = ch "{" :: removelast (skipn 1 call) ++ [ch "}"])
    by (vm_compute; reflexivity).
  assert (F3 : re_findall json_pattern turn = [call; call]) by (vm_compute; reflexivity).
  split; [| split; vm_compute; reflexivity].
  destruct (@same_call_extracted_twice scripted (T "Run `echo`: ") (T " and <again> ") []
              (removelast (skipn 1 call)) d) with (txt := turn) as [extras [Hp _]].
  - vm_compute. reflexivity.
  - vm_compute. reflexivity.
  - vm_compute. reflexivity.
  - left. rewrite <- Hc.
    split; [reflexivity |]. split; [vm_compute; reflexivity |].
    split; [vm_compute; reflexivity |]. split; vm_compute; reflexivity.
  - intros m Hm e. rewrite F3 in Hm.
    destruct Hm as [<- | [<- | []]]; vm_compute; discriminate.
  - exists extras. exact Hp.
Defined.

(** C10, as it is stated, fails.  A call that writes a code fence holds
    three backquotes in an argument: the fenced block around it is cut
    at them and does not decode, so the call written in both conventions
    is returned once and its tool is run once. *)
Lemma fence_in_call_found_once :
  let call := call_text (T "write_file") [(T "path", T "a.md"); (T "content", T "```")] in
  let d := call_value (T "write_file") [(T "path", T "a.md"); (T "content", T "```")] in
  let turn := fenced call ++ T " and " ++ tagged call in
  json_loads (H := scripted) call = Scanned d /\
  parse_tool_calls_from_text (H := scripted) turn = Returned [d] /\
  filter is_write
    (@trace scripted (snd (@run_agent_loop scripted (boot [] [turn; T "done"])
                             (T "write it") (T "m") 20))) =
    [EvWrite (T "/repo/a.md") (T "```")].
Proof. vm_compute. repeat split; reflexivity. Qed.

(* ================================================================== *)
(** * The history sent to the model *)

Section History.
Context `{Host}.






End History.


(** X2.  A text without a backquote, without [<] and without a left
    brace holds no tool call: each of the three patterns begins with one
    of these characters. *)
Theorem no_tool_syntax_no_calls `{Host} (txt : text) :
  lacks backquote txt = true ->
  lacks less_than txt = true ->
  lacks left_brace txt = true ->
  parse_tool_calls_from_text txt = Returned [].
Proof.
  intros Hb Hl Hc. unfold parse_tool_calls_from_text.
  change tool_block_pattern
    with (lit (backquote :: T "``tool") ++
          [sp; Opt newline; GOpen; Lazy any_char; GClose; Opt newline] ++ lit (T "```")).
  rewrite (re_findall_lacks _ _ Hb).
  change tag_pattern
    with (lit (less_than :: T "tool_call>") ++
          [sp; GOpen; Lazy any_char; GClose; sp] ++ lit (T "</tool_call>")).
  rewrite (re_findall_lacks _ _ Hl).
  unfold json_pattern.
  change (lit (T "{")) with (lit (left_brace :: [])) at 1.
  rewrite (re_findall_lacks _ _ Hc).
  reflexivity.
Qed.

Lemma no_tool_syntax_no_calls_witness :
  @parse_tool_calls_from_text scripted (T "The file has 3 lines. Done.") = Returned [].
Proof. apply (@no_tool_syntax_no_calls scripted); reflexivity. Defined.

(** X3.  When the first answer of the model has such a content, the run
    is over after one request: the content is the final response, the
    message is the only one recorded, and the request is the only effect,
    whatever [max_iterations] is, as long as it is at least 1. *)
Theorem plain_reply_ends_run `{Host} (w : World) (task mdl : text) (max_iterations : Z)
        (o1 : OS) (resp : response) (body msg : json) (content : text) :
  (1 <= max_iterations)%Z ->
  http_post (os w) chat_url (chat_payload mdl (initial_messages task)) =
    (o1, Returned resp) ->
  status_code resp = 200%Z ->
  resp_json resp = Returned body ->
  py_get body (T "message") (JObj []) = Returned msg ->
  py_get msg (T "content") (JStr []) = Returned (JStr content) ->
  lacks backquote content = true ->
  lacks less_than content = true ->
  lacks left_brace content = true ->
  run_agent_loop w task mdl max_iterations =
    (Returned (content, [msg]),
     emit w o1 (EvPost chat_url (chat_payload mdl (initial_messages task)))).
Proof.
  intros Hmax Hpost Hst Hjson Hmsg Hc Hb Hl Hbr.
  unfold run_agent_loop, run_tagged.
  destruct (Z.to_nat max_iterations) as [| n] eqn:En; [lia |].
  cbn [agent_loop]. unfold chat_with_ollama. fold (chat_payload mdl (initial_messages task)).
  rewrite Hpost, Hst. cbn [Z.eqb Pos.eqb negb]. rewrite Hjson, Hmsg, Hc.
  rewrite (no_tool_syntax_no_calls Hb Hl Hbr). reflexivity.
Qed.

Lemma plain_reply_ends_run_witness :
  @run_agent_loop scripted (boot [] [T "All done."; T "never asked for"]) (T "say hello")
                  (T "m") 20 =
  (Returned (T "All done.",
             [JObj [(T "role", JStr (T "assistant")); (T "content", JStr (T "All done."))]]),
   emit (boot [] [T "All done."; T "never asked for"])
        (mkScript [] [T "never asked for"] (mkCompleted [] [] 0) [])
        (EvPost (@chat_url scripted) (chat_payload (T "m") (initial_messages (T "say hello"))))).
Proof.
  apply (@plain_reply_ends_run scripted) with
    (resp := mkResponse 200 []
               (Returned (JObj [(T "message",
                                 JObj [(T "role", JStr (T "assistant"));
                                       (T "content", JStr (T "All done."))])])))
    (body := JObj [(T "message", JObj [(T "role", JStr (T "assistant"));
                                       (T "content", JStr (T "All done."))])]);
    try reflexivity.
  lia.
Defined.

(** X4.  A fenced block or a tag pair may hold any JSON value, and the
    first two patterns take what decodes as a call.  When the first call
    of a turn is not an object, [tool_call.get] raises [AttributeError];
    the exception leaves [run_agent_loop], and no tool has been run: the
    world is the one the chat request left. *)
Theorem malformed_call_aborts `{Host} (w w1 : World) (task mdl : text) (max_iterations : Z)
        (resp msg call : json) (content : text) (rest : list json) :
  (1 <= max_iterations)%Z ->
  chat_with_ollama w (initial_messages task) mdl = (Returned resp, w1) ->
  py_get resp (T "message") (JObj []) = Returned msg ->
  py_get msg (T "content") (JStr []) = Returned (JStr content) ->
  parse_tool_calls_from_text content = Returned (call :: rest) ->
  (forall d, call <> JObj d) ->
  exists e,
    run_agent_loop w task mdl max_iterations = (Raised e, w1) /\
    exn_cls e = AttributeError.
Proof.
  intros Hmax Hchat Hmsg Hc Hp Hcall.
  unfold run_agent_loop, run_tagged.
  destruct (Z.to_nat max_iterations) as [| n] eqn:En; [lia |].
  cbn [agent_loop]. rewrite Hchat, Hmsg, Hc, Hp. cbn [dispatch_all].
  unfold py_get at 1.
  destruct call as [| b | z | l | s | l | d];
    try (eexists; split; [reflexivity | reflexivity]).
  now destruct (Hcall d).
Qed.

Lemma malformed_call_aborts_witness :
  exists e,
    @run_agent_loop scripted (boot [] [fenced (T "[1, 2]")]) (T "list files") (T "m") 20 =
      (Raised e,
       snd (@chat_with_ollama scripted (boot [] [fenced (T "[1, 2]")])
              (initial_messages (T "list files")) (T "m"))) /\
    exn_cls e = AttributeError.
Proof.
  eapply (@malformed_call_aborts scripted) with (call := JArr [JInt 1; JInt 2]) (rest := []);
    try (vm_compute; reflexivity).
  - lia.
  - intros d; discriminate.
Defined.

(* ================================================================== *)
(** * The order of extraction *)

(** X5.  Calls are dispatched by convention, not by their place in the
    text.  A text holds a call in a tag pair and, behind it, another
    call in a fenced block; the first holds no [</tool_call>] and the
    second no [```], no [<tool_call>] stands before or behind the pair
    and no [```tool] before or behind the block, and [json.loads] raises
    nothing but [JSONDecodeError] on what the third pattern finds.  Then
    the extractor lists the fenced call first. *)
Theorem fenced_calls_come_first `{Host} (pre mid post body1 body2 : text) (d1 d2 : json) :
  let j1 := ch "{" :: body1 ++ [ch "}"] in
  let j2 := ch "{" :: body2 ++ [ch "}"] in
  let txt := pre ++ tagged j1 ++ mid ++ fenced j2 ++ post in
  json_loads j1 = Scanned d1 ->
  json_loads j2 = Scanned d2 ->
  str_in (T "</tool_call>") j1 = false ->
  str_in (T "```") j2 = false ->
  str_in (T "<tool_call>") pre = false ->
  str_in (T "<tool_call>") (mid ++ fenced j2 ++ post) = false ->
  str_in (T "```tool") (pre ++ tagged j1 ++ mid) = false ->
  str_in (T "```tool") post = false ->
  (forall m, In m (re_findall json_pattern txt) -> forall e, json_loads m <> Failed e) ->
  exists extras,
    parse_tool_calls_from_text txt = Returned (d2 :: d1 :: extras).
Proof.
  intros j1 j2 txt Hd1 Hd2 L1 B2 Lpre Lpost Bpre Bpost Hok.
  assert (E1 : j1 = ch "{" :: (body1 ++ [ch "}"])) by reflexivity.
  assert (Y1 : j1 = (ch "{" :: body1) ++ [ch "}"]) by reflexivity.
  assert (E2 : j2 = ch "{" :: (body2 ++ [ch "}"])) by reflexivity.
  assert (Y2 : j2 = (ch "{" :: body2) ++ [ch "}"]) by reflexivity.
  assert (S1 : str_strip j1 = j1) by (apply (str_strip_visible E1 eq_refl Y1 eq_refl)).
  assert (S2 : str_strip j2 = j2) by (apply (str_strip_visible E2 eq_refl Y2 eq_refl)).
  assert (P1 : re_findall tool_block_pattern txt = [j2]).
  { unfold txt.
    replace (pre ++ tagged j1 ++ mid ++ fenced j2 ++ post)
      with ((pre ++ tagged j1 ++ mid) ++ fenced j2 ++ post)
      by (now rewrite <- !app_assoc).
    now apply (fenced_within E2 eq_refl). }
  assert (P2 : re_findall tag_pattern txt = [j1]).
  { unfold txt. now apply (tagged_within E1 eq_refl Y1 eq_refl). }
  destruct (append_new_extras Hok (([] ++ [d2]) ++ [d1])) as [extras [E _]].
  exists extras. unfold parse_tool_calls_from_text. rewrite P1, P2.
  rewrite (@append_decoded_one _ [] j2 d2) by (now rewrite S2).
  rewrite (@append_decoded_one _ ([] ++ [d2]) j1 d1) by (now rewrite S1).
  exact E.
Qed.

(** The model asks to write a file and then to read it; the file is read
    before it is written. *)
Lemma fenced_calls_come_first_witness :
  let write := call_text (T "write_file") [(T "path", T "a.txt"); (T "content", T "new")] in
  let read := call_text (T "read_file") [(T "path", T "a.txt")] in
  let turn := T "First " ++ tagged write ++ T " then " ++ fenced read ++ T " done" in
  (exists extras,
     parse_tool_calls_from_text (H := scripted) turn =
       Returned (call_value (T "read_file") [(T "path", T "a.txt")] ::
                 call_value (T "write_file") [(T "path", T "a.txt"); (T "content", T "new")] ::
                 extras)) /\
  tool_messages
    [call_value (T "read_file") [(T "path", T "a.txt")];
     call_value (T "write_file") [(T "path", T "a.txt"); (T "content", T "new")]]
    [T "Error: File not found: /repo/a.txt"; T "Successfully wrote to /repo/a.txt"] =
  skipn 1 (recorded_by
             (fst (@run_tagged scripted (boot [] [turn]) (T "go") (T "m") 1))).
Proof.
  intros write read turn.
  assert (Hw : write = ch "{" :: removelast (skipn 1 write) ++ [ch "}"])
    by (vm_compute; reflexivity).
  assert (Hr : read = ch "{" :: removelast (skipn 1 read) ++ [ch "}"])
    by (vm_compute; reflexivity).
  assert (F3 : re_findall json_pattern turn = [write; read]) by (vm_compute; reflexivity).
  split; [| vm_compute; reflexivity].
  apply (@fenced_calls_come_first scripted (T "First ") (T " then ") (T " done")
           (removelast (skipn 1 write)) (removelast (skipn 1 read)));
    try rewrite <- Hw; try rewrite <- Hr.
  1-8: vm_compute; reflexivity.
  intros m Hm e. fold turn in Hm. rewrite F3 in Hm.
  destruct Hm as [<- | [<- | []]]; vm_compute; discriminate.
Defined.

(* ================================================================== *)
(** * Dispatch and the effects of the tools *)

Section DispatchFacts.
Context `{Host}.

Lemma dict_get_getitem (d : list (text * json)) (k : text) :
  dict_get d k <> None -> exists v, dict_get d k = Some v /\ py_getitem (JObj d) k = Returned v.
Proof.
  intros Hk. unfold py_getitem. destruct (dict_get d k) as [v |]; [| congruence].
  now exists v.
Qed.

End DispatchFacts.

(** The dispatch under a string as name, with every argument the tool
    reads in place. *)
Lemma execute_tool_named_complete `{Host} (w : World) (name : text)
      (d : list (text * json)) :
  (forall k, In k (required_arguments name) -> dict_get d k <> None) ->
  (name = T "bash" -> exists command, dict_get d (T "command") = Some (JStr command)) ->
  exists tool_result, fst (execute_tool w (JStr name) (JObj d)) = Returned tool_result.
Proof.
  intros Hreq Hbash. unfold execute_tool.
  destruct (registered name) eqn:Er; cbn [negb]; [| eexists; reflexivity].
  unfold registered, tool_names in Er. cbn [existsb] in Er.
  unfold required_arguments in Hreq.
  destruct (text_eqb name (T "read_file")) eqn:E1.
  { destruct (dict_get_getitem (Hreq (T "path") ltac:(cbn; auto))) as [v [_ ->]].
    cbn [bind fst]. eexists; reflexivity. }
  destruct (text_eqb name (T "write_file")) eqn:E2.
  { destruct (dict_get_getitem (Hreq (T "path") ltac:(cbn; auto))) as [v [_ ->]].
    destruct (dict_get_getitem (Hreq (T "content") ltac:(cbn; auto))) as [v2 [_ ->]].
    cbn [bind]. destruct (tool_write_file w v v2). eexists; reflexivity. }
  destruct (text_eqb name (T "edit_file")) eqn:E3.
  { destruct (dict_get_getitem (Hreq (T "path") ltac:(cbn; auto))) as [v [_ ->]].
    destruct (dict_get_getitem (Hreq (T "old_string") ltac:(cbn; auto))) as [v2 [_ ->]].
    destruct (dict_get_getitem (Hreq (T "new_string") ltac:(cbn; auto))) as [v3 [_ ->]].
    cbn [bind]. destruct (tool_edit_file w v v2 v3). eexists; reflexivity. }
  destruct (text_eqb name (T "bash")) eqn:E4.
  { apply text_eqb_eq in E4. destruct (Hbash E4) as [command Hc].
    unfold py_getitem. rewrite Hc. cbn [bind tool_bash].
    destruct (is_dangerous command); [eexists; reflexivity |].
    destruct (os_shell (os w) command get_project_root) as [o1 [done | e]];
      eexists; reflexivity. }
  destruct (text_eqb name (T "glob_search")) eqn:E5.
  { destruct (dict_get_getitem (Hreq (T "pattern") ltac:(cbn; auto))) as [v [_ ->]].
    cbn [bind py_get]. eexists; reflexivity. }
  destruct (text_eqb name (T "grep_search")) eqn:E6; [| discriminate Er].
  destruct (dict_get_getitem (Hreq (T "pattern") ltac:(cbn; auto))) as [v [_ ->]].
  cbn [bind py_get].
  match goal with |- context [tool_grep_search ?a ?b ?c ?e] =>
    destruct (tool_grep_search a b c e) end.
  eexists; reflexivity.
Qed.

(** X6.  With an object as [arguments] that has every key the lambda of
    the tool reads with [args[...]], and, for [bash], a string as the
    command, [execute_tool] returns a text: nothing is raised, whatever
    the values of the other arguments and the host, for every name that
    can be hashed: a string, registered or not, [None], a bool or a
    number.  A list or a dict as name is left out: the lookup cannot
    hash it and raises [TypeError]. *)
Theorem execute_tool_complete `{Host} (w : World) (name : json) (d : list (text * json)) :
  (forall l, name <> JArr l) -> (forall d', name <> JObj d') ->
  (forall n k, name = JStr n -> In k (required_arguments n) -> dict_get d k <> None) ->
  (name = JStr (T "bash") ->
   exists command, dict_get d (T "command") = Some (JStr command)) ->
  exists tool_result, fst (execute_tool w name (JObj d)) = Returned tool_result.
Proof.
  intros Hl Hd Hreq Hbash.
  destruct name as [| b | z | l | n | l | d'];
    try (eexists; reflexivity).
  - apply execute_tool_named_complete.
    + intros k Hk. now apply (Hreq n k).
    + intros ->. now apply Hbash.
  - now destruct (Hl l).
  - now destruct (Hd d').
Qed.

Lemma execute_tool_complete_witness :
  (exists tool_result,
     fst (@execute_tool scripted (boot [] []) (JStr (T "write_file"))
            (JObj [(T "path", JStr (T "a.txt")); (T "content", JInt 3)])) =
     Returned tool_result) /\
  (exists tool_result,
     fst (@execute_tool scripted (boot [] []) JNull (JObj [])) = Returned tool_result).
Proof.
  split; apply (@execute_tool_complete scripted); try discriminate.
  intros n k E Hk. injection E as <-. vm_compute in Hk.
  destruct Hk as [<- | [<- | []]]; vm_compute; discriminate.
Defined.

Section EffectFacts.
Context `{Host}.

Lemma extends_one (w : World) (o : OS) (e : event) (P : event -> Prop) :
  P e -> exists evs, extends w (emit w o e) evs /\ Forall P evs.
Proof. intros He. exists [e]. split; [apply extends_emit | now constructor]. Qed.

Lemma extends_none (w : World) (P : event -> Prop) :
  exists evs, extends w w evs /\ Forall P evs.
Proof. exists []. split; [apply extends_refl | constructor]. Qed.

Lemma extends_two (w : World) (o o' : OS) (e e' : event) (P : event -> Prop) :
  P e -> P e' -> exists evs, extends w (emit (emit w o e) o' e') evs /\ Forall P evs.
Proof.
  intros He He'. exists [e; e']. split; [| now repeat constructor].
  eapply (extends_trans (a := [e]) (b := [e'])); apply extends_emit.
Qed.

Lemma bind_effects {A B : Type} (r : result A) (k : A -> result B * World) (w : World)
      (P : event -> Prop) :
  (forall a, exists evs, extends w (snd (k a)) evs /\ Forall P evs) ->
  exists evs, extends w (snd (bind r k w)) evs /\ Forall P evs.
Proof. intros Hk. destruct r as [a | e]; cbn [bind snd]; [apply Hk | apply extends_none]. Qed.

End EffectFacts.

(** X7.  The effects of one dispatch are those of its tool.  A shell
    is started only under the name [bash]; a file is opened for writing
    only under [write_file] and [edit_file]; directories are made only
    under [write_file]; another process is started only under
    [grep_search], and it is [grep]; no dispatch sends a chat request.
    So [read_file], [glob_search] and every unknown name cause no effect
    at all. *)
Theorem execute_tool_effects `{Host} (w : World) (name arguments : json) :
  exists evs,
    extends w (snd (execute_tool w name arguments)) evs /\
    Forall (may_cause name) evs.
Proof.
  unfold execute_tool.
  destruct name as [| b | z | l | n | l | d]; cbn [snd]; try apply extends_none.
  destruct (registered n) eqn:Er; cbn [negb snd]; [| apply extends_none].
  unfold registered, tool_names in Er. cbn [existsb] in Er.
  destruct (text_eqb n (T "read_file")) eqn:E1.
  { apply bind_effects. intros a. apply extends_none. }
  destruct (text_eqb n (T "write_file")) eqn:E2.
  { apply text_eqb_eq in E2. subst n.
    apply bind_effects. intros path. apply bind_effects. intros content.
    unfold tool_write_file.
    destruct (resolve path) as [p | e]; cbn [snd]; [| apply extends_none].
    destruct (os_makedirs (os w) (dirname p)) as [o1 [e |]]; cbn [snd].
    - apply extends_one. reflexivity.
    - match goal with |- context [os_write ?o ?q ?c] =>
        destruct (os_write o q c) as [o2 [e |]] end; cbn [snd].
      + apply extends_two; [reflexivity | now left].
      + destruct content; cbn [snd]; apply extends_two; (reflexivity || now left). }
  destruct (text_eqb n (T "edit_file")) eqn:E3.
  { apply text_eqb_eq in E3. subst n.
    apply bind_effects. intros path. apply bind_effects. intros old_string.
    apply bind_effects. intros new_string.
    unfold tool_edit_file.
    destruct (resolve path) as [p | e]; cbn [snd]; [| apply extends_none].
    destruct (os_read (os w) p) as [content | e]; cbn [snd]; [| apply extends_none].
    destruct old_string as [| b | z | l | old | l | d]; cbn [snd]; try apply extends_none.
    destruct (negb (str_in old content)); cbn [snd]; [apply extends_none |].
    destruct (1 <? str_count content old); cbn [snd]; [apply extends_none |].
    destruct new_string as [| b | z | l | new | l | d]; cbn [snd]; try apply extends_none.
    destruct (os_write (os w) p (str_replace content old new)) as [o1 [e |]]; cbn [snd];
      apply extends_one; now right. }
  destruct (text_eqb n (T "bash")) eqn:E4.
  { apply text_eqb_eq in E4. subst n.
    apply bind_effects. intros command. unfold tool_bash.
    destruct command as [| b | z | l | c | l | d]; cbn [snd]; try apply extends_none.
    destruct (is_dangerous c); cbn [snd]; [apply extends_none |].
    destruct (os_shell (os w) c get_project_root) as [o1 [done | e]]; cbn [snd];
      apply extends_one; reflexivity. }
  destruct (text_eqb n (T "glob_search")) eqn:E5.
  { apply bind_effects. intros pattern. apply bind_effects. intros path.
    apply extends_none. }
  destruct (text_eqb n (T "grep_search")) eqn:E6; [| discriminate Er].
  apply text_eqb_eq in E6. subst n.
  apply bind_effects. intros pattern. apply bind_effects. intros path.
  apply bind_effects. intros file_pattern.
  unfold tool_grep_search.
  destruct (search_root path) as [search_path | e]; cbn [snd]; [| apply extends_none].
  destruct (if truthy file_pattern then file_pattern else JStr (T "*"))
    as [| b | z | l | fp | l | d]; cbn [snd]; try apply extends_none.
  destruct pattern as [| b | z | l | pat | l | d]; cbn [snd]; try apply extends_none.
  match goal with |- context [os_spawn ?o ?c] =>
    destruct (os_spawn o c) as [o1 [done | e]] end; cbn [snd].
  - destruct (proc_stdout done); cbn [snd]; apply extends_one; now split.
  - apply extends_one. now split.
Qed.

(** X8.  [tool_write_file] with a content that is not a string: the
    directories are made and the file is opened, and so emptied, before
    [f.write] rejects the content.  The answer is an error, and the file
    has lost what it held. *)
Theorem tool_write_file_empties `{Host} (w : World) (path : text) (content : json)
        (o1 o2 : OS) :
  (forall s, content <> JStr s) ->
  os_makedirs (os w) (dirname (resolved path)) = (o1, None) ->
  os_write o1 (resolved path) [] = (o2, None) ->
  tool_write_file w (JStr path) content =
    (T "Error writing file: " ++ wrong_type (T "write") content,
     emit (emit w o1 (EvMakedirs (dirname (resolved path)))) o2
          (EvWrite (resolved path) [])).
Proof.
  intros Hc Hmk Hwr. unfold tool_write_file. cbn [resolve]. fold (resolved path).
  rewrite Hmk.
  assert (E : match content with JStr c => c | _ => [] end = []).
  { destruct content; try reflexivity. now destruct (Hc s). }
  rewrite E. unfold emit. cbn [os]. rewrite Hwr.
  destruct content; try reflexivity. now destruct (Hc s).
Qed.

Lemma tool_write_file_empties_witness :
  let w := boot [(T "/repo/notes.txt", T "keep me")] [] in
  let (t, w') := @tool_write_file scripted w (JStr (T "notes.txt")) (JInt 7) in
  t = T "Error writing file: bad operand for write" /\
  @os_read scripted (@os scripted w') (T "/repo/notes.txt") = Returned [].
Proof.
  intros w.
  rewrite (@tool_write_file_empties scripted w (T "notes.txt") (JInt 7)
             (@os scripted w)
             (mkScript [(T "/repo/notes.txt", [])] [] (mkCompleted [] [] 0) []));
    [split; reflexivity | discriminate | reflexivity | reflexivity].
Defined.

Section Replacing.
Variables old new : text.

Lemma replace_scan_none (s : text) :
  forall k, count_scan old s k = 0 -> replace_scan old new s k = skipn k s.
Proof.
  induction s as [| c s IH]; intros k Hk.
  - now destruct k.
  - destruct k as [| k]; cbn [count_scan replace_scan skipn] in *.
    + destruct (starts_with old (c :: s)); [discriminate |].
      rewrite (IH 0 Hk). reflexivity.
    + now apply IH.
Qed.

Lemma replace_scan_once (s : text) :
  old <> [] ->
  count_scan old s 0 = 1 ->
  exists a b, s = a ++ old ++ b /\ replace_scan old new s 0 = a ++ new ++ b.
Proof.
  intros Hold. induction s as [| c s IH]; intros Hc; [discriminate |].
  cbn [count_scan replace_scan] in *.
  destruct (starts_with old (c :: s)) eqn:E.
  - injection Hc as Hc. rewrite (replace_scan_none Hc).
    destruct (starts_with_split E) as [r Hr].
    exists [], r. split; [exact Hr |]. cbn [app]. f_equal.
    destruct old as [| x old']; [congruence |].
    cbn [app] in Hr. injection Hr as _ ->.
    replace (length (x :: old') - 1) with (length old') by (cbn [length]; lia).
    rewrite skipn_app, skipn_all, Nat.sub_diag. reflexivity.
  - destruct (IH Hc) as [a [b [-> Hr]]]. exists (c :: a), b.
    split; [reflexivity |]. cbn [app]. now rewrite Hr.
Qed.

End Replacing.

Lemma str_replace_once (s old new : text) :
  str_count s old = 1 ->
  exists a b, s = a ++ old ++ b /\ str_replace s old new = a ++ new ++ b.
Proof.
  unfold str_count, str_replace. destruct old as [| x old'].
  - intros Hs. destruct s; [| discriminate]. exists [], []. cbn [app flat_map].
    now rewrite app_nil_r.
  - apply replace_scan_once. discriminate.
Qed.

(** X9.  An edit that goes through changes the one occurrence and
    nothing else: when the old string is counted once in the file, the
    content splits around an occurrence of it, and what is written is
    the text before it, the new string and the text behind it. *)
Theorem tool_edit_file_replaces `{Host} (w : World) (path old new content : text) :
  os_read (os w) (resolved path) = Returned content ->
  str_count content old = 1 ->
  exists a b o,
    content = a ++ old ++ b /\
    snd (tool_edit_file w (JStr path) (JStr old) (JStr new)) =
      emit w o (EvWrite (resolved path) (a ++ new ++ b)).
Proof.
  intros Hread Hone.
  destruct (str_replace_once new Hone) as [a [b [Hs Hr]]].
  exists a, b. unfold tool_edit_file. cbn [resolve]. fold (resolved path).
  rewrite Hread.
  assert (Hin : str_in old content = true) by (apply str_in_count; lia).
  rewrite Hin, Hone. cbn [negb Nat.ltb Nat.leb]. rewrite Hr.
  destruct (os_write (os w) (resolved path) (a ++ new ++ b)) as [o [e |]];
    exists o; (split; [exact Hs | reflexivity]).
Qed.

Lemma tool_edit_file_replaces_witness :
  let w := boot [(T "/repo/notes.txt", T "one two three")] [] in
  exists a b o,
    T "one two three" = a ++ T "two" ++ b /\
    snd (@tool_edit_file scripted w (JStr (T "notes.txt")) (JStr (T "two")) (JStr (T "2"))) =
      @emit scripted w o (EvWrite (T "/repo/notes.txt") (a ++ T "2" ++ b)).
Proof.
  intros w.
  apply (@tool_edit_file_replaces scripted w (T "notes.txt") (T "two") (T "2")
           (T "one two three")); reflexivity.
Defined.

(* ================================================================== *)
(** * The deny-list *)

Section DenyList.

Lemma re_search_iff (r : regex) (s : text) :
  re_search r s = true <-> exists a s' rest, s = a ++ s' /\ Matches r s' rest.
Proof.
  split.
  - induction s as [| c s IH]; cbn [re_search].
    + destruct (re_exec r [] no_groups) as [[rest g] |] eqn:E; [| discriminate].
      intros _. exists [], [], rest. split; [reflexivity | eapply re_exec_sound; eauto].
    + destruct (re_exec r (c :: s) no_groups) as [[rest g] |] eqn:E.
      * intros _. exists [], (c :: s), rest.
        split; [reflexivity | eapply re_exec_sound; eauto].
      * intros Hs. destruct (IH Hs) as [a [s' [rest [-> Hm]]]].
        exists (c :: a), s', rest. split; [reflexivity | exact Hm].
  - intros [a [s' [rest [-> Hm]]]].
    destruct (re_exec_complete Hm no_groups) as [m Em].
    induction a as [| c a IH]; cbn [app].
    + destruct s'; cbn [re_search]; now rewrite Em.
    + cbn [re_search]. destruct (re_exec r (c :: a ++ s') no_groups); [reflexivity | exact IH].
Qed.

Lemma Matches_nil_inv (s rest : text) : Matches [] s rest -> s = rest.
Proof. intros Hm. now inversion Hm. Qed.

Lemma Matches_word_inv (l : text) (s rest : text) :
  Matches (lit l) s rest -> s = l ++ rest.
Proof.
  intros Hm. rewrite <- (app_nil_r (lit l)) in Hm.
  apply Matches_lit_inv in Hm as [s' [-> Hm]]. apply Matches_nil_inv in Hm. now subst.
Qed.

Lemma Matches_word (l rest : text) : Matches (lit l) (l ++ rest) rest.
Proof. rewrite <- (app_nil_r (lit l)). apply Matches_lit. constructor. Qed.

Lemma Matches_plus_inv (p : char -> bool) (r : regex) (s rest : text) :
  Matches (plus p ++ r) s rest ->
  exists ws s', s = ws ++ s' /\ ws <> [] /\ forallb p ws = true /\ Matches r s' rest.
Proof.
  cbn [plus app]. intros Hm.
  apply Matches_one_inv in Hm as [c [s1 [-> [Hc Hm]]]].
  apply Matches_star_inv in Hm as [u [s' [-> [Hu Hm]]]].
  exists (c :: u), s'. repeat split; [discriminate | | exact Hm].
  cbn [forallb]. now rewrite Hc, Hu.
Qed.

Lemma Matches_plus (p : char -> bool) (r : regex) (ws s rest : text) :
  ws <> [] -> forallb p ws = true -> Matches r s rest ->
  Matches (plus p ++ r) (ws ++ s) rest.
Proof.
  intros Hne Hws Hm. destruct ws as [| c ws]; [congruence |].
  cbn [forallb] in Hws. apply andb_true_iff in Hws as [Hc Hws].
  cbn [plus app]. constructor; [exact Hc |]. now apply Matches_star.
Qed.

(** What a pattern of the deny-list matches is one of the forbidden
    texts. *)
Lemma dangerous_match (pattern : regex) (s rest : text) :
  In pattern dangerous_patterns ->
  Matches pattern s rest -> exists m, s = m ++ rest /\ forbidden m.
Proof.
  intros Hin Hm. unfold dangerous_patterns in Hin. cbn [In] in Hin.
  destruct Hin as [<- | [<- | [<- | [<- | [<- | []]]]]].
  - apply Matches_lit_inv in Hm as [s1 [-> Hm]].
    apply Matches_plus_inv in Hm as [ws1 [s2 [-> [N1 [W1 Hm]]]]].
    apply Matches_lit_inv in Hm as [s3 [-> Hm]].
    apply Matches_plus_inv in Hm as [ws2 [s4 [-> [N2 [W2 Hm]]]]].
    apply Matches_word_inv in Hm as ->.
    exists (T "rm" ++ ws1 ++ T "-rf" ++ ws2 ++ T "/").
    repeat rewrite <- app_assoc. split; [reflexivity | now constructor].
  - apply Matches_lit_inv in Hm as [s1 [-> Hm]].
    apply Matches_plus_inv in Hm as [ws1 [s2 [-> [N1 [W1 Hm]]]]].
    apply Matches_lit_inv in Hm as [s3 [-> Hm]].
    apply Matches_plus_inv in Hm as [ws2 [s4 [-> [N2 [W2 Hm]]]]].
    apply Matches_word_inv in Hm as ->.
    exists (T "rm" ++ ws1 ++ T "-rf" ++ ws2 ++ T "*").
    repeat rewrite <- app_assoc. split; [reflexivity | now constructor].
  - apply Matches_lit_inv in Hm as [s1 [-> Hm]].
    cbn [app] in Hm. apply Matches_star_inv in Hm as [ws [s2 [-> [W Hm]]]].
    apply Matches_word_inv in Hm as ->.
    exists (T ">" ++ ws ++ T "/dev/sd").
    repeat rewrite <- app_assoc. split; [reflexivity | now constructor].
  - apply Matches_word_inv in Hm as ->.
    exists (T "mkfs."). split; [reflexivity | constructor].
  - apply Matches_lit_inv in Hm as [s1 [-> Hm]].
    apply Matches_plus_inv in Hm as [ws1 [s2 [-> [N1 [W1 Hm]]]]].
    apply Matches_word_inv in Hm as ->.
    exists (T "dd" ++ ws1 ++ T "if=").
    repeat rewrite <- app_assoc. split; [reflexivity | now constructor].
Qed.

Lemma forbidden_matched (m rest : text) :
  forbidden m -> exists pattern, In pattern dangerous_patterns /\ Matches pattern (m ++ rest) rest.
Proof.
  intros Hm.
  destruct Hm as [ws1 ws2 [N1 W1] [N2 W2] | ws1 ws2 [N1 W1] [N2 W2] | ws W | | ws [N W]].
  - exists (nth 0 dangerous_patterns []). split; [cbn; tauto |].
    cbn [nth dangerous_patterns]. repeat rewrite <- app_assoc.
    apply Matches_lit. apply Matches_plus; auto. apply Matches_lit.
    apply Matches_plus; auto. apply Matches_word.
  - exists (nth 1 dangerous_patterns []). split; [cbn; tauto |].
    cbn [nth dangerous_patterns]. repeat rewrite <- app_assoc.
    apply Matches_lit. apply Matches_plus; auto. apply Matches_lit.
    apply Matches_plus; auto. apply Matches_word.
  - exists (nth 2 dangerous_patterns []). split; [cbn; tauto |].
    cbn [nth dangerous_patterns]. repeat rewrite <- app_assoc.
    apply Matches_lit. cbn [app]. apply Matches_star; auto. apply Matches_word.
  - exists (nth 3 dangerous_patterns []). split; [cbn; tauto |].
    cbn [nth dangerous_patterns]. apply Matches_word.
  - exists (nth 4 dangerous_patterns []). split; [cbn; tauto |].
    cbn [nth dangerous_patterns]. repeat rewrite <- app_assoc.
    apply Matches_lit. apply Matches_plus; auto. apply Matches_word.
Qed.

End DenyList.

(** X10.  The deny-list of [tool_bash], read as a set of texts: a
    command is blocked exactly when one of the forbidden texts stands
    somewhere in it. *)
Theorem is_dangerous_forbidden (command : text) :
  is_dangerous command = true <->
  exists a m b, command = a ++ m ++ b /\ forbidden m.
Proof.
  rewrite is_dangerous_iff. split.
  - intros [pattern [Hin Hs]]. apply re_search_iff in Hs as [a [s' [rest [-> Hm]]]].
    apply (dangerous_match Hin) in Hm as [m [-> Hf]].
    now exists a, m, rest.
  - intros [a [m [b [-> Hf]]]].
    destruct (forbidden_matched b Hf) as [pattern [Hin Hm]].
    exists pattern. split; [exact Hin |]. apply re_search_iff. now exists a, (m ++ b), b.
Qed.

(* ================================================================== *)
(** * The checks and the prompt file *)

Section ModelFacts.
Context `{Host}.

Lemma model_bases_named (ms : list json) :
  Forall (fun m => exists n, model_named m n) ms ->
  exists bases,
    model_bases ms = Returned bases /\
    forall m n, In m ms -> model_named m n -> In (before_colon n) bases.
Proof.
  induction 1 as [| m ms [n [d [-> Hn]]] _ [bases [Hb Hin]]].
  - exists []. split; [reflexivity | intros m n []].
  - exists (before_colon n :: bases). cbn [model_bases py_get]. rewrite Hn, Hb.
    split; [reflexivity |].
    intros m n' [<- | Hm] Hnamed.
    + destruct Hnamed as [d' [E Hn']]. injection E as <-.
      rewrite Hn in Hn'. injection Hn' as <-. now left.
    + right. eauto.
Qed.

End ModelFacts.

(** X11.  [check_model_available] compares names up to the first colon.
    When the tags endpoint lists models that all have a name, the check
    passes as soon as one of them agrees with the requested model before
    the colon, whatever tags the two carry. *)
Theorem check_model_available_any_tag `{Host} (w : World) (mdl : text) (o1 : OS)
        (resp : response) (body : json) (ms : list json) (m : json) (installed : text) :
  http_get (os w) tags_url = (o1, Returned resp) ->
  status_code resp = 200%Z ->
  resp_json resp = Returned body ->
  py_get body (T "models") (JArr []) = Returned (JArr ms) ->
  Forall (fun m => exists n, model_named m n) ms ->
  In m ms -> model_named m installed ->
  before_colon installed = before_colon mdl ->
  check_model_available w mdl = (None, mkWorld o1 (trace w)).
Proof.
  intros Hget Hst Hjson Hmodels Hall Hin Hnamed Hbase.
  destruct (model_bases_named Hall) as [bases [Hb Hbases]].
  unfold check_model_available. rewrite Hget, Hst. cbn [Z.eqb Pos.eqb].
  rewrite Hjson, Hmodels. cbn [py_iter]. rewrite Hb.
  assert (E : existsb (text_eqb (before_colon mdl)) bases = true).
  { apply existsb_exists. exists (before_colon installed).
    split; [now apply (Hbases m) |]. rewrite Hbase. apply text_eqb_refl. }
  rewrite E. reflexivity.
Qed.

(** Only the 8b tag is installed; the 14b tag passes the check. *)
Lemma check_model_available_any_tag_witness :
  @check_model_available scripted (boot [] []) (T "deepseek-r1:14b") = (None, boot [] []).
Proof.
  apply (@check_model_available_any_tag scripted (boot [] []) (T "deepseek-r1:14b")
           (@os scripted (boot [] []))
           (mkResponse 200 []
              (Returned (JObj [(T "models",
                                JArr [JObj [(T "name", JStr (T "deepseek-r1:8b"))]])])))
           (JObj [(T "models", JArr [JObj [(T "name", JStr (T "deepseek-r1:8b"))]])])
           [JObj [(T "name", JStr (T "deepseek-r1:8b"))]]
           (JObj [(T "name", JStr (T "deepseek-r1:8b"))])
           (T "deepseek-r1:8b")); try reflexivity.
  - constructor; [| constructor]. exists (T "deepseek-r1:8b").
    eexists; split; reflexivity.
  - now left.
  - eexists; split; reflexivity.
Defined.

Section WordFacts.
Context `{Host}.

Lemma re_exec_one (p : char -> bool) (r : regex) (c : char) (s : text) (g : groups) :
  re_exec (One p :: r) (c :: s) g = if p c then re_exec r s g else None.
Proof. reflexivity. Qed.

(** The pattern of [save_prompt] on a prompt that begins with a slash
    and a word: the group is the slash and the whole word. *)
Lemma slash_command_found (name rest : text) :
  name <> [] -> forallb is_word name = true ->
  match rest with [] => True | c :: _ => is_word c = false end ->
  re_exec slash_command_pattern (slash :: name ++ rest) no_groups =
    Some (rest, mkGroups (Some (slash :: name ++ rest)) (Some rest)).
Proof.
  intros Hne Hw Hrest. destruct name as [| c name]; [congruence |].
  cbn [forallb] in Hw. apply andb_true_iff in Hw as [Hc Hw].
  unfold slash_command_pattern. cbn [plus app]. rewrite re_exec_open.
  rewrite re_exec_one, char_eqb_refl, re_exec_one, Hc.
  apply re_exec_star_all; [exact Hw | reflexivity | exact Hrest].
Qed.

(** On any other prompt the pattern fails. *)
Lemma slash_command_missed (prompt : text) :
  (forall c rest, prompt = slash :: c :: rest -> is_word c = false) ->
  re_exec slash_command_pattern prompt no_groups = None.
Proof.
  intros Hp. unfold slash_command_pattern. cbn [plus app]. rewrite re_exec_open.
  destruct prompt as [| x [| c rest]]; [reflexivity | |].
  - rewrite re_exec_one. now destruct (char_eqb slash x).
  - rewrite re_exec_one. destruct (char_eqb slash x) eqn:E; [| reflexivity].
    apply char_eqb_eq in E. subst x. rewrite re_exec_one.
    now rewrite (Hp c rest eq_refl).
Qed.

End WordFacts.

(** X12.  A prompt that begins with a slash and a word is saved under
    that word: the directory [agents/<adw_id>/<agent_name>/prompts] below
    the project root is made, and the whole prompt is written to the file
    named by the word, the longest run of word characters behind the
    slash, with the extension [.txt]. *)
Theorem save_prompt_named `{Host} (w : World) (name rest adw_id agent_name : text)
        (o1 : OS) :
  let task := slash :: name ++ rest in
  let prompt_dir :=
    join_all get_project_root [T "agents"; adw_id; agent_name; T "prompts"] in
  name <> [] -> forallb is_word name = true ->
  match rest with [] => True | c :: _ => is_word c = false end ->
  os_makedirs (os w) prompt_dir = (o1, None) ->
  exists o2,
    snd (save_prompt w task adw_id agent_name) =
      emit (emit w o1 (EvMakedirs prompt_dir)) o2
           (EvWrite (path_join prompt_dir (name ++ T ".txt")) task).
Proof.
  intros task prompt_dir Hne Hw Hrest Hmk. unfold save_prompt.
  fold task. unfold task at 1. rewrite (slash_command_found Hne Hw Hrest).
  fold task. fold prompt_dir. rewrite Hmk.
  assert (E : skipn 1 (reported task rest (mkGroups (Some task) (Some rest))) = name).
  { unfold reported. cbn [g_open g_close].
    change task with ((slash :: name) ++ rest).
    now rewrite between_app. }
  rewrite E.
  match goal with |- context [os_write ?o ?p ?c] =>
    destruct (os_write o p c) as [o2 [e |]] end; exists o2; reflexivity.
Qed.

Lemma save_prompt_named_witness :
  exists o2,
    snd (@save_prompt scripted (boot [] []) (T "/implement the plan") (T "a1") (T "ops")) =
      @emit scripted
        (@emit scripted (boot [] []) (@os scripted (boot [] []))
           (EvMakedirs (T "/repo/agents/a1/ops/prompts")))
        o2 (EvWrite (T "/repo/agents/a1/ops/prompts/implement.txt")
                    (T "/implement the plan")).
Proof.
  apply (@save_prompt_named scripted (boot [] []) (T "implement") (T " the plan")
           (T "a1") (T "ops")); try reflexivity.
  discriminate.
Defined.

(** X13.  Any other prompt is not saved: when the prompt does not begin
    with a slash followed by a word character, [save_prompt] returns and
    leaves the world as it was. *)
Theorem save_prompt_skips `{Host} (w : World) (task adw_id agent_name : text) :
  (forall c rest, task = slash :: c :: rest -> is_word c = false) ->
  save_prompt w task adw_id agent_name = (Returned tt, w).
Proof.
  intros Hp. unfold save_prompt. now rewrite (slash_command_missed Hp).
Qed.

Lemma save_prompt_skips_witness :
  @save_prompt scripted (boot [] []) (T "fix the bug in /implement") (T "a1") (T "ops") =
    (Returned tt, boot [] []).
Proof.
  apply (@save_prompt_skips scripted). intros c rest E. discriminate E.
Defined.

(* ================================================================== *)
(** * Templates *)

Section ReplaceLone.
Variables (x : char) (o new : text).

Lemma replace_scan_absent (s : text) :
  lacks x s = true -> replace_scan (x :: o) new s 0 = s.
Proof.
  induction s as [| c s IH]; intros Hs; [reflexivity |].
  apply lacks_cons in Hs as [Hc Hs]. cbn [replace_scan starts_with].
  destruct (char_eqb x c) eqn:E; [apply char_eqb_eq in E; congruence |].
  cbn [andb]. now rewrite IH.
Qed.

Lemma replace_scan_drop (old : text) (u v : text) :
  replace_scan old new (u ++ v) (length u) = replace_scan old new v 0.
Proof. induction u as [| c u IH]; [reflexivity | exact IH]. Qed.

(** Where the first character of the old string stands once, the
    replacement is decided there. *)
Lemma replace_scan_lone (a b : text) :
  lacks x a = true -> lacks x b = true ->
  replace_scan (x :: o) new (a ++ x :: b) 0 =
  if starts_with o b then a ++ new ++ skipn (length o) b else a ++ x :: b.
Proof.
  intros Ha Hb. induction a as [| c a IH].
  - cbn [app replace_scan starts_with]. rewrite char_eqb_refl. cbn [andb].
    destruct (starts_with o b) eqn:E.
    + destruct (starts_with_split E) as [r ->].
      replace (length (x :: o) - 1) with (length o) by (cbn [length]; lia).
      rewrite replace_scan_drop, skipn_app, skipn_all, Nat.sub_diag. cbn [skipn app].
      apply lacks_app in Hb as [_ Hr]. now rewrite replace_scan_absent.
    + now rewrite replace_scan_absent.
  - apply lacks_cons in Ha as [Hc Ha]. cbn [app replace_scan starts_with].
    destruct (char_eqb x c) eqn:E; [apply char_eqb_eq in E; congruence |].
    cbn [andb]. rewrite (IH Ha). now destruct (starts_with o b).
Qed.

End ReplaceLone.

Section TemplateFacts.

Lemma lacks_join (c : char) (sep : text) (parts : list text) :
  lacks c sep = true -> Forall (fun p => lacks c p = true) parts ->
  lacks c (str_join sep parts) = true.
Proof.
  intros Hsep. induction 1 as [| p parts Hp Hparts IH]; [reflexivity |].
  cbn [str_join]. destruct parts as [| q parts]; [exact Hp |].
  rewrite !lacks_app. auto.
Qed.

Lemma expand_positional_plain (args : list text) :
  forall (t : text) (i : nat), lacks dollar t = true -> expand_positional t i args = t.
Proof.
  induction args as [| arg rest IH]; intros t i Ht; [reflexivity |].
  cbn [expand_positional].
  change (str_replace t (T "$" ++ str_of_nat i) arg)
    with (replace_scan (dollar :: str_of_nat i) arg t 0).
  rewrite (replace_scan_absent _ _ Ht). now apply IH.
Qed.

Lemma str_of_nat_digit (i : nat) : i <= 9 -> str_of_nat i = [(48 + N.of_nat i)%N].
Proof.
  intros Hi. do 10 (destruct i as [| i]; [vm_compute; reflexivity |]). lia.
Qed.

Lemma positional_from (before after : text) (i : nat) (rest : list text) :
  forall j : nat,
    1 <= j -> j <= i -> i <= 9 -> i - j < length rest ->
    lacks dollar before = true -> lacks dollar after = true ->
    Forall (fun a => lacks dollar a = true) rest ->
    expand_positional (before ++ T "$" ++ str_of_nat i ++ after) j rest =
    before ++ nth (i - j) rest [] ++ after.
Proof.
  induction rest as [| arg rest IH]; intros j Hj Hji Hi Hlen Hb Ha Hrest;
    [cbn [length] in Hlen; lia |].
  inversion Hrest as [| ? ? Harg Hrest']; subst.
  cbn [expand_positional].
  rewrite (str_of_nat_digit Hi). rewrite (@str_of_nat_digit j) by lia.
  change (str_replace (before ++ T "$" ++ [(48 + N.of_nat i)%N] ++ after)
            (T "$" ++ [(48 + N.of_nat j)%N]) arg)
    with (replace_scan (dollar :: [(48 + N.of_nat j)%N]) arg
            (before ++ dollar :: (48 + N.of_nat i)%N :: after) 0).
  rewrite replace_scan_lone; [| exact Hb |].
  2:{ apply lacks_cons. split; [| exact Ha]. unfold dollar. vm_compute (ch "$"). lia. }
  cbn [starts_with]. unfold char_eqb.
  destruct (Nat.eq_dec j i) as [-> | Hne].
  - rewrite N.eqb_refl. cbn [andb length skipn]. rewrite Nat.sub_diag. cbn [nth].
    apply expand_positional_plain. rewrite !lacks_app. auto.
  - replace ((48 + N.of_nat j =? 48 + N.of_nat i)%N) with false
      by (symmetry; apply N.eqb_neq; lia).
    cbn [andb].
    change (before ++ dollar :: (48 + N.of_nat i)%N :: after)
      with (before ++ T "$" ++ [(48 + N.of_nat i)%N] ++ after).
    rewrite <- (str_of_nat_digit Hi).
    rewrite (IH (S j)); try assumption; try (cbn [length] in Hlen; lia).
    replace (i - j) with (S (i - S j)) by lia. reflexivity.
Qed.

End TemplateFacts.

(** X15.  A template whose only dollar sign begins [$ARGUMENTS] expands
    to itself with the arguments, joined by blanks, in that place, when
    no argument has a dollar sign of its own. *)
Theorem expand_template_arguments (before after : text) (arguments : list text) :
  lacks dollar before = true -> lacks dollar after = true ->
  Forall (fun a => lacks dollar a = true) arguments ->
  expand_template (before ++ T "$ARGUMENTS" ++ after) arguments =
  before ++ str_join (T " ") arguments ++ after.
Proof.
  intros Hb Ha Hargs. unfold expand_template.
  change (str_replace (before ++ T "$ARGUMENTS" ++ after) (T "$ARGUMENTS")
            (str_join (T " ") arguments))
    with (replace_scan (dollar :: T "ARGUMENTS") (str_join (T " ") arguments)
            (before ++ dollar :: (T "ARGUMENTS" ++ after)) 0).
  rewrite replace_scan_lone; [| exact Hb |].
  2:{ rewrite lacks_app. split; [reflexivity | exact Ha]. }
  rewrite starts_with_app.
  rewrite skipn_app, skipn_all, Nat.sub_diag. cbn [skipn app].
  apply expand_positional_plain. rewrite !lacks_app. repeat split; auto.
  apply lacks_join; [reflexivity | exact Hargs].
Qed.

Lemma expand_template_arguments_witness :
  expand_template (T "Implement: $ARGUMENTS. Then stop.") [T "add"; T "a"; T "test"] =
  T "Implement: add a test. Then stop.".
Proof.
  apply (@expand_template_arguments (T "Implement: ") (T ". Then stop.")
           [T "add"; T "a"; T "test"]); try reflexivity.
  repeat constructor.
Defined.

(** X16.  A template whose only dollar sign is followed by a digit [i]
    from 1 to 9 expands to itself with the argument number [i] in the
    place of the sign and the digit, when there are that many arguments
    and none has a dollar sign.  What stands behind the digit is kept,
    also when it is another digit. *)
Theorem expand_template_positional (before after : text) (i : nat)
        (arguments : list text) :
  1 <= i -> i <= 9 -> i <= length arguments ->
  lacks dollar before = true -> lacks dollar after = true ->
  Forall (fun a => lacks dollar a = true) arguments ->
  expand_template (before ++ T "$" ++ str_of_nat i ++ after) arguments =
  before ++ nth (i - 1) arguments [] ++ after.
Proof.
  intros H1 H9 Hlen Hb Ha Hargs. unfold expand_template.
  assert (E : str_replace (before ++ T "$" ++ str_of_nat i ++ after) (T "$ARGUMENTS")
                (str_join (T " ") arguments) =
              before ++ T "$" ++ str_of_nat i ++ after).
  { rewrite (str_of_nat_digit H9).
    change (str_replace (before ++ T "$" ++ [(48 + N.of_nat i)%N] ++ after)
              (T "$ARGUMENTS") (str_join (T " ") arguments))
      with (replace_scan (dollar :: T "ARGUMENTS") (str_join (T " ") arguments)
              (before ++ dollar :: (48 + N.of_nat i)%N :: after) 0).
    rewrite replace_scan_lone; [| exact Hb |].
    2:{ apply lacks_cons. split; [| exact Ha]. unfold dollar. vm_compute (ch "$"). lia. }
    change (T "ARGUMENTS") with (ch "A" :: T "RGUMENTS"). cbn [starts_with].
    replace (char_eqb (ch "A") (48 + N.of_nat i)%N) with false; [reflexivity |].
    symmetry. apply N.eqb_neq. vm_compute (ch "A"). lia. }
  rewrite E. apply positional_from; auto. lia.
Qed.

Lemma expand_template_positional_witness :
  expand_template (T "Review $2, please. 10 items.") [T "main.py"; T "util.py"] =
  T "Review util.py, please. 10 items.".
Proof.
  apply (@expand_template_positional (T "Review ") (T ", please. 10 items.") 2
           [T "main.py"; T "util.py"]); try reflexivity; try (cbn; lia).
  repeat constructor.
Defined.

(* ================================================================== *)
(** * The entry points *)

Section EntryFacts.
Context `{Host}.

Lemma path_join_ends (a b : text) : exists pre, path_join a b = pre ++ b.
Proof.
  unfold path_join. destruct (starts_with [slash] b); [now exists [] |].
  destruct a as [| c a]; [now exists [] |].
  destruct (ends_with [slash] (c :: a)).
  - now exists (c :: a).
  - exists ((c :: a) ++ [slash]). now rewrite <- app_assoc.
Qed.

(** A response that reports success was built after both files were
    written. *)
Lemma run_and_record_success (w w' : World) (request : AgentPromptRequest) (mdl : text)
      (resp : AgentPromptResponse) :
  run_and_record w request mdl = (resp, w') ->
  success resp = true ->
  exists msgs before,
    trace w' = before ++ [EvWrite (output_file request) (jsonl_text msgs);
                          EvWrite (json_file_of (output_file request)) (json_text msgs)] /\
    fst (run_agent_loop w (prompt request) mdl 20) = Returned (output resp, msgs) /\
    session_id resp = Some (adw_id request).
Proof.
  unfold run_and_record. intros E Hs.
  destruct (run_agent_loop w (prompt request) mdl 20) as [[[final msgs] | e] w1];
    [| injection E as <- <-; discriminate Hs].
  destruct (save_output w1 msgs (output_file request)) as [[[] | e] w2] eqn:Es;
    [| injection E as <- <-; discriminate Hs].
  injection E as <- <-.
  apply save_output_writes in Es as [dirs [Hext _]].
  exists msgs, (trace w1 ++ dirs). repeat split.
  unfold extends in Hext. now rewrite Hext, <- app_assoc.
Qed.

End EntryFacts.

(** X14.  What a response with [success=True] means.  When
    [prompt_local_agent] returns such a response, the last two effects
    were the writes of the transcript, the line-delimited file at the
    output path and the indented file beside it, both with the same
    messages, and the session id is the [adw_id] of the request. *)
Theorem prompt_local_agent_success `{Host} (w w' : World) (request : AgentPromptRequest)
        (resp : AgentPromptResponse) :
  prompt_local_agent w request = (Returned resp, w') ->
  success resp = true ->
  exists msgs before,
    trace w' = before ++ [EvWrite (output_file request) (jsonl_text msgs);
                          EvWrite (json_file_of (output_file request)) (json_text msgs)] /\
    session_id resp = Some (adw_id request).
Proof.
  unfold prompt_local_agent. intros E Hs.
  destruct (check_ollama_installed w) as [[msg |] w1];
    [injection E as <- <-; discriminate Hs |].
  destruct (check_model_available w1 (lookup_model (model request))) as [error_msg w2].
  match type of E with
  | (let (pull, w3) := ?p in _) = _ => destruct p as [[e |] w3]
  end; [injection E as <- <-; discriminate Hs |].
  destruct (save_prompt w3 (prompt request) (adw_id request) (agent_name request))
    as [[[] | e] w4]; [| discriminate E].
  destruct (run_and_record w4 request (lookup_model (model request))) as [resp' w5] eqn:Er.
  injection E as <- <-.
  destruct (run_and_record_success Er Hs) as [msgs [before [Ht [_ Hid]]]].
  now exists msgs, before.
Qed.

Lemma prompt_local_agent_success_witness :
  let request := mkRequest (T "say hello") (T "a1") (T "ops") (T "sonnet")
                   (T "/repo/agents/a1/ops/raw_output.jsonl") in
  let run := @prompt_local_agent scripted (boot [] [T "Hello."]) request in
  exists msgs before,
    @trace scripted (snd run) =
      before ++ [EvWrite (T "/repo/agents/a1/ops/raw_output.jsonl")
                         (@jsonl_text scripted msgs);
                 EvWrite (json_file_of (T "/repo/agents/a1/ops/raw_output.jsonl"))
                         (@json_text scripted msgs)] /\
    session_id (match fst run with
                | Returned resp => resp
                | Raised _ => mkPromptResponse [] false None
                end) = Some (T "a1").
Proof.
  intros request run.
  assert (Hrun : exists resp, run = (Returned resp, snd run) /\ success resp = true).
  { eexists. split; vm_compute; reflexivity. }
  destruct Hrun as [resp [Hrun Hs]].
  destruct (@prompt_local_agent_success scripted _ _ request resp Hrun Hs)
    as [msgs [before [Ht Hid]]].
  exists msgs, before. split; [exact Ht |]. rewrite Hrun. exact Hid.
Defined.

(** X17.  [execute_template] records under
    [agents/<adw_id>/<agent_name>] below the project root.  The path of
    the line-delimited file ends in [raw_output.jsonl], so the path of
    the indented file differs from it, and when the response reports
    success, the last two effects were the writes of the two files. *)
Theorem execute_template_records `{HostFiles} (w w' : World)
        (request : AgentTemplateRequest) (resp : AgentPromptResponse) :
  let out := path_join (template_output_dir request) (T "raw_output.jsonl") in
  execute_template w request = (Returned resp, w') ->
  success resp = true ->
  json_file_of out <> out /\
  exists msgs before,
    trace w' = before ++ [EvWrite out (jsonl_text msgs);
                          EvWrite (json_file_of out) (json_text msgs)].
Proof.
  intros out. unfold execute_template. intros E Hs. split.
  - apply json_file_differs. unfold out.
    destruct (path_join_ends (template_output_dir request) (T "raw_output.jsonl"))
      as [pre ->].
    apply str_in_split. exists (pre ++ T "raw_output"), [].
    now rewrite <- app_assoc.
  - destruct (load_slash_command w (slash_command request)) as [template | e];
      [| discriminate E].
    destruct (os_makedirs (os w) (template_output_dir request)) as [o1 [e |]];
      [discriminate E |].
    fold out in E.
    destruct (prompt_local_agent_success E Hs) as [msgs [before [Ht _]]].
    cbn [output_file] in Ht. now exists msgs, before.
Qed.

Lemma execute_template_records_witness :
  let request := mkTemplateRequest (T "ops") (T "/chore") [T "tidy"; T "up"] (T "a1")
                   (T "sonnet") in
  let w := boot [(T "/repo/.claude/commands/chore.md", T "Do this: $ARGUMENTS")]
                [T "Done."] in
  let run := @execute_template scripted scripted_files w request in
  json_file_of (T "/repo/agents/a1/ops/raw_output.jsonl") <>
    T "/repo/agents/a1/ops/raw_output.jsonl" /\
  exists msgs before,
    @trace scripted (snd run) =
      before ++ [EvWrite (T "/repo/agents/a1/ops/raw_output.jsonl")
                         (@jsonl_text scripted msgs);
                 EvWrite (json_file_of (T "/repo/agents/a1/ops/raw_output.jsonl"))
                         (@json_text scripted msgs)].
Proof.
  intros request w run.
  assert (Hrun : exists resp, run = (Returned resp, snd run) /\ success resp = true).
  { eexists. split; vm_compute; reflexivity. }
  destruct Hrun as [resp [Hrun Hs]].
  exact (@execute_template_records scripted scripted_files w (snd run) request resp
           Hrun Hs).
Defined.
